(** * ChadBot chat-log parser: a shallow embedding of [parseChat]

    Source: [client/src/pages/ChadBot.js], functions [cleanText],
    [fixMojibake] and [parseChat].

    JavaScript strings are sequences of UTF-16 code units; they are modelled
    as lists of [N].  Exceptions are modelled by the [completion] type, so
    that "never raises" is a statement about the value a function returns.
    The [id] field of a message ([Math.random().toString(36)...]) is an
    opaque token that no property below depends on; it is not part of the
    [Message] record. *)

From Stdlib Require Import String Ascii Arith NArith ZArith List Bool Lia.
Import ListNotations.
Local Open Scope N_scope.

(** ** Strings *)

Definition jsstring := list N.

(** An ASCII literal as a JavaScript string. *)
Definition str (s : string) : jsstring :=
  map N_of_ascii (list_ascii_of_string s).

(** The same, with every apostrophe standing for a double quote (code unit
    34), so that JSON documents can be written as literals. *)
Definition jstr (s : string) : jsstring :=
  map (fun c => if c =? 39 then 34 else c) (str s).

Fixpoint jseqb (a b : jsstring) : bool :=
  match a, b with
  | [], [] => true
  | x :: a', y :: b' => (x =? y) && jseqb a' b'
  | _, _ => false
  end.

Definition in_range (lo hi c : N) : bool := (lo <=? c) && (c <=? hi).

(** ECMAScript WhiteSpace and LineTerminator code units: what [\s] matches
    and what [String.prototype.trim] strips. *)
Definition is_ws (c : N) : bool :=
  in_range 9 13 c || (c =? 32) || (c =? 160) || (c =? 5760)
  || in_range 8192 8202 c || (c =? 8232) || (c =? 8233) || (c =? 8239)
  || (c =? 8287) || (c =? 12288) || (c =? 65279).

(** LineTerminator: the code units [.] does not match. *)
Definition is_lt (c : N) : bool :=
  (c =? 10) || (c =? 13) || (c =? 8232) || (c =? 8233).

Definition is_digit (c : N) : bool := in_range 48 57 c.

Fixpoint drop_ws (s : jsstring) : jsstring :=
  match s with
  | c :: s' => if is_ws c then drop_ws s' else s
  | [] => []
  end.

(** [String.prototype.trim]. *)
Definition trim (s : jsstring) : jsstring :=
  rev (drop_ws (rev (drop_ws s))).

(** [text.replace(/c/g, d)] for a single code unit [c]. *)
Definition replace_all (c d : N) (s : jsstring) : jsstring :=
  map (fun x => if x =? c then d else x) s.

(** [cleanText]: U+202F and U+00A0 become a plain space. *)
Definition cleanText (text : jsstring) : jsstring :=
  replace_all 160 32 (replace_all 8239 32 text).

(** [s.split(sep)] for a single code unit separator; the result is never
    empty. *)
Fixpoint split (sep : N) (s : jsstring) : list jsstring :=
  match s with
  | [] => [[]]
  | c :: s' =>
      if c =? sep then [] :: split sep s'
      else match split sep s' with
           | l :: ls => (c :: l) :: ls
           | [] => [[c]]
           end
  end.

Fixpoint starts_with (p s : jsstring) : bool :=
  match p, s with
  | [], _ => true
  | x :: p', y :: s' => (x =? y) && starts_with p' s'
  | _ :: _, [] => false
  end.

(** ** Completions: a value, or a thrown exception *)

Inductive exn := TypeError | SyntaxError | URIError.

Inductive completion (A : Type) :=
| Normal (a : A)
| Throw (e : exn).
Arguments Normal {A} a.
Arguments Throw {A} e.

Definition bind {A B} (c : completion A) (f : A -> completion B) : completion B :=
  match c with
  | Normal a => f a
  | Throw e => Throw e
  end.

Notation "x <- c ;; k" := (bind c (fun x => k))
  (at level 61, c at next level, right associativity).

(** ** A backtracking matcher for the header patterns

    The four header patterns are anchored with [^] and carry no [m] or [g]
    flag, so [String.prototype.match] succeeds only with a match starting at
    index 0: the matcher below is run at the start of the line.  Every
    quantified atom of the patterns is a single-code-unit class, except two
    optional non-capturing groups. *)

Inductive regex :=
| Eps
| Chr (p : N -> bool)
| Seq (r1 r2 : regex)
| Rep (lo : nat) (hi : option nat) (p : N -> bool)
| Opt (r : regex)
| Grp (i : nat) (r : regex).

(** Capture slots: [None] is [undefined] (the group did not participate). *)
Definition captures := list (option jsstring).

Fixpoint set_cap (i : nat) (v : jsstring) (caps : captures) : captures :=
  match i, caps with
  | O, _ :: t => Some v :: t
  | O, [] => [Some v]
  | S j, c :: t => c :: set_cap j v t
  | S j, [] => None :: set_cap j v []
  end.

Definition get_cap (i : nat) (caps : captures) : option jsstring :=
  nth i caps None.

Definition room (hi : option nat) : bool :=
  match hi with
  | Some O => false
  | _ => true
  end.

Definition dec_hi (hi : option nat) : option nat :=
  match hi with
  | Some n => Some (pred n)
  | None => None
  end.

(** Greedy [p{lo,hi}]: take one more code unit when allowed and possible,
    and fall back to stopping here when at least [lo] have been taken. *)
Fixpoint rep {R} (p : N -> bool) (lo : nat) (hi : option nat) (s : jsstring)
    (k : jsstring -> option R) : option R :=
  let stop := match lo with O => k s | S _ => None end in
  match s with
  | c :: s' =>
      if p c && room hi then
        match rep p (pred lo) (dec_hi hi) s' k with
        | Some r => Some r
        | None => stop
        end
      else stop
  | [] => stop
  end.

(** The text consumed between input [s] and its suffix [s']. *)
Definition consumed (s s' : jsstring) : jsstring :=
  firstn (length s - length s') s.

Fixpoint rmatch (r : regex) (s : jsstring) (caps : captures)
    (k : jsstring -> captures -> option captures) : option captures :=
  match r with
  | Eps => k s caps
  | Chr p =>
      match s with
      | c :: s' => if p c then k s' caps else None
      | [] => None
      end
  | Seq r1 r2 => rmatch r1 s caps (fun s1 caps1 => rmatch r2 s1 caps1 k)
  | Rep lo hi p => rep p lo hi s (fun s' => k s' caps)
  | Opt r1 =>
      match rmatch r1 s caps k with
      | Some x => Some x
      | None => k s caps
      end
  | Grp i r1 =>
      rmatch r1 s caps (fun s' caps' => k s' (set_cap i (consumed s s') caps'))
  end.

(** [line.match(regex)]: [None] is [null]; otherwise slot 0 is the whole
    match and slot [i] is capture group [i]. *)
Definition regex_match (r : regex) (line : jsstring) : option captures :=
  rmatch r line [] (fun s' caps => Some (set_cap 0 (consumed line s') caps)).

(** The groups a pattern is sure to set when it matches. *)
Fixpoint sets (r : regex) (i : nat) : bool :=
  match r with
  | Seq r1 r2 => sets r1 i || sets r2 i
  | Grp j r1 => Nat.eqb j i || sets r1 i
  | _ => false
  end.

Fixpoint cat (rs : list regex) : regex :=
  match rs with
  | [] => Eps
  | [r] => r
  | r :: rs' => Seq r (cat rs')
  end.

(** Character classes.  Under the [i] flag a letter matches both of its
    cases; digits, punctuation and white space have no case variants. *)
Definition lit (c : N) : N -> bool := fun x => x =? c.
Definition one_of (cs : list N) : N -> bool := fun x => existsb (N.eqb x) cs.
Definition not_colon : N -> bool := fun x => negb (x =? 58).
Definition dot : N -> bool := fun x => negb (is_lt x).

Definition star (p : N -> bool) := Rep 0 None p.
Definition plus (p : N -> bool) := Rep 1 None p.
Definition quest (p : N -> bool) := Rep 0 (Some 1%nat) p.
Definition times (n : nat) (p : N -> bool) := Rep n (Some n) p.
Definition between (lo hi : nat) (p : N -> bool) := Rep lo (Some hi) p.

(** [[ap]] and [[APap]] under [/i] *)
Definition cls_ap := one_of [97; 65; 112; 80].
(** [m] and [[Mm]] under [/i] *)
Definition cls_m := one_of [109; 77].
(** [[/.-]] *)
Definition cls_datesep := one_of [47; 46; 45].
(** [[,\sT]] under [/i] *)
Definition cls_dt := fun x => (x =? 44) || is_ws x || (x =? 84) || (x =? 116).

(** The short numeric date shared by [ios_brackets] and [android_short]:
    one or two digits, a separator, one or two digits, a separator, two to
    four digits. *)
Definition re_short_date : regex :=
  cat [between 1 2 is_digit; Chr cls_datesep; between 1 2 is_digit;
       Chr cls_datesep; between 2 4 is_digit].

Definition src_android_iso : string :=
  "/^(\d{4}-\d{2}-\d{2}),\s*(\d{1,2}:\d{2})\s*([ap]\.?m\.?)\s*-\s*([^:]+):\s*(.*)/i".

Definition re_android_iso : regex :=
  cat [Grp 1 (cat [times 4 is_digit; Chr (lit 45); times 2 is_digit;
                   Chr (lit 45); times 2 is_digit]);
       Chr (lit 44); star is_ws;
       Grp 2 (cat [between 1 2 is_digit; Chr (lit 58); times 2 is_digit]);
       star is_ws;
       Grp 3 (cat [Chr cls_ap; quest (lit 46); Chr cls_m; quest (lit 46)]);
       star is_ws; Chr (lit 45); star is_ws;
       Grp 4 (plus not_colon); Chr (lit 58); star is_ws;
       Grp 5 (star dot)].

Definition src_ios_brackets : string :=
  "/^\[(\d{1,2}[/.-]\d{1,2}[/.-]\d{2,4})[,\sT]+(\d{1,2}:\d{2}(?::\d{2})?(?:\s*[APap]\.?[Mm]\.?)?)\]\s*([^:]+):\s*(.*)/i".

Definition re_ios_brackets : regex :=
  cat [Chr (lit 91);
       Grp 1 re_short_date;
       plus cls_dt;
       Grp 2 (cat [between 1 2 is_digit; Chr (lit 58); times 2 is_digit;
                   Opt (cat [Chr (lit 58); times 2 is_digit]);
                   Opt (cat [star is_ws; Chr cls_ap; quest (lit 46);
                             Chr cls_m; quest (lit 46)])]);
       Chr (lit 93); star is_ws;
       Grp 3 (plus not_colon); Chr (lit 58); star is_ws;
       Grp 4 (star dot)].

Definition src_android_short : string :=
  "/^(\d{1,2}[/.-]\d{1,2}[/.-]\d{2,4}),\s*(\d{1,2}:\d{2}\s*[APap]\.?[Mm]\.?)\s*-\s*([^:]+):\s*(.*)/i".

Definition re_android_short : regex :=
  cat [Grp 1 re_short_date;
       Chr (lit 44); star is_ws;
       Grp 2 (cat [between 1 2 is_digit; Chr (lit 58); times 2 is_digit;
                   star is_ws; Chr cls_ap; quest (lit 46); Chr cls_m;
                   quest (lit 46)]);
       star is_ws; Chr (lit 45); star is_ws;
       Grp 3 (plus not_colon); Chr (lit 58); star is_ws;
       Grp 4 (star dot)].

Definition src_generic : string :=
  "/^([^\s:][^:]{0,30}):\s+(.+)/".

Definition re_generic : regex :=
  cat [Grp 1 (cat [Chr (fun x => negb (is_ws x || (x =? 58)));
                   between 0 30 not_colon]);
       Chr (lit 58); plus is_ws;
       Grp 2 (plus dot)].

(** ** Header patterns and message extraction *)

(** What a pattern's [parse] returns.  Each field is a JavaScript value
    that is either a string or [undefined] ([None]). *)
Record extracted := mkExtracted {
  x_date : option jsstring;
  x_time : option jsstring;
  x_sender : option jsstring;
  x_content : option jsstring
}.

(** A captured group inside a template literal: [undefined] prints as the
    word. *)
Definition tmpl (v : option jsstring) : jsstring :=
  match v with
  | Some s => s
  | None => str "undefined"
  end.

Record pattern := mkPattern {
  id : string;
  source : string;
  regex_of : regex;
  parse : captures -> extracted
}.

Definition android_iso : pattern :=
  mkPattern "android_iso" src_android_iso re_android_iso
    (fun m => mkExtracted (get_cap 1 m)
                          (Some (tmpl (get_cap 2 m) ++ 32 :: tmpl (get_cap 3 m)))
                          (get_cap 4 m) (get_cap 5 m)).

Definition ios_brackets : pattern :=
  mkPattern "ios_brackets" src_ios_brackets re_ios_brackets
    (fun m => mkExtracted (get_cap 1 m) (get_cap 2 m) (get_cap 3 m) (get_cap 4 m)).

Definition android_short : pattern :=
  mkPattern "android_short" src_android_short re_android_short
    (fun m => mkExtracted (get_cap 1 m) (get_cap 2 m) (get_cap 3 m) (get_cap 4 m)).

Definition generic : pattern :=
  mkPattern "generic" src_generic re_generic
    (fun m => mkExtracted (Some []) (Some []) (get_cap 1 m) (get_cap 2 m)).

(** The patterns, most specific first. *)
Definition patterns : list pattern :=
  [android_iso; ios_brackets; android_short; generic].

(** [for (const p of patterns) { match = line.match(p.regex); if (match)
    { extracted = p.parse(match); break; } }] *)
Fixpoint extract (ps : list pattern) (cleanedLine : jsstring) : option extracted :=
  match ps with
  | [] => None
  | p :: ps' =>
      match regex_match (regex_of p) cleanedLine with
      | Some m => Some (parse p m)
      | None => extract ps' cleanedLine
      end
  end.

(** ** Messages *)

(** A message; [C] is the type of its [content], a string on the line path
    and an arbitrary parsed value on the structured-data path. *)
Record Message (C : Type) := mkMessage {
  date : jsstring;
  time : jsstring;
  sender : jsstring;
  content : C
}.
Arguments mkMessage {C}.
Arguments date {C}.
Arguments time {C}.
Arguments sender {C}.
Arguments content {C}.

(** [new Set()], [Set.prototype.add] and [Array.from(set)]: a set of strings
    in insertion order. *)
Definition Set_add (x : jsstring) (set : list jsstring) : list jsstring :=
  if existsb (jseqb x) set then set else set ++ [x].

(** [v || d] for a value that is a string or [undefined]. *)
Definition or_default (v : option jsstring) (d : jsstring) : jsstring :=
  match v with
  | Some (c :: s) => c :: s
  | _ => d
  end.

(** [v.trim()]: a [TypeError] on [undefined]. *)
Definition trim_method (v : option jsstring) : completion jsstring :=
  match v with
  | Some s => Normal (trim s)
  | None => Throw TypeError
  end.

(** The state of the line loop: [messages], [participants] and
    [currentMessage]. *)
Record line_state := mkState {
  st_messages : list (Message jsstring);
  st_participants : list jsstring;
  st_current : option (Message jsstring)
}.

Definition push_current (st : line_state) : list (Message jsstring) :=
  match st_current st with
  | Some m => st_messages st ++ [m]
  | None => st_messages st
  end.

(** The body of [lines.forEach]. *)
Definition line_step (st : line_state) (line : jsstring) : completion line_state :=
  let cleanedLine := cleanText (trim line) in
  match cleanedLine with
  | [] => Normal st
  | _ :: _ =>
      match extract patterns cleanedLine with
      | Some ex =>
          let messages := push_current st in
          sender <- trim_method (x_sender ex) ;;
          let participants := Set_add sender (st_participants st) in
          body <- trim_method (x_content ex) ;;
          Normal (mkState messages participants
                    (Some (mkMessage (or_default (x_date ex) (str "Unknown"))
                                     (or_default (x_time ex) [])
                                     sender body)))
      | None =>
          match st_current st with
          | Some m =>
              Normal (mkState (st_messages st) (st_participants st)
                        (Some (mkMessage (date m) (time m) (sender m)
                                         (content m ++ 10 :: cleanedLine))))
          | None => Normal st
          end
      end
  end.

Fixpoint forEach {S A} (f : S -> A -> completion S) (l : list A) (st : S) : completion S :=
  match l with
  | [] => Normal st
  | a :: l' => st' <- f st a ;; forEach f l' st'
  end.

(** Line-based parsing: everything in [parseChat] after the [try] block. *)
Definition parse_lines (rawText : jsstring)
  : completion (list (Message jsstring) * list jsstring) :=
  st <- forEach line_step (split 10 rawText) (mkState [] [] None) ;;
  Normal (push_current st, st_participants st).

(** ** JSON values and [JSON.parse] *)

(** A parsed JSON value.  A number keeps its literal text: its value is an
    IEEE double, which is not modelled (see [Section Host]).  An object
    keeps its members in source order; a later duplicate key overrides an
    earlier one when a property is read. *)
#[warnings="-register-all"]
Inductive json :=
| JNull
| JBool (b : bool)
| JNum (lit : jsstring)
| JStr (s : jsstring)
| JArr (elems : list json)
| JObj (members : list (jsstring * json)).

Definition is_jws (c : N) : bool :=
  (c =? 9) || (c =? 10) || (c =? 13) || (c =? 32).

Fixpoint skip_jws (s : jsstring) : jsstring :=
  match s with
  | c :: s' => if is_jws c then skip_jws s' else s
  | [] => []
  end.

Definition hexval (c : N) : option N :=
  if in_range 48 57 c then Some (c - 48)
  else if in_range 65 70 c then Some (c - 55)
  else if in_range 97 102 c then Some (c - 87)
  else None.

Definition simple_escape (e : N) : option N :=
  if e =? 34 then Some 34
  else if e =? 92 then Some 92
  else if e =? 47 then Some 47
  else if e =? 98 then Some 8
  else if e =? 102 then Some 12
  else if e =? 110 then Some 10
  else if e =? 114 then Some 13
  else if e =? 116 then Some 9
  else None.

Definition cons_fst {A B} (a : A) (r : option (list A * B)) : option (list A * B) :=
  match r with
  | Some (l, b) => Some (a :: l, b)
  | None => None
  end.

(** The characters of a JSON string after its opening quote, up to and
    including the closing quote. *)
Fixpoint parse_string (s : jsstring) : option (jsstring * jsstring) :=
  match s with
  | [] => None
  | c :: r =>
      if c =? 34 then Some ([], r)
      else if c =? 92 then
        match r with
        | e :: r1 =>
            if e =? 117 then
              match r1 with
              | h1 :: h2 :: h3 :: h4 :: r2 =>
                  match hexval h1, hexval h2, hexval h3, hexval h4 with
                  | Some a, Some b, Some c', Some d =>
                      cons_fst (4096 * a + 256 * b + 16 * c' + d) (parse_string r2)
                  | _, _, _, _ => None
                  end
              | _ => None
              end
            else
              match simple_escape e with
              | Some x => cons_fst x (parse_string r1)
              | None => None
              end
        | [] => None
        end
      else if c <? 32 then None
      else cons_fst c (parse_string r)
  end.

Fixpoint take_digits (s : jsstring) : jsstring * jsstring :=
  match s with
  | c :: s' =>
      if is_digit c then let (ds, r) := take_digits s' in (c :: ds, r)
      else ([], s)
  | [] => ([], [])
  end.

(** One or more digits. *)
Definition digits1 (s : jsstring) : option (jsstring * jsstring) :=
  match take_digits s with
  | ([], _) => None
  | r => Some r
  end.

(** A JSON number: an optional minus sign; a zero, or a non-zero digit
    followed by digits; optionally a dot and one or more digits; optionally
    [e] or [E], an optional sign and one or more digits.  Returns the
    literal and the rest of the input. *)
Definition parse_number (s : jsstring) : option (jsstring * jsstring) :=
  let '(sign, s1) := match s with
                     | c :: r => if c =? 45 then ([45], r) else ([], s)
                     | [] => ([], s)
                     end in
  match (match s1 with
         | c :: r => if c =? 48 then Some ([48], r)
                     else if in_range 49 57 c then Some (take_digits s1)
                     else None
         | [] => None
         end) with
  | None => None
  | Some (int, s2) =>
      match (match s2 with
             | c :: r => if c =? 46 then
                           match digits1 r with
                           | Some (ds, r') => Some (46 :: ds, r')
                           | None => None
                           end
                         else Some ([], s2)
             | [] => Some ([], s2)
             end) with
      | None => None
      | Some (frac, s3) =>
          match (match s3 with
                 | c :: r =>
                     if (c =? 101) || (c =? 69) then
                       let '(esign, r1) :=
                         match r with
                         | x :: r0 => if (x =? 43) || (x =? 45) then ([x], r0) else ([], r)
                         | [] => ([], r)
                         end in
                       match digits1 r1 with
                       | Some (ds, r') => Some (c :: esign ++ ds, r')
                       | None => None
                       end
                     else Some ([], s3)
                 | [] => Some ([], s3)
                 end) with
          | None => None
          | Some (ex, s4) => Some (sign ++ int ++ frac ++ ex, s4)
          end
      end
  end.

(** A recursive-descent reader for the JSON grammar; [fuel] bounds the
    number of nested calls. *)
Fixpoint parse_value (fuel : nat) (s : jsstring) : option (json * jsstring) :=
  match fuel with
  | O => None
  | S f =>
      match skip_jws s with
      | [] => None
      | c :: r =>
          if c =? 123 then
            match skip_jws r with
            | c' :: r' => if c' =? 125 then Some (JObj [], r') else parse_members f r []
            | [] => None
            end
          else if c =? 91 then
            match skip_jws r with
            | c' :: r' => if c' =? 93 then Some (JArr [], r') else parse_elements f r []
            | [] => None
            end
          else if c =? 34 then
            match parse_string r with
            | Some (v, r') => Some (JStr v, r')
            | None => None
            end
          else if starts_with (str "true") (c :: r) then Some (JBool true, skipn 4 (c :: r))
          else if starts_with (str "false") (c :: r) then Some (JBool false, skipn 5 (c :: r))
          else if starts_with (str "null") (c :: r) then Some (JNull, skipn 4 (c :: r))
          else
            match parse_number (c :: r) with
            | Some (lit, r') => Some (JNum lit, r')
            | None => None
            end
      end
  end
with parse_elements (fuel : nat) (s : jsstring) (acc : list json) : option (json * jsstring) :=
  match fuel with
  | O => None
  | S f =>
      match parse_value f s with
      | Some (v, r) =>
          match skip_jws r with
          | c :: r' =>
              if c =? 44 then parse_elements f r' (acc ++ [v])
              else if c =? 93 then Some (JArr (acc ++ [v]), r')
              else None
          | [] => None
          end
      | None => None
      end
  end
with parse_members (fuel : nat) (s : jsstring) (acc : list (jsstring * json)) : option (json * jsstring) :=
  match fuel with
  | O => None
  | S f =>
      match skip_jws s with
      | q :: r0 =>
          if q =? 34 then
            match parse_string r0 with
            | Some (key, r1) =>
                match skip_jws r1 with
                | c :: r2 =>
                    if c =? 58 then
                      match parse_value f r2 with
                      | Some (v, r3) =>
                          match skip_jws r3 with
                          | c' :: r4 =>
                              if c' =? 44 then parse_members f r4 (acc ++ [(key, v)])
                              else if c' =? 125 then Some (JObj (acc ++ [(key, v)]), r4)
                              else None
                          | [] => None
                          end
                      | None => None
                      end
                    else None
                | [] => None
                end
            | None => None
            end
          else None
      | [] => None
      end
  end.

(** [JSON.parse(text)]: a [SyntaxError] unless the whole text is one JSON
    value surrounded by JSON white space. *)
Definition JSON_parse (text : jsstring) : completion json :=
  match parse_value (S (2 * length text)) text with
  | Some (v, r) =>
      match skip_jws r with
      | [] => Normal v
      | _ :: _ => Throw SyntaxError
      end
  | None => Throw SyntaxError
  end.

(** ** [escape] and [decodeURIComponent] *)

Definition hexdigit (d : N) : N := if d <? 10 then 48 + d else 55 + d.

(** The code units [escape] leaves alone: letters, digits and [@*_+-./]. *)
Definition unescaped (c : N) : bool :=
  in_range 65 90 c || in_range 97 122 c || in_range 48 57 c
  || (c =? 64) || (c =? 42) || (c =? 95) || (c =? 43) || (c =? 45)
  || (c =? 46) || (c =? 47).

Definition escape_unit (c : N) : jsstring :=
  if unescaped c then [c]
  else if c <? 256 then [37; hexdigit (c / 16); hexdigit (c mod 16)]
  else [37; 117; hexdigit (c / 4096 mod 16); hexdigit (c / 256 mod 16);
        hexdigit (c / 16 mod 16); hexdigit (c mod 16)].

(** [escape(string)] *)
Definition escape (s : jsstring) : jsstring := flat_map escape_unit s.

(** The number of octets announced by a leading octet [B >= 128]: the
    number of its leading one bits (5 stands for "more than four"). *)
Definition lead_count (B : N) : nat :=
  if B <? 192 then 1
  else if B <? 224 then 2
  else if B <? 240 then 3
  else if B <? 248 then 4
  else 5.

(** An escaped octet [%XY]. *)
Definition read_octet (s : jsstring) : option (N * jsstring) :=
  match s with
  | c :: h1 :: h2 :: r =>
      if c =? 37 then
        match hexval h1, hexval h2 with
        | Some a, Some b => Some (16 * a + b, r)
        | _, _ => None
        end
      else None
  | _ => None
  end.

(** [n] further escaped octets, each with its two top bits equal to 10. *)
Fixpoint read_cont (n : nat) (s : jsstring) : option (list N * jsstring) :=
  match n with
  | O => Some ([], s)
  | S n' =>
      match read_octet s with
      | Some (B, r) =>
          if in_range 128 191 B then cons_fst B (read_cont n' r) else None
      | None => None
      end
  end.

(** The code point encoded by a leading octet and its continuation octets,
    when they are a valid UTF-8 encoding of a code point: shortest form, not
    a surrogate, at most U+10FFFF. *)
Definition utf8_value (B : N) (octets : list N) : option N :=
  match octets with
  | [b2] =>
      let V := (B - 192) * 64 + (b2 - 128) in
      if 128 <=? V then Some V else None
  | [b2; b3] =>
      let V := (B - 224) * 4096 + (b2 - 128) * 64 + (b3 - 128) in
      if (2048 <=? V) && negb (in_range 55296 57343 V) then Some V else None
  | [b2; b3; b4] =>
      let V := (B - 240) * 262144 + (b2 - 128) * 4096 + (b3 - 128) * 64 + (b4 - 128) in
      if (65536 <=? V) && (V <=? 1114111) then Some V else None
  | _ => None
  end.

(** The UTF-16 encoding of a code point. *)
Definition utf16 (V : N) : jsstring :=
  if V <? 65536 then [V]
  else [55296 + (V - 65536) / 1024; 56320 + (V - 65536) mod 1024].

Definition map_normal {A B} (f : A -> B) (c : completion A) : completion B :=
  a <- c ;; Normal (f a).

(** The [Decode] operation of ECMAScript with an empty reserved set.
    [fuel] bounds the number of iterations of its loop. *)
Fixpoint Decode (fuel : nat) (s : jsstring) : completion jsstring :=
  match s with
  | [] => Normal []
  | c :: rest =>
      match fuel with
      | O => Throw URIError
      | S f =>
          if c =? 37 then
            match read_octet s with
            | None => Throw URIError
            | Some (B, r) =>
                if B <? 128 then map_normal (cons B) (Decode f r)
                else
                  let n := lead_count B in
                  if Nat.eqb n 1 || Nat.ltb 4 n then Throw URIError
                  else
                    match read_cont (pred n) r with
                    | None => Throw URIError
                    | Some (octets, r') =>
                        match utf8_value B octets with
                        | None => Throw URIError
                        | Some V => map_normal (app (utf16 V)) (Decode f r')
                        end
                    end
            end
          else map_normal (cons c) (Decode f rest)
      end
  end.

(** [decodeURIComponent(s)] *)
Definition decodeURIComponent (s : jsstring) : completion jsstring :=
  Decode (length s) s.

(** ** The structured-data fast path *)

Record ParseResult := mkResult {
  messages : list (Message json);
  participants : list jsstring
}.

(** ASCII upper-casing of one code unit, as the [i] flag compares the
    letters of [json]. *)
Definition ascii_upper (c : N) : N :=
  if in_range 97 122 c then c - 32 else c.

Fixpoint starts_with_ci (p s : jsstring) : bool :=
  match p, s with
  | [], _ => true
  | x :: p', y :: s' => (ascii_upper x =? ascii_upper y) && starts_with_ci p' s'
  | _ :: _, [] => false
  end.

Definition fence : jsstring := [96; 96; 96].

(** [.replace(/^```json\s*/i, '')] *)
Definition strip_json_fence (s : jsstring) : jsstring :=
  if starts_with_ci (fence ++ str "json") s then drop_ws (skipn 7 s) else s.

(** [.replace(/^```\s*/i, '')] *)
Definition strip_fence (s : jsstring) : jsstring :=
  if starts_with fence s then drop_ws (skipn 3 s) else s.

(** [.replace(/\s*```$/, '')]: the leftmost match is the final fence
    together with the whole run of white space before it. *)
Definition strip_trailing_fence (s : jsstring) : jsstring :=
  if starts_with fence (rev s) then rev (drop_ws (skipn 3 (rev s))) else s.

(** Reading property [key] of a parsed value: a [TypeError] on [null],
    [undefined] ([None]) when the property is absent.  The keys read by
    [parseChat] ([role], [content], [messages]) are neither array or string
    properties nor inherited from a prototype. *)
Fixpoint lookup_last (key : jsstring) (ms : list (jsstring * json)) : option json :=
  match ms with
  | [] => None
  | (k, v) :: ms' =>
      match lookup_last key ms' with
      | Some v' => Some v'
      | None => if jseqb k key then Some v else None
      end
  end.

Definition get_prop (v : json) (key : jsstring) : completion (option json) :=
  match v with
  | JNull => Throw TypeError
  | JObj ms => Normal (lookup_last key ms)
  | _ => Normal None
  end.

Definition has_key (key : jsstring) (ms : list (jsstring * json)) : bool :=
  existsb (fun kv => jseqb (fst kv) key) ms.

Fixpoint join_with (sep : jsstring) (parts : list jsstring) : jsstring :=
  match parts with
  | [] => []
  | [x] => x
  | x :: rest => x ++ sep ++ join_with sep rest
  end.

Fixpoint sequence {A} (cs : list (completion A)) : completion (list A) :=
  match cs with
  | [] => Normal []
  | c :: cs' => a <- c ;; l <- sequence cs' ;; Normal (a :: l)
  end.

(** ** Vocabulary of the properties *)

(** What [line_step] does with a line that is no header: nothing when no
    message is accumulating, otherwise the cleaned line is appended after a
    newline. *)
Definition continue_or_drop (st : line_state) (cleanedLine : jsstring) : line_state :=
  match st_current st with
  | Some m =>
      mkState (st_messages st) (st_participants st)
        (Some (mkMessage (date m) (time m) (sender m)
                         (content m ++ 10 :: cleanedLine)))
  | None => st
  end.

(** A UTF-8 continuation octet. *)
Definition is_cont (b : N) : bool := in_range 128 191 b.

(** The range of the second octet of a three- or four-octet sequence, by
    its leading octet (Unicode, table of well-formed UTF-8 byte
    sequences). *)
Definition second_ok (b1 b2 : N) : bool :=
  if b1 =? 224 then in_range 160 191 b2
  else if b1 =? 237 then in_range 128 159 b2
  else if b1 =? 240 then in_range 144 191 b2
  else if b1 =? 244 then in_range 128 143 b2
  else in_range 128 191 b2.

(** The code units of a string, read as octets, are well-formed UTF-8: the
    definition of the Unicode standard, independent of [Decode].  A code
    unit outside the single-octet range fits no row of the table. *)
Fixpoint utf8_wf (bs : jsstring) : bool :=
  match bs with
  | [] => true
  | b1 :: r1 =>
      if b1 <? 128 then utf8_wf r1
      else if in_range 194 223 b1 then
        match r1 with
        | b2 :: r2 => is_cont b2 && utf8_wf r2
        | _ => false
        end
      else if in_range 224 239 b1 then
        match r1 with
        | b2 :: b3 :: r3 => second_ok b1 b2 && is_cont b3 && utf8_wf r3
        | _ => false
        end
      else if in_range 240 244 b1 then
        match r1 with
        | b2 :: b3 :: b4 :: r4 =>
            second_ok b1 b2 && is_cont b3 && is_cont b4 && utf8_wf r4
        | _ => false
        end
      else false
  end.

(** The shape of double-encoded text: every code unit is a single octet, at
    least one is outside ASCII, and together they are well-formed UTF-8.
    Text of any other shape is what [fixMojibake] takes to be correct
    already. *)
Definition double_encoded_shape (text : jsstring) : bool :=
  forallb (fun c => c <? 256) text && existsb (fun c => 128 <=? c) text
  && utf8_wf text.

(** The three patterns that carry a date; [patterns] is these followed by
    [generic]. *)
Definition date_patterns : list pattern :=
  [android_iso; ios_brackets; android_short].

(** A sentence with a colon after more than 31 code units. *)
Definition long_sentence : jsstring :=
  str "This is a long sentence that happens to contain a colon: and continues past thirty one characters".

(** The longest prefix of code units in a class, and the rest. *)
Fixpoint span (p : N -> bool) (s : jsstring) : jsstring * jsstring :=
  match s with
  | c :: s' => if p c then let (a, b) := span p s' in (c :: a, b) else ([], s)
  | [] => ([], [])
  end.

(** What is left of the generic pattern after the colon that ends the
    sender: white space, then the rest of the line up to a line
    terminator; [sender] is the text of group 1. *)
Definition generic_tail (line sender r1 : jsstring) : option captures :=
  rep is_ws 1 None r1 (fun s2 =>
    rep dot 1 None s2 (fun s3 =>
      Some (set_cap 0 (consumed line s3)
              (set_cap 2 (consumed s2 s3) (set_cap 1 sender []))))).


(** A string without trailing white space. *)
Definition no_trailing_ws (s : jsstring) : Prop := drop_ws (rev s) = rev s.

(** The distinct elements of a list in the order of their first
    occurrences. *)
Fixpoint first_seen (l : list jsstring) : list jsstring :=
  match l with
  | [] => []
  | x :: l' => x :: filter (fun y => negb (jseqb x y)) (first_seen l')
  end.

(** Unicode scalar values: code points that are not surrogates. *)
Definition is_scalar (V : N) : bool :=
  (V <? 55296) || in_range 57344 1114111 V.

(** The UTF-8 encoding of a scalar value, as octets. *)
Definition utf8_encode1 (V : N) : list N :=
  if V <? 128 then [V]
  else if V <? 2048 then [192 + V / 64; 128 + V mod 64]
  else if V <? 65536 then
    [224 + V / 4096; 128 + (V / 64) mod 64; 128 + V mod 64]
  else
    [240 + V / 262144; 128 + (V / 4096) mod 64; 128 + (V / 64) mod 64;
     128 + V mod 64].

(** Double-encoded text: the UTF-8 octets of a text, each read as one code
    unit (the Latin-1 reading). *)
Definition double_encode (cps : list N) : jsstring := flat_map utf8_encode1 cps.

(** The text itself, as a JavaScript string. *)
Definition utf16_encode (cps : list N) : jsstring := flat_map utf16 cps.

(** The lines the header patterns see: every line of the text trimmed and
    cleaned, the blank ones left out. *)
Definition cleaned_lines (rawText : jsstring) : list jsstring :=
  filter (fun c => match c with [] => false | _ :: _ => true end)
         (map (fun line => cleanText (trim line)) (split 10 rawText)).

(** The sender of an extraction, trimmed. *)
Definition trimmed (v : option jsstring) : jsstring :=
  match v with
  | Some s => trim s
  | None => []
  end.

(** The message of a header line whose continuation lines add up to
    [lead]. *)
Definition header_message (ex : extracted) (lead : jsstring) : Message jsstring :=
  mkMessage (or_default (x_date ex) (str "Unknown")) (or_default (x_time ex) [])
            (trimmed (x_sender ex)) (trimmed (x_content ex) ++ lead).

(** Grouping from the right: the messages of a list of cleaned lines, and
    the continuation text that precedes its first header. *)
Fixpoint group (cls : list jsstring) : list (Message jsstring) * jsstring :=
  match cls with
  | [] => ([], [])
  | c :: rest =>
      let (msgs, lead) := group rest in
      match extract patterns c with
      | Some ex => (header_message ex lead :: msgs, [])
      | None => (msgs, 10 :: c ++ lead)
      end
  end.

(** The messages the loop ends with, given the state it starts from and
    the grouping of the lines it runs over. *)
Definition flush_with (st : line_state) (g : list (Message jsstring) * jsstring)
  : list (Message jsstring) :=
  match st_current st with
  | Some m =>
      st_messages st
        ++ mkMessage (date m) (time m) (sender m) (content m ++ snd g) :: fst g
  | None => st_messages st ++ fst g
  end.

Definition is_header (c : jsstring) : bool :=
  match extract patterns c with
  | Some _ => true
  | None => false
  end.

(** The blocks of a list of cleaned lines: every header line with the
    lines that follow it up to the next header, in order; the second
    component holds the lines before the first header. *)
Fixpoint blocks (cls : list jsstring) : list (jsstring * list jsstring) * list jsstring :=
  match cls with
  | [] => ([], [])
  | c :: rest =>
      let (bs, lead) := blocks rest in
      if is_header c then ((c, lead) :: bs, []) else (bs, c :: lead)
  end.

(** What continuation lines add to a content: each line after a newline. *)
Definition continuation (conts : list jsstring) : jsstring :=
  flat_map (fun c => 10 :: c) conts.

(** The text handed to [JSON.parse]: the input trimmed, without a leading
    [```json] or [```] fence and without a trailing fence.  [parseChat] and
    [handlePredictNext] compute it by the same chain of calls. *)
Definition unfenced (rawText : jsstring) : jsstring :=
  strip_trailing_fence (strip_fence (strip_json_fence (trim rawText))).

(** The document inside a fence, with its surroundings. *)
Definition in_fence (tag ws1 doc ws2 : jsstring) : jsstring :=
  fence ++ tag ++ ws1 ++ doc ++ ws2 ++ fence.

(** ** The prediction written back as a line *)

(** [n.toString()] for a non-negative integer: its decimal digits. *)
Fixpoint decimal_digits (fuel : nat) (n : N) (acc : jsstring) : jsstring :=
  match fuel with
  | O => acc
  | S fuel' =>
      let acc' := (48 + n mod 10) :: acc in
      if n <? 10 then acc' else decimal_digits fuel' (n / 10) acc'
  end.

Definition decimal (n : N) : jsstring :=
  decimal_digits (S (N.to_nat (N.log2 n))) n [].

(** [s.padStart(len, fill)] for a filler of one code unit. *)
Definition padStart (len : nat) (fill : N) (s : jsstring) : jsstring :=
  repeat fill (len - length s) ++ s.

(** [now.getHours() >= 12 ? 'p.m.' : 'a.m.'] *)
Definition ampm (hours : N) : jsstring :=
  if 12 <=? hours then str "p.m." else str "a.m.".

(** The line that [handlePredictNext] appends to a text that is not
    structured data; [dateStr] is the date part of [now.toISOString()],
    [hours] and [minutes] are [now.getHours()] and [now.getMinutes()]. *)
Definition predicted_line (dateStr : jsstring) (hours minutes : N)
    (nextSpeakerOriginal prediction : jsstring) : jsstring :=
  10 :: dateStr ++ str ", " ++ decimal hours ++ 58 ::
    padStart 2 48 (decimal minutes) ++ 32 :: ampm hours ++ str " - "
    ++ nextSpeakerOriginal ++ str ": " ++ trim prediction.

(** The date part of an ISO timestamp with a four-digit year. *)
Definition iso_date (d : jsstring) : bool :=
  match d with
  | [y1; y2; y3; y4; s1; m1; m2; s2; d1; d2] =>
      forallb is_digit [y1; y2; y3; y4; m1; m2; d1; d2] && (s1 =? 45) && (s2 =? 45)
  | _ => false
  end.

(** The numbers below one hundred print as one or two digits, and as two
    when padded. *)
Definition two_digits (n : N) : bool :=
  match decimal n, padStart 2 48 (decimal n) with
  | h1 :: H', [n1; n2] =>
      is_digit h1 && forallb is_digit H' && Nat.leb (length H') 1
      && is_digit n1 && is_digit n2
  | _, _ => false
  end.

(** Assigning to the member that [lookup_last] reads, as a [push] onto the
    array held by that member does; an object without the key is left as it
    is. *)
Fixpoint set_last (key : jsstring) (v' : json) (ms : list (jsstring * json))
  : list (jsstring * json) :=
  match ms with
  | [] => []
  | (k, v) :: ms' =>
      match lookup_last key ms' with
      | Some _ => (k, v) :: set_last key v' ms'
      | None => if jseqb k key then (k, v') :: ms' else (k, v) :: ms'
      end
  end.

(** What [handlePredictNext] does with its text: [setRawText] of the
    serialized document, or of the text with a line appended. *)
Inductive Update :=
| SetDocument (jsonContent : json)
| AppendLine (newLine : jsstring).

(** ** The reply of the model in [handleAnalyzeChat] *)

(** [s.replace(/p/g, '')] for a literal pattern [p] that is not empty: the
    matches are found from the left and do not overlap; [skip] counts the
    code units of the current match that are still to be dropped. *)
Fixpoint remove_from (p : jsstring) (skip : nat) (s : jsstring) : jsstring :=
  match s with
  | [] => []
  | c :: s' =>
      match skip with
      | S k => remove_from p k s'
      | O =>
          if starts_with p s then remove_from p (length p - 1) s'
          else c :: remove_from p 0 s'
      end
  end.

Definition remove_all (p s : jsstring) : jsstring := remove_from p 0 s.

(** [result.replace(/```json/g, '').replace(/```/g, '').trim()] *)
Definition analysis_json_string (result : jsstring) : jsstring :=
  trim (remove_all fence (remove_all (fence ++ str "json") result)).

(** The object stored when the reply cannot be parsed. *)
Definition analysis_fallback (result : jsstring) : json :=
  JObj [(str "summary", JStr result);
        (str "tone", JStr (str "Analytical"));
        (str "dynamic", JStr (str "Complex interaction detected."));
        (str "key_topics", JArr [])].

(** What [handleAnalyzeChat] stores for a reply that is not empty: the
    parsed reply, or an object that carries the reply as its summary. *)
Definition analysis_data (result : jsstring) : json :=
  match JSON_parse (analysis_json_string result) with
  | Normal data => data
  | Throw _ => analysis_fallback result
  end.

(** A host instance for evaluating [parseChat] on explicit inputs: a
    numeric literal is zero when it has no non-zero digit and prints as it
    is written, and a non-ASCII code unit is its own upper case.  The inputs
    evaluated below hold no number and no role that starts outside ASCII,
    so their results do not depend on this choice. *)
Definition plain_isZero (lit : jsstring) : bool :=
  forallb (fun c => negb (in_range 49 57 c)) lit.
Definition plain_toString (lit : jsstring) : jsstring := lit.
Definition plain_upper (c : N) : jsstring := [c].

(** Lower case for the same purpose: the ASCII letters, other code units
    unchanged. *)
Definition plain_lower (s : jsstring) : jsstring :=
  map (fun c => if in_range 65 90 c then c + 32 else c) s.

Section Host.

(** The parts of the host that depend on IEEE doubles or on the Unicode
    case tables are parameters: whether the value of a numeric literal is
    zero, the decimal text of that value, and the upper-case form of a
    single non-ASCII code unit. *)
Variable Number_isZero : jsstring -> bool.
Variable Number_toString : jsstring -> jsstring.
Variable toUpperCase_nonascii : N -> jsstring.

(** [ToString] on a parsed value.  An array joins its elements with commas,
    [null] elements giving the empty string; an object prints as
    [[object Object]] unless it has an own member [toString], which is not
    callable and leaves no way to convert the object. *)
Fixpoint ToString (v : json) : completion jsstring :=
  match v with
  | JNull => Normal (str "null")
  | JBool true => Normal (str "true")
  | JBool false => Normal (str "false")
  | JNum lit => Normal (Number_toString lit)
  | JStr s => Normal s
  | JArr elems =>
      parts <- sequence (map (fun e => match e with
                                       | JNull => Normal []
                                       | _ => ToString e
                                       end) elems) ;;
      Normal (join_with [44] parts)
  | JObj ms =>
      if has_key (str "toString") ms then Throw TypeError
      else Normal (str "[object Object]")
  end.

(** [fixMojibake]: [try { return decodeURIComponent(escape(text)); }
    catch (e) { return text; }].  [escape] first converts its argument to a
    string. *)
Definition fixMojibake (text : json) : json :=
  match (s <- ToString text ;; decodeURIComponent (escape s)) with
  | Normal r => JStr r
  | Throw _ => text
  end.

(** Truthiness of a value, [undefined] included. *)
Definition truthy (v : option json) : bool :=
  match v with
  | None => false
  | Some JNull => false
  | Some (JBool b) => b
  | Some (JNum lit) => negb (Number_isZero lit)
  | Some (JStr s) => match s with [] => false | _ :: _ => true end
  | Some (JArr _) => true
  | Some (JObj _) => true
  end.

(** [c.toUpperCase()] for a string [c] of one code unit. *)
Definition toUpperCase1 (c : N) : jsstring :=
  if c <? 128 then [ascii_upper c] else toUpperCase_nonascii c.

(** [role.charAt(0).toUpperCase() + role.slice(1)]: a [TypeError] when
    [role] is not a string, since it then has no method [charAt]. *)
Definition capitalize (role : option json) : completion jsstring :=
  match role with
  | Some (JStr []) => Normal []
  | Some (JStr (c :: rest)) => Normal (toUpperCase1 c ++ rest)
  | _ => Throw TypeError
  end.

(** The body of [jsonMessages.forEach], on the pair of [messages] and
    [participants]. *)
Definition json_step (st : list (Message json) * list jsstring) (msg : json)
  : completion (list (Message json) * list jsstring) :=
  role <- get_prop msg (str "role") ;;
  if truthy role then
    body <- get_prop msg (str "content") ;;
    if truthy body then
      sender <- capitalize role ;;
      Normal (fst st ++ [mkMessage [] [] sender
                           (fixMojibake (match body with Some v => v | None => JNull end))],
              Set_add sender (snd st))
    else Normal st
  else Normal st.

(** The [try] block of [parseChat]: [Normal (Some r)] when it returns [r],
    [Normal None] when control leaves the block normally, [Throw] when an
    exception reaches the [catch]. *)
Definition try_json (rawText : jsstring) : completion (option ParseResult) :=
  let trimmed := strip_trailing_fence (strip_fence (strip_json_fence (trim rawText))) in
  if starts_with [123] trimmed || starts_with [91] trimmed then
    parsed <- JSON_parse trimmed ;;
    jsonMessages <-
      match parsed with
      | JArr _ => Normal parsed
      | _ =>
          m <- get_prop parsed (str "messages") ;;
          Normal (if truthy m then match m with Some v => v | None => JArr [] end
                  else JArr [])
      end ;;
    match jsonMessages with
    | JArr (e :: es) =>
        st <- forEach json_step (e :: es) ([], []) ;;
        match fst st with
        | _ :: _ => Normal (Some (mkResult (fst st) (snd st)))
        | [] => Normal None
        end
    | _ => Normal None
    end
  else Normal None.

(** The [role] and [content] of an element that is not [null]. *)
Definition role_of (msg : json) : option json :=
  match msg with
  | JObj ms => lookup_last (str "role") ms
  | _ => None
  end.

Definition content_of (msg : json) : option json :=
  match msg with
  | JObj ms => lookup_last (str "content") ms
  | _ => None
  end.

(** An element that passes the test [msg.role && msg.content]. *)
Definition eligible (msg : json) : bool :=
  truthy (role_of msg) && truthy (content_of msg).

(** An element on which the loop body throws: [null], whose properties
    cannot be read, and an element that passes the test with a role that is
    not a string. *)
Definition aborts (msg : json) : bool :=
  match msg with
  | JNull => true
  | _ => eligible msg && negb (match role_of msg with
                               | Some (JStr _) => true
                               | _ => false
                               end)
  end.

Definition sender_of (msg : json) : jsstring :=
  match role_of msg with
  | Some (JStr (c :: rest)) => toUpperCase1 c ++ rest
  | _ => []
  end.

(** The message the loop body pushes for an eligible element. *)
Definition message_of (msg : json) : Message json :=
  mkMessage [] [] (sender_of msg)
    (fixMojibake (match content_of msg with Some v => v | None => JNull end)).

Definition lift_content (m : Message jsstring) : Message json :=
  mkMessage (date m) (time m) (sender m) (JStr (content m)).

(** [parseChat]: the result of the [try] block when it returns one,
    otherwise (also after any exception, which the [catch] swallows)
    line-based parsing. *)
Definition parseChat (rawText : jsstring) : completion ParseResult :=
  match try_json rawText with
  | Normal (Some r) => Normal r
  | _ =>
      r <- parse_lines rawText ;;
      Normal (mkResult (map lift_content (fst r)) (snd r))
  end.

(** ** The component: sides, processed messages, prediction

    The state of [ChadBot] that its handlers read: the names chosen for the
    two sides with their aliases, and the participants detected in the
    text. *)

Record Mapping := mkMapping {
  leftOriginal : jsstring;
  leftAlias : jsstring;
  rightOriginal : jsstring;
  rightAlias : jsstring
}.

Record ChatState := mkChat {
  detectedParticipants : list jsstring;
  mapping : Mapping
}.

(** [participants.includes(x)] *)
Definition includes (l : list jsstring) (x : jsstring) : bool :=
  existsb (jseqb x) l.

(** [a || b] on strings. *)
Definition or_else (a b : jsstring) : jsstring :=
  match a with
  | [] => b
  | _ :: _ => a
  end.

(** The "smart auto-assign" of the effect on [rawText]: when a side names
    no participant, the first participant goes right and the second left. *)
Definition auto_assign (participants : list jsstring) (mp : Mapping) : Mapping :=
  let leftIsValid := includes participants (leftOriginal mp) in
  let rightIsValid := includes participants (rightOriginal mp) in
  if (negb leftIsValid || negb rightIsValid) && Nat.ltb 0 (length participants) then
    match participants with
    | p0 :: p1 :: _ => mkMapping p1 p1 p0 p0
    | [p0] => mkMapping [] [] p0 p0
    | [] => mp
    end
  else mp.

(** The effect that runs when [rawText] changes. *)
Definition on_rawText (rawText : jsstring) (s : ChatState) : completion ChatState :=
  match rawText with
  | [] => Normal s
  | _ :: _ =>
      r <- parseChat rawText ;;
      Normal (mkChat (participants r) (auto_assign (participants r) (mapping s)))
  end.

(** [handleLeftSelect] and [handleRightSelect]. *)
Definition handleLeftSelect (val : jsstring) (s : ChatState) : ChatState :=
  let mp := mapping s in
  mkChat (detectedParticipants s)
    (mkMapping val
       (if match leftAlias mp with [] => true | _ :: _ => false end
           || includes (detectedParticipants s) (leftAlias mp)
        then val else leftAlias mp)
       (rightOriginal mp) (rightAlias mp)).

Definition handleRightSelect (val : jsstring) (s : ChatState) : ChatState :=
  let mp := mapping s in
  mkChat (detectedParticipants s)
    (mkMapping (leftOriginal mp) (leftAlias mp) val
       (if match rightAlias mp with [] => true | _ :: _ => false end
           || includes (detectedParticipants s) (rightAlias mp)
        then val else rightAlias mp)).

Inductive Side := Left | Right.

(** A message with its [side] and [displayName]. *)
Record Processed := mkProcessed {
  message : Message json;
  side : Side;
  displayName : jsstring
}.

(** The function mapped over the messages by [getProcessedMessages];
    [None] is [null], which [filter(Boolean)] removes. *)
Definition process (mp : Mapping) (msg : Message json) : option Processed :=
  if jseqb (sender msg) (leftOriginal mp) then
    Some (mkProcessed msg Left (or_else (leftAlias mp) (leftOriginal mp)))
  else if jseqb (sender msg) (rightOriginal mp) then
    Some (mkProcessed msg Right (or_else (rightAlias mp) (rightOriginal mp)))
  else None.

Fixpoint filter_map {A B} (f : A -> option B) (l : list A) : list B :=
  match l with
  | [] => []
  | a :: l' =>
      match f a with
      | Some b => b :: filter_map f l'
      | None => filter_map f l'
      end
  end.

Definition getProcessedMessages (rawText : jsstring) (mp : Mapping)
  : completion (list Processed) :=
  r <- parseChat rawText ;;
  Normal (filter_map (process mp) (messages r)).

(** [l.slice(-n)] *)
Definition slice_last {A} (n : nat) (l : list A) : list A :=
  skipn (length l - n) l.

(** [l[l.length - 1]]: [None] is [undefined]. *)
Definition last_item {A} (l : list A) : option A :=
  nth_error l (length l - 1).

(** The first lines of [handlePredictNext]: who speaks next, by original
    name and by alias.  Reading [sender] of an undefined last message is a
    [TypeError]. *)
Definition next_speaker (rawText : jsstring) (mp : Mapping)
  : completion (jsstring * jsstring) :=
  processed <- getProcessedMessages rawText mp ;;
  let msgs := slice_last 50 processed in
  match last_item msgs with
  | None => Throw TypeError
  | Some lastMsg =>
      if jseqb (sender (message lastMsg)) (leftOriginal mp)
      then Normal (rightOriginal mp, rightAlias mp)
      else Normal (leftOriginal mp, leftAlias mp)
  end.

(** What [getProcessedMessages] keeps of a message. *)
Definition on_a_side (mp : Mapping) (msg : Message json) : bool :=
  jseqb (sender msg) (leftOriginal mp) || jseqb (sender msg) (rightOriginal mp).

(** A processed message is on the left with the left name, or on the right
    with the right name and a sender that is not the left one. *)
Definition well_sided (mp : Mapping) (p : Processed) : Prop :=
  (side p = Left /\ sender (message p) = leftOriginal mp /\
   displayName p = or_else (leftAlias mp) (leftOriginal mp)) \/
  (side p = Right /\ sender (message p) = rightOriginal mp /\
   sender (message p) <> leftOriginal mp /\
   displayName p = or_else (rightAlias mp) (rightOriginal mp)).

(** ** The prediction written back into a document *)

Section Prediction.

(** [String.prototype.toLowerCase] depends on the Unicode case tables and is
    a parameter like the other parts of the host. *)
Variable toLowerCase : jsstring -> jsstring.

Definition newMsgObj (nextSpeakerOriginal prediction : jsstring) : json :=
  JObj [(str "role", JStr (toLowerCase nextSpeakerOriginal));
        (str "content", JStr (trim prediction))].

(** The [try] block of [handlePredictNext] with the test
    [isJson && jsonContent] that follows it: the parsed document, or [None]
    when the text is treated as lines. *)
Definition json_document (rawText : jsstring) : option json :=
  let cleanedRaw := unfenced rawText in
  if starts_with [123] cleanedRaw || starts_with [91] cleanedRaw then
    match JSON_parse cleanedRaw with
    | Normal jsonContent => if truthy (Some jsonContent) then Some jsonContent else None
    | Throw _ => None
    end
  else None.

(** [jsonContent.push(newMsgObj)] on an array and
    [jsonContent.messages.push(newMsgObj)] on an object whose [messages] is
    an array: the document after the push, [None] when there is nothing to
    push onto. *)
Definition push_message (jsonContent newMsg : json) : completion (option json) :=
  match jsonContent with
  | JArr es => Normal (Some (JArr (es ++ [newMsg])))
  | JObj ms =>
      match lookup_last (str "messages") ms with
      | Some (JArr es) =>
          Normal (Some (JObj (set_last (str "messages") (JArr (es ++ [newMsg])) ms)))
      | _ => Normal None
      end
  | JNull => Throw TypeError
  | _ => Normal None
  end.

(** The update of [rawText] at the end of [handlePredictNext], for a
    prediction that is not empty. *)
Definition predict_update (rawText dateStr : jsstring) (hours minutes : N)
    (nextSpeakerOriginal prediction : jsstring) : completion Update :=
  let newLine := predicted_line dateStr hours minutes nextSpeakerOriginal prediction in
  match json_document rawText with
  | Some jsonContent =>
      pushed <- push_message jsonContent (newMsgObj nextSpeakerOriginal prediction) ;;
      match pushed with
      | Some doc => Normal (SetDocument doc)
      | None => Normal (AppendLine newLine)
      end
  | None => Normal (AppendLine newLine)
  end.

(** What the [try] block of [parseChat] does with the document once it is
    parsed. *)
Definition read_document (parsed : json) : completion (option ParseResult) :=
  jsonMessages <-
    match parsed with
    | JArr _ => Normal parsed
    | _ =>
        m <- get_prop parsed (str "messages") ;;
        Normal (if truthy m then match m with Some v => v | None => JArr [] end
                else JArr [])
    end ;;
  match jsonMessages with
  | JArr (e :: es) =>
      st <- forEach json_step (e :: es) ([], []) ;;
      match fst st with
      | _ :: _ => Normal (Some (mkResult (fst st) (snd st)))
      | [] => Normal None
      end
  | _ => Normal None
  end.

(** The elements that [read_document] runs over. *)
Definition elements_of (doc : json) : option (list json) :=
  match doc with
  | JArr es => Some es
  | JObj ms =>
      match lookup_last (str "messages") ms with
      | Some (JArr es) => Some es
      | _ => None
      end
  | _ => None
  end.

(** A result with the message read from [newMsgObj] added: nothing is added
    when the lower-cased name or the trimmed prediction is empty. *)
Definition with_prediction (r : ParseResult) (nextSpeakerOriginal prediction : jsstring)
  : ParseResult :=
  match toLowerCase nextSpeakerOriginal, trim prediction with
  | c :: rest, _ :: _ =>
      mkResult (messages r ++
                  [mkMessage [] [] (toUpperCase1 c ++ rest)
                     (fixMojibake (JStr (trim prediction)))])
               (Set_add (toUpperCase1 c ++ rest) (participants r))
  | _, _ => r
  end.

End Prediction.

(** ** Selections *)

(** A choice in one of the two select boxes, whose options are the detected
    participants. *)
Inductive Selection :=
| SelectLeft (val : jsstring)
| SelectRight (val : jsstring).

Definition select (s : ChatState) (ev : Selection) : ChatState :=
  match ev with
  | SelectLeft val => handleLeftSelect val s
  | SelectRight val => handleRightSelect val s
  end.

Definition selects_from (options : list jsstring) (ev : Selection) : Prop :=
  match ev with
  | SelectLeft val => In val options
  | SelectRight val => In val options
  end.

Definition is_left (ev : Selection) : bool :=
  match ev with
  | SelectLeft _ => true
  | SelectRight _ => false
  end.

(** An alias typed by the user: not empty and not the name of a detected
    participant. *)
Definition custom (detected : list jsstring) (alias : jsstring) : bool :=
  negb (match alias with [] => true | _ :: _ => false end || includes detected alias).

(** * Properties *)

(** ** Strings and sets *)

Lemma jseqb_eq (a b : jsstring) : jseqb a b = true <-> a = b.
Proof.
  revert b; induction a as [|x a IH]; intros [|y b]; simpl; split;
    try congruence; try reflexivity.
  - intros H. apply andb_true_iff in H as [H1 H2].
    apply N.eqb_eq in H1. apply IH in H2. congruence.
  - intros H. injection H as -> ->. rewrite N.eqb_refl. simpl.
    apply IH. reflexivity.
Qed.

Lemma jseqb_refl (a : jsstring) : jseqb a a = true.
Proof. apply jseqb_eq. reflexivity. Qed.

Lemma jseqb_neq (a b : jsstring) : jseqb a b = false <-> a <> b.
Proof.
  split.
  - intros H E. apply jseqb_eq in E. congruence.
  - intros H. destruct (jseqb a b) eqn:E; [|reflexivity].
    apply jseqb_eq in E. contradiction.
Qed.

(** ** The matcher *)

Lemma get_set_cap_same (i : nat) (v : jsstring) (caps : captures) :
  get_cap i (set_cap i v caps) = Some v.
Proof.
  unfold get_cap. revert caps; induction i as [|i IH]; intros [|c caps]; simpl; auto.
Qed.

Lemma get_set_cap_other (i j : nat) (v : jsstring) (caps : captures) :
  i <> j -> get_cap j (set_cap i v caps) = get_cap j caps.
Proof.
  unfold get_cap. revert j caps; induction i as [|i IH]; intros [|j] [|c caps] H;
    simpl; try congruence; auto.
  - destruct j; reflexivity.
  - rewrite IH by congruence. destruct j; reflexivity.
Qed.

Lemma get_set_cap_defined (i j : nat) (v : jsstring) (caps : captures) :
  get_cap j caps <> None -> get_cap j (set_cap i v caps) <> None.
Proof.
  intros H. destruct (Nat.eq_dec i j) as [->|N].
  - rewrite get_set_cap_same. discriminate.
  - rewrite get_set_cap_other by assumption. assumption.
Qed.

(** Whatever [rep] returns was returned by its continuation after some
    admissible number of code units of the class. *)
Lemma rep_inv {R} (p : N -> bool) (s : jsstring) :
  forall (lo : nat) (hi : option nat) (k : jsstring -> option R) (r : R),
    rep p lo hi s k = Some r ->
    exists n : nat,
      (lo <= n)%nat /\ (forall h, hi = Some h -> (n <= h)%nat) /\
      (n <= length s)%nat /\ forallb p (firstn n s) = true /\
      k (skipn n s) = Some r.
Proof.
  induction s as [|c s IH]; intros lo hi k r H; simpl in H.
  - destruct lo; [|discriminate]. exists O. simpl. repeat split; auto; lia.
  - assert (Hstop : match lo with O => k (c :: s) | S _ => None end = Some r ->
                    exists n : nat,
                      (lo <= n)%nat /\ (forall h, hi = Some h -> (n <= h)%nat) /\
                      (n <= length (c :: s))%nat /\
                      forallb p (firstn n (c :: s)) = true /\
                      k (skipn n (c :: s)) = Some r).
    { intros H0. destruct lo; [|discriminate]. exists O. simpl.
      repeat split; auto; lia. }
    destruct (p c && room hi) eqn:E; [|auto].
    destruct (rep p (pred lo) (dec_hi hi) s k) as [r'|] eqn:E'; [|auto].
    injection H as ->. apply andb_true_iff in E as [Ep Er].
    apply IH in E' as (n & Hlo & Hhi & Hlen & Hp & Hk).
    exists (S n). simpl. rewrite Ep, Hp. repeat split; auto; try lia.
    intros h ->. destruct h; [discriminate|].
    specialize (Hhi h eq_refl). lia.
Qed.

Lemma rmatch_sets (r : regex) :
  forall s caps k res,
    rmatch r s caps k = Some res ->
    exists s' caps',
      k s' caps' = Some res /\
      (forall i, sets r i = true \/ get_cap i caps <> None -> get_cap i caps' <> None).
Proof.
  induction r as [|p|r1 IH1 r2 IH2|lo hi p|r1 IH1|j r1 IH1]; intros s caps k res H;
    simpl in H.
  - exists s, caps. split; [assumption|]. intros i [E|E]; [discriminate|assumption].
  - destruct s as [|c s]; [discriminate|]. destruct (p c); [|discriminate].
    exists s, caps. split; [assumption|]. intros i [E|E]; [discriminate|assumption].
  - apply IH1 in H as (s1 & caps1 & H1 & P1).
    apply IH2 in H1 as (s2 & caps2 & H2 & P2).
    exists s2, caps2. split; [assumption|]. intros i [E|E].
    + simpl in E. apply orb_true_iff in E as [E|E].
      * apply P2. right. apply P1. left. assumption.
      * apply P2. left. assumption.
    + apply P2. right. apply P1. right. assumption.
  - apply rep_inv in H as (n & _ & _ & _ & _ & Hk).
    exists (skipn n s), caps. split; [assumption|].
    intros i [E|E]; [discriminate|assumption].
  - destruct (rmatch r1 s caps k) as [x|] eqn:E.
    + injection H as ->. apply IH1 in E as (s1 & caps1 & H1 & P1).
      exists s1, caps1. split; [assumption|].
      intros i [E|E]; [discriminate|]. apply P1. right. assumption.
    + exists s, caps. split; [assumption|].
      intros i [E'|E']; [discriminate|assumption].
  - apply IH1 in H as (s1 & caps1 & H1 & P1).
    exists s1, (set_cap j (consumed s s1) caps1). split; [assumption|].
    intros i [E|E].
    + simpl in E. apply orb_true_iff in E as [E|E].
      * apply Nat.eqb_eq in E. subst. rewrite get_set_cap_same. discriminate.
      * apply get_set_cap_defined. apply P1. left. assumption.
    + apply get_set_cap_defined. apply P1. right. assumption.
Qed.

Lemma regex_match_sets (r : regex) (line : jsstring) (m : captures) (i : nat) :
  regex_match r line = Some m -> sets r i = true -> get_cap i m <> None.
Proof.
  unfold regex_match. intros H E.
  apply rmatch_sets in H as (s' & caps' & H & P).
  assert (Hm : set_cap 0 (consumed line s') caps' = m) by congruence.
  rewrite <- Hm. apply get_set_cap_defined. apply P. left. assumption.
Qed.

(** ** The line loop never throws *)

Lemma extract_fields (line : jsstring) (ex : extracted) :
  extract patterns line = Some ex ->
  x_sender ex <> None /\ x_content ex <> None.
Proof.
  unfold patterns, extract.
  destruct (regex_match (regex_of android_iso) line) as [m|] eqn:E1.
  { intros H; injection H as <-. simpl.
    split; eapply regex_match_sets; try exact E1; reflexivity. }
  destruct (regex_match (regex_of ios_brackets) line) as [m|] eqn:E2.
  { intros H; injection H as <-. simpl.
    split; eapply regex_match_sets; try exact E2; reflexivity. }
  destruct (regex_match (regex_of android_short) line) as [m|] eqn:E3.
  { intros H; injection H as <-. simpl.
    split; eapply regex_match_sets; try exact E3; reflexivity. }
  destruct (regex_match (regex_of generic) line) as [m|] eqn:E4.
  { intros H; injection H as <-. simpl.
    split; eapply regex_match_sets; try exact E4; reflexivity. }
  discriminate.
Qed.

Lemma line_step_no_header (st : line_state) (line : jsstring) :
  cleanText (trim line) <> [] ->
  extract patterns (cleanText (trim line)) = None ->
  line_step st line = Normal (continue_or_drop st (cleanText (trim line))).
Proof.
  intros Hne Hex. unfold line_step, continue_or_drop.
  destruct (cleanText (trim line)) as [|c l] eqn:E; [congruence|].
  rewrite Hex. destruct (st_current st); reflexivity.
Qed.

Lemma line_step_normal (st : line_state) (line : jsstring) :
  exists st', line_step st line = Normal st'.
Proof.
  unfold line_step.
  destruct (cleanText (trim line)) as [|c l]; [eauto|].
  destruct (extract patterns (c :: l)) as [ex|] eqn:E.
  - apply extract_fields in E as [Hs Hc].
    destruct (x_sender ex); [|congruence].
    destruct (x_content ex); [|congruence].
    simpl. eauto.
  - destruct (st_current st); eauto.
Qed.

Lemma forEach_normal {S A} (f : S -> A -> completion S) :
  (forall st a, exists st', f st a = Normal st') ->
  forall l st, exists st', forEach f l st = Normal st'.
Proof.
  intros Hf. induction l as [|a l IH]; intros st; simpl; [eauto|].
  destruct (Hf st a) as [st1 ->]. simpl. apply IH.
Qed.

Lemma parse_lines_normal (rawText : jsstring) :
  exists r, parse_lines rawText = Normal r.
Proof.
  unfold parse_lines.
  destruct (forEach_normal line_step line_step_normal (split 10 rawText)
              (mkState [] [] None)) as [st ->].
  simpl. eauto.
Qed.

Lemma parseChat_normal (rawText : jsstring) :
  exists r, parseChat rawText = Normal r.
Proof.
  unfold parseChat.
  destruct (parse_lines_normal rawText) as [r Hr].
  destruct (try_json rawText) as [[res|]|e]; rewrite ?Hr; simpl; eauto.
Qed.

(** C1. [parseChat] returns a result for every input and never raises.
    Every line is handled without an exception, and a line that matches no
    header pattern is dropped when no message is accumulating and appended
    to the accumulating message otherwise.  On the input [{not valid json]
    the structured-data path ends in a [SyntaxError], which is caught, and
    line parsing yields no message and no participant. *)
Theorem parseChat_never_raises :
  (forall rawText, exists r, parseChat rawText = Normal r) /\
  (forall st line, exists st', line_step st line = Normal st') /\
  (forall st line,
     cleanText (trim line) <> [] ->
     extract patterns (cleanText (trim line)) = None ->
     line_step st line = Normal (continue_or_drop st (cleanText (trim line)))) /\
  try_json (str "{not valid json") = Throw SyntaxError /\
  parse_lines (str "{not valid json") = Normal ([], []) /\
  parseChat (str "{not valid json") = Normal (mkResult [] []).
Proof.
  split; [exact parseChat_normal|].
  split; [exact line_step_normal|].
  split; [exact line_step_no_header|].
  repeat split; vm_compute; reflexivity.
Qed.

(** ** Pattern order *)

Lemma extract_first (p : pattern) (ps : list pattern) (line : jsstring) (m : captures) :
  regex_match (regex_of p) line = Some m ->
  extract (p :: ps) line = Some (parse p m).
Proof. intros H. simpl. rewrite H. reflexivity. Qed.

Lemma extract_app (ps qs : list pattern) (line : jsstring) :
  extract (ps ++ qs) line =
  match extract ps line with
  | Some ex => Some ex
  | None => extract qs line
  end.
Proof.
  induction ps as [|p ps IH]; simpl; [reflexivity|].
  destruct (regex_match (regex_of p) line); [reflexivity|exact IH].
Qed.

Lemma extract_first_match (before after : list pattern) (p : pattern)
    (line : jsstring) (m : captures) :
  extract before line = None ->
  regex_match (regex_of p) line = Some m ->
  extract (before ++ p :: after) line = Some (parse p m).
Proof.
  intros Hb Hp. rewrite extract_app, Hb. apply extract_first. exact Hp.
Qed.

(** C2. The patterns are tried in their fixed order and the first match
    wins: whenever [android_iso] matches a line, its extraction is used,
    whatever the later patterns (the generic one included) would do with the
    line; in general the extraction is that of the first pattern that
    matches, whatever patterns follow it.  The line
    [2025-06-12, 11:20 a.m. - Sam: hello] yields exactly one message, with
    sender [Sam], date [2025-06-12], time [11:20 a.m.] and content
    [hello]. *)
Theorem android_iso_precedence :
  (forall line m,
     regex_match (regex_of android_iso) line = Some m ->
     extract patterns line = Some (parse android_iso m)) /\
  (forall before p after line m,
     extract before line = None ->
     regex_match (regex_of p) line = Some m ->
     extract (before ++ p :: after) line = Some (parse p m)) /\
  parseChat (str "2025-06-12, 11:20 a.m. - Sam: hello") =
    Normal (mkResult
              [mkMessage (str "2025-06-12") (str "11:20 a.m.") (str "Sam")
                         (JStr (str "hello"))]
              [str "Sam"]).
Proof.
  split; [|split].
  - intros line m H. apply extract_first. exact H.
  - intros before p after line m. apply extract_first_match.
  - vm_compute. reflexivity.
Qed.

(** C3. On the JSON array of a [user] and an [assistant] element the [try]
    block itself returns the result, so line parsing does not run: two
    messages with senders [User] and [Assistant], empty date and time, and
    participants [User], [Assistant] in that order. *)
Theorem json_fast_path_example :
  let input := jstr "[{'role':'user','content':'hi'},{'role':'assistant','content':'hello'}]" in
  let result := mkResult [mkMessage [] [] (str "User") (JStr (str "hi"));
                          mkMessage [] [] (str "Assistant") (JStr (str "hello"))]
                         [str "User"; str "Assistant"] in
  try_json input = Normal (Some result) /\ parseChat input = Normal result.
Proof. split; vm_compute; reflexivity. Qed.

(** What [line_step] does with a header line. *)
Lemma line_step_header (st : line_state) (line : jsstring) (ex : extracted) :
  extract patterns (cleanText (trim line)) = Some ex ->
  exists sd bd,
    x_sender ex = Some sd /\ x_content ex = Some bd /\
    line_step st line =
      Normal (mkState (push_current st) (Set_add (trim sd) (st_participants st))
                (Some (mkMessage (or_default (x_date ex) (str "Unknown"))
                                 (or_default (x_time ex) []) (trim sd) (trim bd)))).
Proof.
  intros Hex. unfold line_step.
  destruct (cleanText (trim line)) as [|c l] eqn:E; [discriminate Hex|].
  rewrite Hex. apply extract_fields in Hex as [Hs Hc].
  destruct (x_sender ex) as [sd|]; [|congruence].
  destruct (x_content ex) as [bd|]; [|congruence].
  exists sd, bd. repeat split.
Qed.

(** C5. After a header line a message is accumulating, and a non-blank
    line that matches no header pattern, met while a message is
    accumulating, is appended to that message's content after a newline.
    The input of the two lines [Alex: first line] and [second line] yields
    exactly one message, with sender [Alex] and both lines as content. *)
Theorem continuation_merge :
  (forall st line ex,
     extract patterns (cleanText (trim line)) = Some ex ->
     exists st' m, line_step st line = Normal st' /\ st_current st' = Some m) /\
  (forall st line m,
     st_current st = Some m ->
     cleanText (trim line) <> [] ->
     extract patterns (cleanText (trim line)) = None ->
     line_step st line =
       Normal (mkState (st_messages st) (st_participants st)
                 (Some (mkMessage (date m) (time m) (sender m)
                          (content m ++ 10 :: cleanText (trim line)))))) /\
  parseChat (str "Alex: first line" ++ 10 :: str "second line") =
    Normal (mkResult
              [mkMessage (str "Unknown") [] (str "Alex")
                         (JStr (str "first line" ++ 10 :: str "second line"))]
              [str "Alex"]).
Proof.
  split; [|split].
  - intros st line ex Hex.
    destruct (line_step_header st line ex Hex) as (sd & bd & _ & _ & H).
    eexists. eexists. split; [exact H|reflexivity].
  - intros st line m Hm Hne Hex.
    rewrite line_step_no_header by assumption.
    unfold continue_or_drop. rewrite Hm. reflexivity.
  - vm_compute. reflexivity.
Qed.

(** ** Participants *)

Lemma existsb_filter_other (x a : jsstring) (l : list jsstring) :
  x <> a ->
  existsb (jseqb x) (filter (fun y => negb (jseqb a y)) l) = existsb (jseqb x) l.
Proof.
  intros Hxa. induction l as [|y l IH]; simpl; [reflexivity|].
  destruct (jseqb a y) eqn:Eay; simpl.
  - apply jseqb_eq in Eay. subst y.
    assert (jseqb x a = false) as -> by (apply jseqb_neq; assumption).
    simpl. exact IH.
  - rewrite IH. reflexivity.
Qed.

Lemma filter_Set_add (x a : jsstring) (l : list jsstring) :
  filter (fun y => negb (jseqb a y)) (Set_add x l) =
  if jseqb a x then filter (fun y => negb (jseqb a y)) l
  else Set_add x (filter (fun y => negb (jseqb a y)) l).
Proof.
  unfold Set_add. destruct (jseqb a x) eqn:Eax.
  - destruct (existsb (jseqb x) l); [reflexivity|].
    rewrite filter_app. simpl. rewrite Eax. simpl. apply app_nil_r.
  - assert (x <> a) by (apply jseqb_neq in Eax; congruence).
    rewrite existsb_filter_other by assumption.
    destruct (existsb (jseqb x) l); [reflexivity|].
    rewrite filter_app. simpl. rewrite Eax. reflexivity.
Qed.

(** Adding to the set what was just appended to the list keeps the set
    equal to the first-seen elements of the list. *)
Lemma first_seen_snoc (l : list jsstring) (x : jsstring) :
  first_seen (l ++ [x]) = Set_add x (first_seen l).
Proof.
  induction l as [|a l IH]; simpl; [reflexivity|].
  rewrite IH, filter_Set_add. unfold Set_add at 2. simpl.
  destruct (jseqb a x) eqn:Eax.
  - apply jseqb_eq in Eax. subst x. rewrite jseqb_refl. reflexivity.
  - assert (Hxa : jseqb x a = false).
    { apply jseqb_neq. apply jseqb_neq in Eax. congruence. }
    rewrite Hxa. simpl. unfold Set_add.
    destruct (existsb (jseqb x) (filter (fun y => negb (jseqb a y)) (first_seen l)));
      reflexivity.
Qed.

Lemma first_seen_NoDup (l : list jsstring) : NoDup (first_seen l).
Proof.
  induction l as [|a l IH]; simpl; constructor.
  - intros Hin. apply filter_In in Hin as [_ Hin].
    rewrite jseqb_refl in Hin. discriminate.
  - apply NoDup_filter. exact IH.
Qed.

Lemma forEach_invariant {S A} (f : S -> A -> completion S) (I : S -> Prop) :
  (forall st a st', I st -> f st a = Normal st' -> I st') ->
  forall l st st', I st -> forEach f l st = Normal st' -> I st'.
Proof.
  intros Hf. induction l as [|a l IH]; intros st st' Hi H; simpl in H.
  - injection H as <-. exact Hi.
  - destruct (f st a) as [st1|e] eqn:E; simpl in H; [|discriminate].
    eapply IH; [|exact H]. eapply Hf; eassumption.
Qed.

Definition line_participants_ok (st : line_state) : Prop :=
  st_participants st = first_seen (map sender (push_current st)).

Lemma line_step_participants (st : line_state) (line : jsstring) (st' : line_state) :
  line_participants_ok st -> line_step st line = Normal st' ->
  line_participants_ok st'.
Proof.
  unfold line_participants_ok, line_step. intros Hi H.
  destruct (cleanText (trim line)) as [|c l]; [injection H as <-; exact Hi|].
  destruct (extract patterns (c :: l)) as [ex|].
  - destruct (trim_method (x_sender ex)) as [sd|]; simpl in H; [|discriminate].
    destruct (trim_method (x_content ex)) as [bd|]; simpl in H; [|discriminate].
    injection H as <-.
    change (Set_add sd (st_participants st) =
            first_seen (map sender (push_current st ++ [mkMessage
              (or_default (x_date ex) (str "Unknown"))
              (or_default (x_time ex) []) sd bd]))).
    rewrite map_app. simpl map. rewrite first_seen_snoc, <- Hi. reflexivity.
  - destruct (st_current st) as [m|] eqn:Em.
    + injection H as <-. revert Hi. unfold push_current. rewrite Em. simpl.
      rewrite ?map_app. simpl. auto.
    + injection H as <-. exact Hi.
Qed.

Lemma parse_lines_participants (rawText : jsstring) msgs ps :
  parse_lines rawText = Normal (msgs, ps) ->
  ps = first_seen (map sender msgs).
Proof.
  unfold parse_lines. intros H.
  destruct (forEach line_step (split 10 rawText) (mkState [] [] None)) as [st|e] eqn:E;
    simpl in H; [|discriminate].
  injection H as <- <-.
  refine (forEach_invariant line_step line_participants_ok line_step_participants
            _ _ _ _ E).
  reflexivity.
Qed.

Lemma json_step_participants st msg st' :
  snd st = first_seen (map sender (fst st)) ->
  json_step st msg = Normal st' ->
  snd st' = first_seen (map sender (fst st')).
Proof.
  unfold json_step. intros Hi H.
  destruct (get_prop msg (str "role")) as [role|]; simpl in H; [|discriminate].
  destruct (truthy role); [|injection H as <-; exact Hi].
  destruct (get_prop msg (str "content")) as [body|]; simpl in H; [|discriminate].
  destruct (truthy body); [|injection H as <-; exact Hi].
  destruct (capitalize role) as [sd|]; simpl in H; [|discriminate].
  injection H as <-. simpl. rewrite map_app. simpl.
  rewrite first_seen_snoc, <- Hi. reflexivity.
Qed.

Lemma try_json_participants (rawText : jsstring) (r : ParseResult) :
  try_json rawText = Normal (Some r) ->
  participants r = first_seen (map sender (messages r)).
Proof.
  unfold try_json.
  destruct (_ || _); [|discriminate].
  destruct (JSON_parse _) as [parsed|]; cbn [bind]; [|discriminate].
  match goal with |- context [bind ?c _] => destruct c as [jm|] end;
    cbn [bind]; [|discriminate].
  destruct jm as [| | | |[|e es]|]; try discriminate.
  destruct (forEach json_step (e :: es) ([], [])) as [st|] eqn:E;
    cbn [bind]; [|discriminate].
  destruct (fst st) eqn:Ef; [discriminate|].
  intros H. injection H as H. subst r. cbn [participants messages]. rewrite <- Ef.
  refine (forEach_invariant json_step
            (fun st => snd st = first_seen (map sender (fst st)))
            json_step_participants _ _ _ _ E).
  reflexivity.
Qed.

Lemma map_sender_lift (msgs : list (Message jsstring)) :
  map sender (map lift_content msgs) = map sender msgs.
Proof. rewrite map_map. reflexivity. Qed.

Lemma parseChat_participants (rawText : jsstring) (r : ParseResult) :
  parseChat rawText = Normal r ->
  participants r = first_seen (map sender (messages r)).
Proof.
  unfold parseChat. intros H.
  assert (Hl : r0 <- parse_lines rawText ;;
               Normal (mkResult (map lift_content (fst r0)) (snd r0)) = Normal r ->
               participants r = first_seen (map sender (messages r))).
  { destruct (parse_lines rawText) as [[msgs ps]|] eqn:E; simpl; [|discriminate].
    intros H0. injection H0 as <-. simpl. rewrite map_sender_lift.
    eapply parse_lines_participants. exact E. }
  destruct (try_json rawText) as [[res|]|e] eqn:E; auto.
  injection H as <-. apply try_json_participants with rawText. exact E.
Qed.

Lemma first_seen_abac (a b c : jsstring) :
  a <> b -> a <> c -> b <> c -> first_seen [a; b; a; c] = [a; b; c].
Proof.
  intros Hab Hac Hbc. simpl.
  assert (jseqb a b = false) as Eab by (apply jseqb_neq; assumption).
  assert (jseqb a c = false) as Eac by (apply jseqb_neq; assumption).
  assert (jseqb b c = false) as Ebc by (apply jseqb_neq; assumption).
  assert (jseqb b a = false) as Eba by (apply jseqb_neq; congruence).
  repeat (first [rewrite Eab | rewrite Eac | rewrite Ebc | rewrite Eba
                | rewrite jseqb_refl]; simpl).
  reflexivity.
Qed.

(** C6. For every input the participants are exactly the distinct senders
    of the messages, without duplicates, in the order in which they are
    first seen.  Whenever the messages carry the senders [A], [B], [A],
    [C] in that order, the participants are [A], [B], [C]; an input of
    four such header lines is an instance. *)
Theorem participants_first_seen :
  (forall rawText,
     exists r, parseChat rawText = Normal r /\
               participants r = first_seen (map sender (messages r)) /\
               NoDup (participants r)) /\
  (forall rawText r a b c,
     parseChat rawText = Normal r ->
     map sender (messages r) = [a; b; a; c] ->
     a <> b -> a <> c -> b <> c ->
     participants r = [a; b; c]) /\
  (exists r,
     parseChat (str "A: one" ++ 10 :: str "B: two" ++ 10 :: str "A: three"
                  ++ 10 :: str "C: four") = Normal r /\
     map sender (messages r) = [str "A"; str "B"; str "A"; str "C"] /\
     participants r = [str "A"; str "B"; str "C"]).
Proof.
  split; [|split].
  - intros rawText. destruct (parseChat_normal rawText) as [r Hr].
    exists r. split; [exact Hr|].
    pose proof (parseChat_participants _ _ Hr) as Hp.
    split; [exact Hp|]. rewrite Hp. apply first_seen_NoDup.
  - intros rawText r a b c Hr Hs Hab Hac Hbc.
    rewrite (parseChat_participants _ _ Hr), Hs.
    apply first_seen_abac; assumption.
  - eexists. split; [vm_compute; reflexivity|]. split; reflexivity.
Qed.

(** ** Trimmed lines *)

Lemma drop_ws_length (s : jsstring) : (length (drop_ws s) <= length s)%nat.
Proof.
  induction s as [|c s IH]; simpl; [lia|]. destruct (is_ws c); simpl; lia.
Qed.

Lemma drop_ws_idem (s : jsstring) : drop_ws (drop_ws s) = drop_ws s.
Proof.
  induction s as [|c s IH]; simpl; [reflexivity|].
  destruct (is_ws c) eqn:E; [exact IH|]. simpl. rewrite E. reflexivity.
Qed.

Lemma is_ws_cleaned (c : N) :
  is_ws (if (if c =? 8239 then 32 else c) =? 160 then 32
         else (if c =? 8239 then 32 else c)) = is_ws c.
Proof.
  destruct (c =? 8239) eqn:E1.
  - apply N.eqb_eq in E1. subst. reflexivity.
  - destruct (c =? 160) eqn:E2; [|reflexivity].
    apply N.eqb_eq in E2. subst. reflexivity.
Qed.

Lemma drop_ws_cleanText (s : jsstring) :
  drop_ws (cleanText s) = cleanText (drop_ws s).
Proof.
  unfold cleanText, replace_all. rewrite !map_map.
  induction s as [|c s IH]; simpl; [reflexivity|].
  rewrite is_ws_cleaned. destruct (is_ws c); [exact IH|]. reflexivity.
Qed.

Lemma cleaned_no_trailing_ws (line : jsstring) :
  no_trailing_ws (cleanText (trim line)).
Proof.
  unfold no_trailing_ws.
  assert (E : rev (cleanText (trim line)) = cleanText (rev (trim line))).
  { unfold cleanText, replace_all. rewrite !map_rev. reflexivity. }
  rewrite E. unfold trim. rewrite rev_involutive, drop_ws_cleanText, drop_ws_idem.
  reflexivity.
Qed.

Lemma no_trailing_ws_last (s : jsstring) (c : N) :
  no_trailing_ws (s ++ [c]) -> is_ws c = false.
Proof.
  unfold no_trailing_ws. rewrite rev_app_distr. simpl.
  destruct (is_ws c); [|reflexivity]. intros H.
  pose proof (drop_ws_length (rev s)) as L. rewrite H in L. simpl in L. lia.
Qed.

Lemma trim_nonempty (c : N) (s : jsstring) :
  is_ws c = false -> trim (c :: s) <> [].
Proof.
  intros Hc. unfold trim. simpl drop_ws at 2. rewrite Hc.
  intros H. apply (f_equal (@rev N)) in H. rewrite rev_involutive in H.
  simpl in H.
  assert (G : forall l, drop_ws (l ++ [c]) <> []).
  { induction l as [|x l IH]; simpl.
    - rewrite Hc. discriminate.
    - destruct (is_ws x); [exact IH|discriminate]. }
  exact (G _ H).
Qed.

(** ** Greedy repetition *)

Lemma span_spec (p : N -> bool) (s : jsstring) :
  forall a b, span p s = (a, b) ->
    s = a ++ b /\ forallb p a = true /\
    match b with c :: _ => p c = false | [] => True end.
Proof.
  induction s as [|c s IH]; simpl; intros a b H.
  - injection H as <- <-. auto.
  - destruct (p c) eqn:E.
    + destruct (span p s) as [a' b']. injection H as <- <-.
      destruct (IH a' b' eq_refl) as (-> & Ha & Hb).
      simpl. rewrite E. auto.
    + injection H as <- <-. simpl. auto.
Qed.

(** With no upper bound, the continuation is first tried after the longest
    run of the class; when it succeeds there, that is the result. *)
Lemma rep_longest {R} (p : N -> bool) (s : jsstring) :
  forall (lo : nat) (k : jsstring -> option R) (r : R),
    (lo <= length (fst (span p s)))%nat ->
    k (snd (span p s)) = Some r ->
    rep p lo None s k = Some r.
Proof.
  induction s as [|c s IH]; intros lo k r Hlo Hk; simpl in *.
  - destruct lo; [exact Hk|lia].
  - destruct (p c) eqn:E; simpl.
    + destruct (span p s) as [a b] eqn:Es. simpl in *.
      rewrite (IH (pred lo) k r); [reflexivity|lia|exact Hk].
    + simpl in *. destruct lo; [exact Hk|lia].
Qed.

Lemma consumed_app (a b : jsstring) : consumed (a ++ b) b = a.
Proof.
  unfold consumed. rewrite length_app.
  replace (length a + length b - length b)%nat with (length a) by lia.
  rewrite firstn_app, firstn_all, Nat.sub_diag. simpl. apply app_nil_r.
Qed.

Lemma consumed_skipn (n : nat) (s : jsstring) :
  (n <= length s)%nat -> consumed s (skipn n s) = firstn n s.
Proof.
  intros H. rewrite <- (firstn_skipn n s) at 1. apply consumed_app.
Qed.

(** ** The generic pattern *)

Lemma Some_inj {A} (a b : A) : Some a = Some b -> a = b.
Proof. congruence. Qed.

Lemma generic_match_inv (s : jsstring) (m : captures) :
  regex_match re_generic s = Some m ->
  exists c pre r1,
    s = c :: pre ++ 58 :: r1 /\ (is_ws c || (c =? 58)) = false /\
    forallb not_colon pre = true /\ (length pre <= 30)%nat /\
    generic_tail s (c :: pre) r1 = Some m.
Proof.
  unfold regex_match, re_generic, between, plus. cbn [cat rmatch].
  destruct s as [|c s0]; [discriminate|].
  destruct (negb (is_ws c || (c =? 58))) eqn:Ec; [|discriminate].
  intros H. apply rep_inv in H as (n & _ & Hhi & Hlen & Hp & Hk).
  assert (Ecs : consumed (c :: s0) (skipn n s0) = c :: firstn n s0).
  { change (skipn n s0) with (skipn (S n) (c :: s0)).
    rewrite consumed_skipn by (simpl; lia). reflexivity. }
  rewrite Ecs in Hk.
  destruct (skipn n s0) as [|x r1] eqn:Es; [discriminate|].
  unfold lit in Hk. destruct (x =? 58) eqn:Ex; [|discriminate].
  apply N.eqb_eq in Ex. subst x.
  exists c, (firstn n s0), r1. repeat split.
  - rewrite <- Es, firstn_skipn. reflexivity.
  - apply negb_true_iff in Ec. exact Ec.
  - exact Hp.
  - rewrite length_firstn. specialize (Hhi _ eq_refl). lia.
  - exact Hk.
Qed.

Lemma dot_of_nonws (c : N) : is_ws c = false -> dot c = true.
Proof.
  intros H. unfold dot. destruct (is_lt c) eqn:E; [|reflexivity].
  unfold is_lt in E. repeat (apply orb_true_iff in E as [E|E]);
    apply N.eqb_eq in E; subst c; discriminate H.
Qed.

(** On a line without trailing white space, group 2 of the generic pattern
    starts with a code unit that is not white space. *)
Lemma generic_content_starts (s : jsstring) (m : captures) :
  no_trailing_ws s ->
  regex_match re_generic s = Some m ->
  exists c2 d, get_cap 2 m = Some (c2 :: d) /\ is_ws c2 = false.
Proof.
  intros Ht H.
  apply generic_match_inv in H as (c & pre & r1 & Hs & _ & _ & _ & H).
  unfold generic_tail in H.
  destruct r1 as [|x r1']; [discriminate|].
  destruct (is_ws x) eqn:Ex; [|simpl in H; rewrite Ex in H; discriminate].
  destruct (span is_ws (x :: r1')) as [w r2] eqn:Esp.
  pose proof (span_spec _ _ _ _ Esp) as (Hr1 & Hw & Hr2).
  assert (Hwne : w <> []).
  { simpl in Esp. rewrite Ex in Esp. destruct (span is_ws r1').
    injection Esp as <- _. discriminate. }
  destruct r2 as [|c2 t2].
  { exfalso. destruct (exists_last Hwne) as (w' & z & Ew).
    rewrite app_nil_r in Hr1. rewrite Hr1, Ew in Hs.
    replace (c :: pre ++ 58 :: w' ++ [z]) with ((c :: pre ++ 58 :: w') ++ [z]) in Hs
      by (simpl; rewrite <- app_assoc; reflexivity).
    rewrite Hs in Ht. apply no_trailing_ws_last in Ht.
    rewrite Ew, forallb_app in Hw. simpl in Hw. rewrite Ht in Hw.
    rewrite andb_false_r in Hw. discriminate. }
  pose proof (dot_of_nonws _ Hr2) as Hdot.
  destruct (span dot (c2 :: t2)) as [d r3] eqn:Ed.
  pose proof (span_spec _ _ _ _ Ed) as (Hd & _ & _).
  assert (Ed1 : exists d', d = c2 :: d').
  { simpl in Ed. rewrite Hdot in Ed. destruct (span dot t2).
    injection Ed as <- _. eauto. }
  destruct Ed1 as (d' & ->).
  match type of H with
  | ?lhs = _ =>
      assert (Hval : lhs = Some (set_cap 0 (consumed s r3)
                                   (set_cap 2 (consumed (c2 :: t2) r3)
                                      (set_cap 1 (c :: pre) []))))
  end.
  { apply rep_longest.
    - rewrite Esp. simpl. destruct w; [congruence|simpl; lia].
    - rewrite Esp. cbn [snd]. apply rep_longest.
      + rewrite Ed. simpl. lia.
      + rewrite Ed. reflexivity. }
  rewrite Hval in H. apply Some_inj in H. subst m. exists c2, d'.
  split; [|exact Hr2].
  rewrite get_set_cap_other by discriminate. rewrite get_set_cap_same.
  rewrite Hd at 1. rewrite consumed_app. reflexivity.
Qed.
Lemma first_colon_unique (a a' b b' : jsstring) :
  a ++ 58 :: b = a' ++ 58 :: b' ->
  forallb not_colon a = true -> forallb not_colon a' = true -> a = a'.
Proof.
  revert a'. induction a as [|x a IH]; intros [|y a'] H Ha Ha'; simpl in *.
  - reflexivity.
  - injection H as <- _. discriminate Ha'.
  - injection H as -> _. discriminate Ha.
  - injection H as <- H. apply andb_true_iff in Ha as [_ Ha].
    apply andb_true_iff in Ha' as [_ Ha']. f_equal. eapply IH; eassumption.
Qed.

(** The generic pattern rejects every line whose text before the first
    colon is longer than 31 code units. *)
Lemma generic_rejects_long_prefix (pre post : jsstring) :
  forallb not_colon pre = true -> (31 < length pre)%nat ->
  regex_match re_generic (pre ++ 58 :: post) = None.
Proof.
  intros Hpre Hlen.
  destruct (regex_match re_generic (pre ++ 58 :: post)) as [m|] eqn:E;
    [exfalso|reflexivity].
  apply generic_match_inv in E as (c & p & r1 & Hs & Hc & Hp & Hl & _).
  apply orb_false_iff in Hc as [_ Hc].
  assert (Hcp : forallb not_colon (c :: p) = true).
  { simpl. unfold not_colon at 1. rewrite Hc. exact Hp. }
  change (pre ++ 58 :: post = (c :: p) ++ 58 :: r1) in Hs.
  apply first_colon_unique in Hs; [|assumption|assumption].
  subst pre. simpl in Hlen. lia.
Qed.

Lemma extract_generic_only (line : jsstring) :
  extract date_patterns line = None ->
  extract patterns line =
  match regex_match re_generic line with
  | Some m => Some (parse generic m)
  | None => None
  end.
Proof.
  intros H. change patterns with (date_patterns ++ [generic]).
  rewrite extract_app, H. reflexivity.
Qed.

(** What [line_step] does with a line that only the generic pattern
    matches. *)
Lemma line_step_generic (st : line_state) (line : jsstring) (m : captures) :
  extract date_patterns (cleanText (trim line)) = None ->
  regex_match re_generic (cleanText (trim line)) = Some m ->
  exists sd bd,
    get_cap 1 m = Some sd /\ get_cap 2 m = Some bd /\
    line_step st line =
      Normal (mkState (push_current st) (Set_add (trim sd) (st_participants st))
                (Some (mkMessage (str "Unknown") [] (trim sd) (trim bd)))).
Proof.
  intros Hd Hg. unfold line_step.
  destruct (cleanText (trim line)) as [|c l] eqn:E; [discriminate Hg|].
  rewrite (extract_generic_only _ Hd), Hg.
  pose proof (regex_match_sets _ _ _ 1%nat Hg eq_refl) as H1.
  pose proof (regex_match_sets _ _ _ 2%nat Hg eq_refl) as H2.
  cbn [parse generic x_sender x_content x_date x_time].
  destruct (get_cap 1 m) as [sd|]; [|congruence].
  destruct (get_cap 2 m) as [bd|]; [|congruence].
  exists sd, bd. repeat split.
Qed.



(** C4 (amended).  The generic pattern does not match a line whose text
    before its first colon is longer than 31 code units.  When none of the
    three date-bearing patterns matches the line either, it is not a
    header: it is dropped when no message is accumulating and appended as a
    continuation otherwise.  The long sentence with a colon yields no
    message on its own, and continues the message of a preceding header. *)
Theorem generic_cap :
  (forall pre post,
     forallb not_colon pre = true -> (31 < length pre)%nat ->
     regex_match re_generic (pre ++ 58 :: post) = None) /\
  (forall st line pre post,
     cleanText (trim line) = pre ++ 58 :: post ->
     forallb not_colon pre = true -> (31 < length pre)%nat ->
     extract date_patterns (cleanText (trim line)) = None ->
     line_step st line = Normal (continue_or_drop st (cleanText (trim line)))) /\
  parseChat long_sentence = Normal (mkResult [] []) /\
  parseChat (str "Alex: hi" ++ 10 :: long_sentence) =
    Normal (mkResult
              [mkMessage (str "Unknown") [] (str "Alex")
                         (JStr (str "hi" ++ 10 :: long_sentence))]
              [str "Alex"]).
Proof.
  split; [exact generic_rejects_long_prefix|].
  split.
  - intros st line pre post Hc Hpre Hlen Hd.
    apply line_step_no_header.
    + rewrite Hc. destruct pre; discriminate.
    + rewrite (extract_generic_only _ Hd), Hc.
      rewrite generic_rejects_long_prefix by assumption. reflexivity.
  - split; vm_compute; reflexivity.
Qed.





(** ** [escape] followed by [decodeURIComponent] *)

Ltac b2p :=
  unfold in_range in *;
  repeat match goal with
  | H : _ && _ = true |- _ => apply andb_true_iff in H; destruct H
  | H : _ || _ = false |- _ => apply orb_false_iff in H; destruct H
  | H : _ && _ = false |- _ => apply andb_false_iff in H; destruct H
  | H : _ || _ = true |- _ => apply orb_true_iff in H; destruct H
  | H : negb _ = true |- _ => apply negb_true_iff in H
  | H : negb _ = false |- _ => apply negb_false_iff in H
  | H : (_ <=? _) = true |- _ => apply N.leb_le in H
  | H : (_ <=? _) = false |- _ => apply N.leb_gt in H
  | H : (_ <? _) = true |- _ => apply N.ltb_lt in H
  | H : (_ <? _) = false |- _ => apply N.ltb_ge in H
  | H : (_ =? _) = true |- _ => apply N.eqb_eq in H
  | H : (_ =? _) = false |- _ => apply N.eqb_neq in H
  end.

(** Decides a boolean comparison from the arithmetic facts at hand. *)
Ltac bool_lia :=
  match goal with
  | |- ?b = _ => destruct b eqn:?; try reflexivity; exfalso; b2p; lia
  end.

Lemma hexval_hexdigit (d : N) : d < 16 -> hexval (hexdigit d) = Some d.
Proof.
  intros H.
  assert (E : d = 0 \/ d = 1 \/ d = 2 \/ d = 3 \/ d = 4 \/ d = 5 \/ d = 6 \/ d = 7 \/
              d = 8 \/ d = 9 \/ d = 10 \/ d = 11 \/ d = 12 \/ d = 13 \/ d = 14 \/
              d = 15) by lia.
  repeat (destruct E as [->|E]; [reflexivity|]). subst. reflexivity.
Qed.

Lemma unescaped_ascii (c : N) :
  unescaped c = true -> (c <? 128) = true /\ (c =? 37) = false.
Proof.
  unfold unescaped. intros H. split; bool_lia.
Qed.

Lemma read_octet_escape (b : N) (r : jsstring) :
  read_octet (escape (b :: r)) =
  if (b <? 256) && negb (unescaped b) then Some (b, escape r) else None.
Proof.
  unfold escape. simpl flat_map. unfold escape_unit.
  destruct (unescaped b) eqn:Eu.
  - rewrite andb_false_r. apply unescaped_ascii in Eu as [_ E37].
    simpl. destruct (flat_map _ r) as [|h1 [|h2 t]]; try reflexivity.
    rewrite E37. reflexivity.
  - rewrite andb_true_r. destruct (b <? 256) eqn:Eb.
    + cbn [app read_octet]. rewrite N.eqb_refl.
      apply N.ltb_lt in Eb.
      rewrite !hexval_hexdigit.
      * f_equal. f_equal. symmetry. apply N.div_mod'.
      * apply N.mod_lt. discriminate.
      * apply N.Div0.div_lt_upper_bound. exact Eb.
    + reflexivity.
Qed.

Lemma read_cont_escape (n : nat) :
  forall r,
    read_cont n (escape r) =
    if (n <=? length r)%nat && forallb is_cont (firstn n r)
    then Some (firstn n r, escape (skipn n r)) else None.
Proof.
  induction n as [|n IH]; intros r; [reflexivity|].
  destruct r as [|b r]; [reflexivity|].
  cbn [read_cont]. rewrite read_octet_escape.
  cbn [firstn skipn forallb length Nat.leb].
  destruct (is_cont b) eqn:Ec.
  - assert ((b <? 256) && negb (unescaped b) = true) as ->.
    { unfold is_cont in Ec. unfold unescaped. bool_lia. }
    unfold is_cont in Ec. rewrite Ec. rewrite IH.
    rewrite andb_true_l.
    destruct ((n <=? length r)%nat && forallb is_cont (firstn n r)); reflexivity.
  - rewrite andb_false_l, andb_false_r.
    destruct ((b <? 256) && negb (unescaped b)); [|reflexivity].
    unfold is_cont in Ec. rewrite Ec. reflexivity.
Qed.

(** One iteration of [Decode] on an escaped string, in terms of the code
    units that were escaped. *)
Lemma Decode_escape_cons (f : nat) (b1 : N) (r1 : jsstring) :
  Decode (S f) (escape (b1 :: r1)) =
  if b1 <? 128 then map_normal (cons b1) (Decode f (escape r1))
  else if 256 <=? b1 then Throw URIError
  else
    let n := lead_count b1 in
    if Nat.eqb n 1 || Nat.ltb 4 n then Throw URIError
    else if (pred n <=? length r1)%nat && forallb is_cont (firstn (pred n) r1) then
      match utf8_value b1 (firstn (pred n) r1) with
      | None => Throw URIError
      | Some V => map_normal (app (utf16 V)) (Decode f (escape (skipn (pred n) r1)))
      end
    else Throw URIError.
Proof.
  destruct (unescaped b1) eqn:Eu.
  - pose proof (unescaped_ascii _ Eu) as [E128 E37].
    rewrite E128. unfold escape. simpl flat_map. unfold escape_unit.
    rewrite Eu. cbn [app Decode]. rewrite E37. reflexivity.
  - assert (Eh : exists t, escape (b1 :: r1) = 37 :: t).
    { unfold escape. simpl flat_map. unfold escape_unit. rewrite Eu.
      destruct (b1 <? 256); simpl; eauto. }
    destruct Eh as (t & Et).
    pose proof (read_octet_escape b1 r1) as Hro. rewrite Eu, andb_true_r in Hro.
    rewrite Et in *. cbn [Decode]. rewrite N.eqb_refl, Hro.
    destruct (b1 <? 256) eqn:E256.
    + destruct (b1 <? 128) eqn:E128; [reflexivity|].
      assert ((256 <=? b1) = false) as -> by bool_lia.
      cbv zeta. destruct (Nat.eqb (lead_count b1) 1 || Nat.ltb 4 (lead_count b1));
        [reflexivity|].
      rewrite read_cont_escape.
      destruct ((pred (lead_count b1) <=? length r1)%nat &&
                forallb is_cont (firstn (pred (lead_count b1)) r1)); reflexivity.
    + assert ((b1 <? 128) = false) as -> by bool_lia.
      assert ((256 <=? b1) = true) as -> by bool_lia. reflexivity.
Qed.

Lemma escape_unit_length (c : N) : (1 <= length (escape_unit c))%nat.
Proof.
  unfold escape_unit. destruct (unescaped c); [simpl; lia|].
  destruct (c <? 256); simpl; lia.
Qed.

Lemma escape_length (t : jsstring) : (length t <= length (escape t))%nat.
Proof.
  induction t as [|c t IH]; [simpl; lia|].
  change (escape (c :: t)) with (escape_unit c ++ escape t).
  rewrite length_app. pose proof (escape_unit_length c). simpl. lia.
Qed.

(** Text in the ASCII range decodes to itself. *)
Lemma Decode_escape_ascii (t : jsstring) :
  forall f, (length t <= f)%nat ->
    forallb (fun c => c <? 128) t = true ->
    Decode f (escape t) = Normal t.
Proof.
  induction t as [|c t IH]; intros f Hf Ha.
  - destruct f; reflexivity.
  - destruct f as [|f]; [simpl in Hf; lia|].
    simpl in Ha. apply andb_true_iff in Ha as [Hc Ha].
    rewrite Decode_escape_cons, Hc, IH; [reflexivity|simpl in Hf; lia|exact Ha].
Qed.
Ltac cmp_split :=
  repeat (match goal with
          | |- context [N.leb ?a ?b] => destruct (N.leb_spec a b)
          | |- context [N.ltb ?a ?b] => destruct (N.ltb_spec a b)
          | |- context [N.eqb ?a ?b] => destruct (N.eqb_spec a b)
          end; try (exfalso; lia); cbn [andb orb negb]).

Lemma map_normal_cases {A B} (g : A -> B) (c : completion A) (wf : bool) :
  (if wf then exists r, c = Normal r else c = Throw URIError) ->
  if wf then exists r, map_normal g c = Normal r
  else map_normal g c = Throw URIError.
Proof.
  destruct wf.
  - intros [r ->]. simpl. eauto.
  - intros ->. reflexivity.
Qed.

(** [decodeURIComponent(escape(text))] returns normally exactly when the
    code units of [text], read as octets, are well-formed UTF-8. *)
Lemma Decode_escape_wf (n : nat) :
  forall t f, (length t <= n)%nat -> (length t <= f)%nat ->
    if utf8_wf t then exists r, Decode f (escape t) = Normal r
    else Decode f (escape t) = Throw URIError.
Proof.
  induction n as [|n IH]; intros t f Hn Hf.
  { destruct t; [|simpl in Hn; lia]. destruct f; simpl; eauto. }
  destruct t as [|b1 r1]; [destruct f; simpl; eauto|].
  destruct f as [|f]; [simpl in Hf; lia|].
  simpl in Hn, Hf.
  rewrite Decode_escape_cons. cbn [utf8_wf].
  destruct (N.ltb_spec b1 128).
  { apply map_normal_cases. apply IH; lia. }
  destruct (N.leb_spec 256 b1).
  { unfold in_range. cmp_split. reflexivity. }
  unfold lead_count, in_range.
  destruct (N.ltb_spec b1 192); [cmp_split; reflexivity|].
  destruct (N.ltb_spec b1 224).
  { cbn [Nat.eqb Nat.ltb Nat.leb orb pred].
    destruct r1 as [|b2 r2]; [cmp_split; reflexivity|].
    cbn [length Nat.leb firstn skipn forallb andb utf8_value].
    unfold is_cont, in_range. cmp_split; try reflexivity.
    apply map_normal_cases. apply IH; simpl in *; lia. }
  destruct (N.ltb_spec b1 240).
  { cbn [Nat.eqb Nat.ltb Nat.leb orb pred].
    destruct r1 as [|b2 [|b3 r3]]; [cmp_split; reflexivity..|].
    cbn [length Nat.leb firstn skipn forallb andb utf8_value].
    unfold second_ok, is_cont, in_range. cmp_split; try reflexivity.
    all: apply map_normal_cases; apply IH; simpl in *; lia. }
  destruct (N.ltb_spec b1 248).
  { cbn [Nat.eqb Nat.ltb Nat.leb orb pred].
    destruct r1 as [|b2 [|b3 [|b4 r4]]]; [cmp_split; reflexivity..|].
    cbn [length Nat.leb firstn skipn forallb andb utf8_value].
    unfold second_ok, is_cont, in_range. cmp_split; try reflexivity.
    all: apply map_normal_cases; apply IH; simpl in *; lia. }
  cbn [Nat.eqb Nat.ltb Nat.leb orb]. cmp_split; reflexivity.
Qed.
Lemma utf8_wf_single_octets (n : nat) :
  forall t, (length t <= n)%nat -> utf8_wf t = true ->
    forallb (fun c => c <? 256) t = true.
Proof.
  induction n as [|n IH]; intros t Hn; [destruct t; [reflexivity|simpl in Hn; lia]|].
  destruct t as [|b1 r1]; [reflexivity|]. simpl in Hn.
  cbn [utf8_wf forallb]. unfold in_range.
  cmp_split; try (intros Hwf; discriminate Hwf).
  all: repeat match goal with
              | |- context [match ?l with [] => _ | _ :: _ => _ end] =>
                  is_var l; destruct l
              end;
    try (intros Hwf; discriminate Hwf).
  all: cbn [forallb]; unfold second_ok, is_cont, in_range;
    cmp_split; try (intros Hwf; discriminate Hwf).
  all: apply IH; simpl in Hn; lia.
Qed.

Lemma fixMojibake_string (text : jsstring) :
  fixMojibake (JStr text) =
  match decodeURIComponent (escape text) with
  | Normal r => JStr r
  | Throw _ => JStr text
  end.
Proof. reflexivity. Qed.

Lemma fixMojibake_ascii (text : jsstring) :
  forallb (fun c => c <? 128) text = true ->
  fixMojibake (JStr text) = JStr text.
Proof.
  intros H. rewrite fixMojibake_string. unfold decodeURIComponent.
  rewrite Decode_escape_ascii; [reflexivity|apply escape_length|exact H].
Qed.

Lemma fixMojibake_not_wf (text : jsstring) :
  utf8_wf text = false -> fixMojibake (JStr text) = JStr text.
Proof.
  intros H. rewrite fixMojibake_string. unfold decodeURIComponent.
  pose proof (Decode_escape_wf (length text) text (length (escape text))
                (le_n _) (escape_length text)) as D.
  rewrite H in D. rewrite D. reflexivity.
Qed.

Lemma fixMojibake_wide (text : jsstring) :
  existsb (fun c => 256 <=? c) text = true ->
  fixMojibake (JStr text) = JStr text.
Proof.
  intros H. apply fixMojibake_not_wf.
  destruct (utf8_wf text) eqn:E; [exfalso|reflexivity].
  apply (utf8_wf_single_octets (length text) text (le_n _)) in E.
  apply existsb_exists in H as (c & Hin & Hc).
  rewrite forallb_forall in E. specialize (E c Hin).
  apply N.leb_le in Hc. apply N.ltb_lt in E. lia.
Qed.

Lemma forallb_false_existsb (text : jsstring) :
  forallb (fun c => c <? 256) text = false ->
  existsb (fun c => 256 <=? c) text = true.
Proof.
  induction text as [|c t IH]; simpl; [discriminate|].
  destruct (N.ltb_spec c 256); destruct (N.leb_spec 256 c); try lia; simpl; auto.
Qed.

Lemma existsb_false_forallb (text : jsstring) :
  existsb (fun c => 128 <=? c) text = false ->
  forallb (fun c => c <? 128) text = true.
Proof.
  induction text as [|c t IH]; simpl; [reflexivity|].
  destruct (N.ltb_spec c 128); destruct (N.leb_spec 128 c); try lia; simpl; auto;
    discriminate.
Qed.

Lemma fixMojibake_clean (text : jsstring) :
  double_encoded_shape text = false -> fixMojibake (JStr text) = JStr text.
Proof.
  unfold double_encoded_shape. intros H.
  destruct (utf8_wf text) eqn:Ew; [|apply fixMojibake_not_wf; exact Ew].
  rewrite andb_true_r in H.
  destruct (forallb (fun c => c <? 256) text) eqn:Ef.
  - apply fixMojibake_ascii. apply existsb_false_forallb. exact H.
  - apply fixMojibake_wide. apply forallb_false_existsb. exact Ef.
Qed.

(** ** The loop of the fast path *)

Lemma json_step_message (st : list (Message json) * list jsstring) (msg : json) :
  aborts msg = false -> eligible msg = true ->
  json_step st msg =
    Normal (fst st ++ [message_of msg], Set_add (sender (message_of msg)) (snd st)).
Proof.
  unfold aborts, eligible, json_step, message_of, sender_of, role_of, content_of.
  destruct msg as [| | | | |ms]; try discriminate.
  cbn [get_prop bind]. intros Ha He. rewrite He in Ha. cbn [andb negb] in Ha.
  apply andb_true_iff in He as [Hr Hc]. rewrite Hr. cbn [bind]. rewrite Hc.
  destruct (lookup_last (str "role") ms) as [[| | |[|c rest]| |]|];
    try discriminate; cbn [capitalize bind sender].
  destruct (lookup_last (str "content") ms); [reflexivity|discriminate].
Qed.

Lemma json_step_skip (st : list (Message json) * list jsstring) (msg : json) :
  msg <> JNull -> eligible msg = false -> json_step st msg = Normal st.
Proof.
  unfold eligible, json_step, role_of, content_of.
  intros Hn He.
  destruct msg as [| | | | |ms]; try reflexivity; [congruence|].
  cbn [get_prop bind].
  destruct (truthy (lookup_last (str "role") ms)); [|reflexivity].
  cbn [andb] in He. rewrite He. reflexivity.
Qed.

Lemma forEach_json_step (elems : list json) :
  forall st,
    forallb (fun msg => negb (aborts msg)) elems = true ->
    exists ps,
      forEach json_step elems st =
        Normal (fst st ++ map message_of (filter eligible elems), ps).
Proof.
  induction elems as [|msg elems IH]; intros st Ha.
  - simpl. rewrite app_nil_r. destruct st. eauto.
  - simpl in Ha. apply andb_true_iff in Ha as [Hm Ha].
    apply negb_true_iff in Hm. cbn [forEach filter].
    destruct (eligible msg) eqn:He.
    + rewrite json_step_message by assumption. cbn [bind].
      destruct (IH (fst st ++ [message_of msg],
                    Set_add (sender (message_of msg)) (snd st)) Ha) as [ps ->].
      exists ps. cbn [fst map]. rewrite <- app_assoc. reflexivity.
    + assert (Hn : msg <> JNull) by (intros ->; discriminate Hm).
      rewrite json_step_skip by assumption. cbn [bind]. apply IH. exact Ha.
Qed.

(** C10 (amended).  In the loop of the structured-data fast path, an
    element whose [role] is a non-empty string and whose [content] is
    truthy yields a message whose sender is the role with its first code
    unit upper-cased; an element other than [null] that lacks either field,
    or holds a falsy value (such as the empty string) in one of them, is
    skipped without error.  When no element makes the loop throw, the
    messages are those of the eligible elements, in order. *)
Theorem json_elements :
  (forall st ms c rest body,
     lookup_last (str "role") ms = Some (JStr (c :: rest)) ->
     lookup_last (str "content") ms = Some body ->
     truthy (Some body) = true ->
     json_step st (JObj ms) =
       Normal (fst st ++ [mkMessage [] [] (toUpperCase1 c ++ rest) (fixMojibake body)],
               Set_add (toUpperCase1 c ++ rest) (snd st))) /\
  (forall st msg,
     msg <> JNull ->
     truthy (role_of msg) = false \/ truthy (content_of msg) = false ->
     json_step st msg = Normal st) /\
  (forall elems st,
     forallb (fun msg => negb (aborts msg)) elems = true ->
     exists ps,
       forEach json_step elems st =
         Normal (fst st ++ map message_of (filter eligible elems), ps)).
Proof.
  split; [|split].
  - intros st ms c rest body Hr Hc Ht.
    rewrite json_step_message.
    + unfold message_of, sender_of, role_of, content_of. rewrite Hr, Hc. reflexivity.
    + unfold aborts, role_of, content_of. rewrite Hr. cbn. apply andb_false_r.
    + unfold eligible, role_of, content_of. rewrite Hr, Hc. cbn [truthy andb].
      exact Ht.
  - intros st msg Hn Hf. apply json_step_skip; [exact Hn|].
    unfold eligible. destruct Hf as [-> | ->]; [reflexivity|apply andb_false_r].
  - intros elems st H. apply forEach_json_step. exact H.
Qed.

(** ** Enough fuel *)

Lemma read_octet_length (s : jsstring) (B : N) (r : jsstring) :
  read_octet s = Some (B, r) -> (length r < length s)%nat.
Proof.
  destruct s as [|c [|h1 [|h2 t]]]; simpl; try discriminate.
  destruct (c =? 37); [|discriminate].
  destruct (hexval h1); [|discriminate]. destruct (hexval h2); [|discriminate].
  intros H. injection H as _ <-. lia.
Qed.

Lemma read_cont_length (n : nat) :
  forall s octets r, read_cont n s = Some (octets, r) -> (length r <= length s)%nat.
Proof.
  induction n as [|n IH]; intros s octets r; simpl.
  - intros H. injection H as _ <-. lia.
  - destruct (read_octet s) as [[B r0]|] eqn:E; [|discriminate].
    apply read_octet_length in E.
    destruct (in_range 128 191 B); [|discriminate].
    destruct (read_cont n r0) as [[o r1]|] eqn:E1; [|discriminate].
    apply IH in E1. simpl. intros H. injection H as _ <-. lia.
Qed.

(** [Decode] never runs out of fuel when given the length of its input:
    any larger amount gives the same completion. *)
Lemma Decode_fuel (f : nat) :
  forall f' s, (length s <= f)%nat -> (length s <= f')%nat ->
    Decode f s = Decode f' s.
Proof.
  induction f as [|f IH]; intros f' s Hf Hf'.
  - destruct s; [destruct f'; reflexivity|simpl in Hf; lia].
  - destruct s as [|c rest]; [destruct f'; reflexivity|].
    destruct f' as [|f']; [simpl in Hf'; lia|].
    simpl in Hf, Hf'. cbn [Decode].
    destruct (c =? 37).
    + destruct (read_octet (c :: rest)) as [[B r]|] eqn:E; [|reflexivity].
      apply read_octet_length in E. simpl in E.
      destruct (B <? 128); [rewrite (IH f' r) by lia; reflexivity|].
      cbv zeta.
      destruct (Nat.eqb (lead_count B) 1 || Nat.ltb 4 (lead_count B)); [reflexivity|].
      destruct (read_cont (pred (lead_count B)) r) as [[o r']|] eqn:E'; [|reflexivity].
      apply read_cont_length in E'.
      destruct (utf8_value B o); [|reflexivity].
      rewrite (IH f' r') by lia. reflexivity.
    + rewrite (IH f' rest) by lia. reflexivity.
Qed.

Lemma skip_jws_length (s : jsstring) : (length (skip_jws s) <= length s)%nat.
Proof.
  induction s as [|c s IH]; simpl; [lia|]. destruct (is_jws c); simpl; lia.
Qed.

Lemma parse_string_length_aux (n : nat) :
  forall s v r, (length s <= n)%nat -> parse_string s = Some (v, r) ->
    (length r < length s)%nat.
Proof.
  induction n as [|n IH]; intros s v r Hn;
    (destruct s as [|c s1]; [discriminate|]); simpl in Hn; [lia|].
  cbn [parse_string].
  destruct (c =? 34).
  { intros H. injection H as _ <-. simpl. lia. }
  destruct (c =? 92).
  - destruct s1 as [|e s2]; [discriminate|].
    destruct (e =? 117).
    + destruct s2 as [|h1 [|h2 [|h3 [|h4 s3]]]]; try discriminate.
      destruct (hexval h1), (hexval h2), (hexval h3), (hexval h4); try discriminate.
      destruct (parse_string s3) as [[v' r']|] eqn:E; [|discriminate].
      apply IH in E; [|simpl in Hn; lia]. simpl. intros H. injection H as _ <-.
      lia.
    + destruct (simple_escape e); [|discriminate].
      destruct (parse_string s2) as [[v' r']|] eqn:E; [|discriminate].
      apply IH in E; [|simpl in Hn; lia]. simpl. intros H. injection H as _ <-.
      lia.
  - destruct (c <? 32); [discriminate|].
    destruct (parse_string s1) as [[v' r']|] eqn:E; [|discriminate].
    apply IH in E; [|lia]. simpl. intros H. injection H as _ <-.
    lia.
Qed.

Lemma parse_string_length (s v r : jsstring) :
  parse_string s = Some (v, r) -> (length r < length s)%nat.
Proof. apply (parse_string_length_aux (length s)). lia. Qed.

Lemma take_digits_length (s : jsstring) :
  (length (fst (take_digits s)) + length (snd (take_digits s)) = length s)%nat.
Proof.
  induction s as [|c s IH]; simpl; [reflexivity|].
  destruct (is_digit c); [|simpl; lia].
  destruct (take_digits s) as [ds r]. simpl in *. lia.
Qed.

Lemma digits1_length (s ds r : jsstring) :
  digits1 s = Some (ds, r) -> (length r < length s)%nat.
Proof.
  unfold digits1. pose proof (take_digits_length s) as L.
  destruct (take_digits s) as [[|d ds'] r']; [discriminate|].
  intros H. injection H as _ <-. simpl in L. lia.
Qed.

Lemma parse_number_length (s lit r : jsstring) :
  parse_number s = Some (lit, r) -> (length r < length s)%nat.
Proof.
  unfold parse_number.
  set (sg := match s with
             | c :: r0 => if c =? 45 then ([45], r0) else ([], s)
             | [] => ([], s)
             end).
  assert (Hsg : (length (snd sg) <= length s)%nat).
  { subst sg. destruct s as [|c r0]; [simpl; lia|].
    destruct (c =? 45); simpl; lia. }
  destruct sg as [sign s1]. simpl in Hsg.
  match goal with
  | |- match ?x with _ => _ end = _ -> _ => destruct x as [[int s2]|] eqn:Eint
  end; [|discriminate].
  assert (H2 : (length s2 < length s1)%nat).
  { destruct s1 as [|c r0]; [discriminate|].
    destruct (c =? 48).
    - injection Eint as _ <-. simpl. lia.
    - destruct (in_range 49 57 c) eqn:Ec; [|discriminate].
      apply Some_inj in Eint. pose proof (take_digits_length (c :: r0)) as L.
      rewrite Eint in L. cbn [fst snd] in L.
      assert (int <> []).
      { intros ->. cbn [take_digits] in Eint. unfold is_digit in Eint.
        assert (in_range 48 57 c = true) as Hd by (unfold in_range in *; bool_lia).
        rewrite Hd in Eint. destruct (take_digits r0). discriminate. }
      destruct int; [congruence|]. cbn [length] in *. lia. }
  match goal with
  | |- match ?x with _ => _ end = _ -> _ => destruct x as [[frac s3]|] eqn:Efrac
  end; [|discriminate].
  assert (H3 : (length s3 <= length s2)%nat).
  { destruct s2 as [|c r0]; [injection Efrac as _ <-; lia|].
    destruct (c =? 46).
    - destruct (digits1 r0) as [[ds r']|] eqn:Ed; [|discriminate].
      apply digits1_length in Ed. injection Efrac as _ <-. simpl. lia.
    - injection Efrac as _ <-. lia. }
  match goal with
  | |- match ?x with _ => _ end = _ -> _ => destruct x as [[ex s4]|] eqn:Eex
  end; [|discriminate].
  assert (H4 : (length s4 <= length s3)%nat).
  { destruct s3 as [|c r0]; [injection Eex as _ <-; lia|].
    destruct ((c =? 101) || (c =? 69)).
    - set (es := match r0 with
                 | x :: r1 => if (x =? 43) || (x =? 45) then ([x], r1) else ([], r0)
                 | [] => ([], r0)
                 end) in Eex.
      assert (Hes : (length (snd es) <= length r0)%nat).
      { subst es. destruct r0 as [|x r1]; [simpl; lia|].
        destruct ((x =? 43) || (x =? 45)); simpl; lia. }
      destruct es as [esign r1]. simpl in Hes.
      destruct (digits1 r1) as [[ds r']|] eqn:Ed; [|discriminate].
      apply digits1_length in Ed. injection Eex as _ <-. simpl. lia.
    - injection Eex as _ <-. lia. }
  intros H. injection H as _ <-. lia.
Qed.

(** Every successful call of the JSON reader consumes input. *)
Lemma parse_progress (f : nat) :
  (forall s v r, parse_value f s = Some (v, r) -> (length r < length s)%nat) /\
  (forall s acc v r,
     parse_elements f s acc = Some (v, r) -> (length r < length s)%nat) /\
  (forall s acc v r,
     parse_members f s acc = Some (v, r) -> (length r < length s)%nat).
Proof.
  induction f as [|f (IHv & IHe & IHm)]; [repeat split; intros; discriminate|].
  split; [|split].
  - intros s v r. cbn [parse_value].
    pose proof (skip_jws_length s) as L0.
    destruct (skip_jws s) as [|c r0]; [discriminate|]. simpl in L0.
    destruct (c =? 123).
    { pose proof (skip_jws_length r0) as L1.
      destruct (skip_jws r0) as [|c' r']; [discriminate|]. simpl in L1.
      destruct (c' =? 125).
      - intros E. injection E as _ <-. lia.
      - intros E. apply IHm in E. lia. }
    destruct (c =? 91).
    { pose proof (skip_jws_length r0) as L1.
      destruct (skip_jws r0) as [|c' r']; [discriminate|]. simpl in L1.
      destruct (c' =? 93).
      - intros E. injection E as _ <-. lia.
      - intros E. apply IHe in E. lia. }
    destruct (c =? 34).
    { destruct (parse_string r0) as [[v' r']|] eqn:E; [|discriminate].
      apply parse_string_length in E. intros E'. injection E' as _ <-. lia. }
    destruct (starts_with (str "true") (c :: r0)).
    { intros E. apply Some_inj in E. apply (f_equal snd) in E. cbn [snd] in E.
      subst r. rewrite length_skipn. simpl. lia. }
    destruct (starts_with (str "false") (c :: r0)).
    { intros E. apply Some_inj in E. apply (f_equal snd) in E. cbn [snd] in E.
      subst r. rewrite length_skipn. simpl. lia. }
    destruct (starts_with (str "null") (c :: r0)).
    { intros E. apply Some_inj in E. apply (f_equal snd) in E. cbn [snd] in E.
      subst r. rewrite length_skipn. simpl. lia. }
    destruct (parse_number (c :: r0)) as [[lit r']|] eqn:E; [|discriminate].
    apply parse_number_length in E. simpl in E.
    intros E'. injection E' as _ <-. lia.
  - intros s acc v r. cbn [parse_elements].
    destruct (parse_value f s) as [[v' r']|] eqn:E; [|discriminate].
    apply IHv in E. pose proof (skip_jws_length r') as L1.
    destruct (skip_jws r') as [|c r'']; [discriminate|]. simpl in L1.
    destruct (c =? 44); [intros E'; apply IHe in E'; lia|].
    destruct (c =? 93); [|discriminate].
    intros E'. injection E' as _ <-. lia.
  - intros s acc v r. cbn [parse_members].
    pose proof (skip_jws_length s) as L0.
    destruct (skip_jws s) as [|q r0]; [discriminate|]. simpl in L0.
    destruct (q =? 34); [|discriminate].
    destruct (parse_string r0) as [[key r1]|] eqn:Ek; [|discriminate].
    apply parse_string_length in Ek. pose proof (skip_jws_length r1) as L1.
    destruct (skip_jws r1) as [|c r2]; [discriminate|]. simpl in L1.
    destruct (c =? 58); [|discriminate].
    destruct (parse_value f r2) as [[v' r3]|] eqn:E; [|discriminate].
    apply IHv in E. pose proof (skip_jws_length r3) as L3.
    destruct (skip_jws r3) as [|c' r4]; [discriminate|]. simpl in L3.
    destruct (c' =? 44); [intros E'; apply IHm in E'; lia|].
    destruct (c' =? 125); [|discriminate].
    intros E'. injection E' as _ <-. lia.
Qed.

(** The JSON reader never runs out of fuel when given more than twice the
    length of its input: any larger amount gives the same result. *)
Lemma parse_fuel (f : nat) :
  forall f',
    (forall s, (2 * length s + 1 <= f)%nat -> (2 * length s + 1 <= f')%nat ->
               parse_value f s = parse_value f' s) /\
    (forall s acc, (2 * length s + 2 <= f)%nat -> (2 * length s + 2 <= f')%nat ->
                   parse_elements f s acc = parse_elements f' s acc) /\
    (forall s acc, (2 * length s + 2 <= f)%nat -> (2 * length s + 2 <= f')%nat ->
                   parse_members f s acc = parse_members f' s acc).
Proof.
  induction f as [|f IH]; intros f'.
  { repeat split; intros; lia. }
  destruct f' as [|f']; [repeat split; intros; lia|].
  destruct (IH f') as (IHv & IHe & IHm).
  destruct (parse_progress f) as (Pv & _ & _).
  split; [|split].
  - intros s Hf Hf'. cbn [parse_value].
    pose proof (skip_jws_length s) as L0.
    destruct (skip_jws s) as [|c r0]; [reflexivity|]. simpl in L0.
    destruct (c =? 123).
    { destruct (skip_jws r0) as [|c' r']; [reflexivity|].
      destruct (c' =? 125); [reflexivity|]. apply IHm; lia. }
    destruct (c =? 91); [|reflexivity].
    destruct (skip_jws r0) as [|c' r']; [reflexivity|].
    destruct (c' =? 93); [reflexivity|]. apply IHe; lia.
  - intros s acc Hf Hf'. cbn [parse_elements].
    rewrite <- (IHv s) by lia.
    destruct (parse_value f s) as [[v r]|] eqn:E; [|reflexivity].
    apply Pv in E. pose proof (skip_jws_length r) as L1.
    destruct (skip_jws r) as [|c r']; [reflexivity|]. simpl in L1.
    destruct (c =? 44); [|reflexivity]. apply IHe; lia.
  - intros s acc Hf Hf'. cbn [parse_members].
    pose proof (skip_jws_length s) as L0.
    destruct (skip_jws s) as [|q r0]; [reflexivity|]. simpl in L0.
    destruct (q =? 34); [|reflexivity].
    destruct (parse_string r0) as [[key r1]|] eqn:Ek; [|reflexivity].
    apply parse_string_length in Ek. pose proof (skip_jws_length r1) as L1.
    destruct (skip_jws r1) as [|c r2]; [reflexivity|]. simpl in L1.
    destruct (c =? 58); [|reflexivity].
    rewrite <- (IHv r2) by lia.
    destruct (parse_value f r2) as [[v r3]|] eqn:E; [|reflexivity].
    apply Pv in E. pose proof (skip_jws_length r3) as L3.
    destruct (skip_jws r3) as [|c' r4]; [reflexivity|]. simpl in L3.
    destruct (c' =? 44); [|reflexivity]. apply IHm; lia.
Qed.

(** [JSON_parse] and [decodeURIComponent] do not depend on the amount of
    fuel they pass, once it is enough. *)
Lemma JSON_parse_fuel (text : jsstring) (f : nat) :
  (2 * length text + 1 <= f)%nat ->
  parse_value f text = parse_value (S (2 * length text)) text.
Proof.
  intros H. apply (proj1 (parse_fuel f (S (2 * length text)))); lia.
Qed.

Lemma decodeURIComponent_fuel (s : jsstring) (f : nat) :
  (length s <= f)%nat -> Decode f s = decodeURIComponent s.
Proof.
  intros H. unfold decodeURIComponent. apply Decode_fuel; lia.
Qed.

(** ** What [fixMojibake] repairs *)

Ltac dm_lia := zify; Z.to_euclidean_division_equations; lia.

Ltac cmp_split_dm :=
  repeat (match goal with
          | |- context [N.leb ?a ?b] => destruct (N.leb_spec a b)
          | |- context [N.ltb ?a ?b] => destruct (N.ltb_spec a b)
          | |- context [N.eqb ?a ?b] => destruct (N.eqb_spec a b)
          end; try (exfalso; dm_lia); cbn [andb orb negb]).

Lemma Decode_double_encode (cps : list N) :
  forall f, (length (double_encode cps) <= f)%nat ->
    forallb is_scalar cps = true ->
    Decode f (escape (double_encode cps)) = Normal (utf16_encode cps).
Proof.
  clear Number_isZero Number_toString toUpperCase_nonascii.
  induction cps as [|V cps IH]; intros f Hf Hs; [destruct f; reflexivity|].
  cbn [forallb] in Hs. apply andb_true_iff in Hs as [HV Hs].
  change (double_encode (V :: cps)) with (utf8_encode1 V ++ double_encode cps) in *.
  change (utf16_encode (V :: cps)) with (utf16 V ++ utf16_encode cps).
  unfold is_scalar, in_range in HV. revert Hf. unfold utf8_encode1, utf16.
  destruct (N.ltb_spec V 128).
  { cbn [app length]. intros Hf. destruct f as [|f]; [lia|].
    rewrite Decode_escape_cons.
    assert ((V <? 128) = true) as -> by (apply N.ltb_lt; assumption).
    rewrite IH by (assumption || lia).
    assert ((V <? 65536) = true) as -> by (apply N.ltb_lt; lia). reflexivity. }
  destruct (N.ltb_spec V 2048).
  { cbn [app length]. intros Hf. destruct f as [|f]; [lia|].
    rewrite Decode_escape_cons. unfold lead_count.
    cbn [length firstn skipn forallb pred Nat.leb]. unfold is_cont, in_range.
    cmp_split_dm. cbn [Nat.eqb Nat.ltb Nat.leb orb andb pred firstn skipn
                         utf8_value forallb].
    replace ((192 + V / 64 - 192) * 64 + (128 + V mod 64 - 128)) with V by dm_lia.
    cmp_split_dm. rewrite IH by (assumption || lia).
    unfold utf16. cmp_split_dm. reflexivity. }
  destruct (N.ltb_spec V 65536).
  { cbn [app length]. intros Hf. destruct f as [|f]; [lia|].
    rewrite Decode_escape_cons. unfold lead_count.
    cbn [length firstn skipn forallb pred Nat.leb]. unfold is_cont, in_range.
    revert HV. cmp_split_dm; intros HV; try discriminate HV.
    all: cbn [Nat.eqb Nat.ltb Nat.leb orb andb pred firstn skipn utf8_value forallb].
    all: replace ((224 + V / 4096 - 224) * 4096 + (128 + (V / 64) mod 64 - 128) * 64
                  + (128 + V mod 64 - 128)) with V by dm_lia.
    all: unfold in_range; cmp_split_dm.
    all: rewrite IH by (assumption || lia); unfold utf16; cmp_split_dm; reflexivity. }
  cbn [app length]. intros Hf. destruct f as [|f]; [lia|].
  rewrite Decode_escape_cons. unfold lead_count.
  cbn [length firstn skipn forallb pred Nat.leb]. unfold is_cont, in_range.
  revert HV. cmp_split_dm; intros HV; try discriminate HV.
  all: cbn [Nat.eqb Nat.ltb Nat.leb orb andb pred firstn skipn utf8_value forallb].
  all: replace ((240 + V / 262144 - 240) * 262144
                + (128 + (V / 4096) mod 64 - 128) * 4096
                + (128 + (V / 64) mod 64 - 128) * 64 + (128 + V mod 64 - 128))
         with V by dm_lia.
  all: cmp_split_dm.
  all: rewrite IH by (assumption || lia); unfold utf16; cmp_split_dm; reflexivity.
Qed.

(** X1. Double-encoded text is repaired: when the code units of a string
    are the UTF-8 octets of a text of Unicode scalar values, [fixMojibake]
    returns that text (in UTF-16). *)
Theorem fixMojibake_repairs :
  forall cps,
    forallb is_scalar cps = true ->
    fixMojibake (JStr (double_encode cps)) = JStr (utf16_encode cps).
Proof.
  intros cps H. rewrite fixMojibake_string. unfold decodeURIComponent.
  rewrite Decode_double_encode; [reflexivity|apply escape_length|exact H].
Qed.

Lemma map_normal_inv {A B} (g : A -> B) (c : completion A) (r : B) :
  map_normal g c = Normal r -> exists a, c = Normal a /\ r = g a.
Proof.
  destruct c as [a|e]; simpl; [|discriminate].
  intros H. injection H as <-. eauto.
Qed.

(** A successful decoding is never longer than the text, and as long as the
    text only when it is the text. *)
Lemma Decode_escape_shorter (n : nat) :
  forall t f r, (length t <= n)%nat -> (length t <= f)%nat ->
    Decode f (escape t) = Normal r ->
    (length r <= length t)%nat /\ (length r = length t -> r = t).
Proof.
  clear Number_isZero Number_toString toUpperCase_nonascii.
  induction n as [|n IH]; intros t f r Hn Hf.
  { destruct t; [|simpl in Hn; lia]. destruct f; simpl; intros H;
      injection H as <-; auto. }
  destruct t as [|b1 r1].
  { destruct f; simpl; intros H; injection H as <-; auto. }
  destruct f as [|f]; [simpl in Hf; lia|].
  simpl in Hn, Hf. rewrite Decode_escape_cons.
  assert (Step : forall (out rest : jsstring),
            (length rest <= n)%nat -> (length rest <= f)%nat ->
            (length out + length rest < S (length r1))%nat ->
            map_normal (app out) (Decode f (escape rest)) = Normal r ->
            (length r <= length (b1 :: r1))%nat /\
            (length r = length (b1 :: r1) -> r = b1 :: r1)).
  { intros out rest H1 H2 H3 H.
    apply map_normal_inv in H as (a & Ha & ->).
    apply IH in Ha as [Ha _]; [|assumption..].
    rewrite length_app. simpl. split; lia. }
  destruct (N.ltb_spec b1 128).
  { intros Hd. apply map_normal_inv in Hd as (a & Ha & ->).
    apply IH in Ha as [Ha1 Ha2]; [|lia..]. simpl. split; [lia|].
    intros E. f_equal. apply Ha2. lia. }
  destruct (N.leb_spec 256 b1); [discriminate|].
  unfold lead_count.
  destruct (N.ltb_spec b1 192); [discriminate|].
  destruct (N.ltb_spec b1 224).
  { cbn [Nat.eqb Nat.ltb Nat.leb orb pred].
    destruct r1 as [|b2 r2]; [discriminate|].
    cbn [length Nat.leb firstn skipn forallb andb utf8_value].
    unfold is_cont, in_range, utf16. cmp_split; try discriminate.
    apply Step; simpl in *; lia. }
  destruct (N.ltb_spec b1 240).
  { cbn [Nat.eqb Nat.ltb Nat.leb orb pred].
    destruct r1 as [|b2 [|b3 r3]]; try discriminate.
    cbn [length Nat.leb firstn skipn forallb andb utf8_value].
    unfold is_cont, in_range, utf16. cmp_split; try discriminate.
    all: apply Step; simpl in *; lia. }
  destruct (N.ltb_spec b1 248).
  { cbn [Nat.eqb Nat.ltb Nat.leb orb pred].
    destruct r1 as [|b2 [|b3 [|b4 r4]]]; try discriminate.
    cbn [length Nat.leb firstn skipn forallb andb utf8_value].
    unfold is_cont, in_range, utf16. cmp_split; try discriminate.
    all: apply Step; simpl in *; lia. }
  discriminate.
Qed.

(** X2. On a string [fixMojibake] returns a string that is never longer
    than its argument, and of the same length only when it is the argument
    itself: a repair always shortens the text. *)
Theorem fixMojibake_shortens :
  forall text,
    exists r, fixMojibake (JStr text) = JStr r /\
              (length r <= length text)%nat /\
              (length r = length text -> r = text).
Proof.
  intros text. rewrite fixMojibake_string. unfold decodeURIComponent.
  destruct (Decode (length (escape text)) (escape text)) as [r|e] eqn:E.
  - exists r. split; [reflexivity|].
    exact (Decode_escape_shorter (length text) text _ r (le_n _)
             (escape_length text) E).
  - exists text. auto.
Qed.

(** ** Which texts the repair changes *)

(** A successful decoding of a text that holds a code unit outside ASCII is
    shorter than the text. *)
Lemma Decode_escape_strict (n : nat) :
  forall t f r, (length t <= n)%nat -> (length t <= f)%nat ->
    Decode f (escape t) = Normal r ->
    existsb (fun c => 128 <=? c) t = true ->
    (length r < length t)%nat.
Proof.
  clear Number_isZero Number_toString toUpperCase_nonascii.
  induction n as [|n IH]; intros t f r Hn Hf.
  { destruct t; [|simpl in Hn; lia]. intros _ H. discriminate H. }
  destruct t as [|b1 r1]; [intros _ H; discriminate H|].
  destruct f as [|f]; [simpl in Hf; lia|].
  simpl in Hn, Hf. rewrite Decode_escape_cons.
  assert (Step : forall (out rest : jsstring),
            (length rest <= f)%nat ->
            (length out + length rest < S (length r1))%nat ->
            map_normal (app out) (Decode f (escape rest)) = Normal r ->
            (length r < length (b1 :: r1))%nat).
  { intros out rest H2 H3 H.
    apply map_normal_inv in H as (a & Ha & ->).
    apply (Decode_escape_shorter (length rest)) in Ha as [Ha _]; [|lia..].
    rewrite length_app. simpl. lia. }
  destruct (N.ltb_spec b1 128).
  { intros Hd He. cbn [existsb] in He.
    destruct (N.leb_spec 128 b1); [lia|]. cbn [orb] in He.
    apply map_normal_inv in Hd as (a & Ha & ->).
    apply IH in Ha; [|lia..|exact He]. simpl. lia. }
  intros Hd _. revert Hd.
  destruct (N.leb_spec 256 b1); [discriminate|].
  unfold lead_count.
  destruct (N.ltb_spec b1 192); [discriminate|].
  destruct (N.ltb_spec b1 224).
  { cbn [Nat.eqb Nat.ltb Nat.leb orb pred].
    destruct r1 as [|b2 r2]; [discriminate|].
    cbn [length Nat.leb firstn skipn forallb andb utf8_value].
    unfold is_cont, in_range, utf16. cmp_split; try discriminate.
    apply Step; simpl in *; lia. }
  destruct (N.ltb_spec b1 240).
  { cbn [Nat.eqb Nat.ltb Nat.leb orb pred].
    destruct r1 as [|b2 [|b3 r3]]; try discriminate.
    cbn [length Nat.leb firstn skipn forallb andb utf8_value].
    unfold is_cont, in_range, utf16. cmp_split; try discriminate.
    all: apply Step; simpl in *; lia. }
  destruct (N.ltb_spec b1 248).
  { cbn [Nat.eqb Nat.ltb Nat.leb orb pred].
    destruct r1 as [|b2 [|b3 [|b4 r4]]]; try discriminate.
    cbn [length Nat.leb firstn skipn forallb andb utf8_value].
    unfold is_cont, in_range, utf16. cmp_split; try discriminate.
    all: apply Step; simpl in *; lia. }
  discriminate.
Qed.

(** Text of the double-encoded shape is decoded to a shorter text. *)
Lemma fixMojibake_double_encoded (text : jsstring) :
  double_encoded_shape text = true ->
  exists r, fixMojibake (JStr text) = JStr r /\ (length r < length text)%nat.
Proof.
  unfold double_encoded_shape. intros H.
  apply andb_true_iff in H as [H Hw]. apply andb_true_iff in H as [_ He].
  rewrite fixMojibake_string. unfold decodeURIComponent.
  pose proof (Decode_escape_wf (length text) text (length (escape text))
                (le_n _) (escape_length text)) as D.
  rewrite Hw in D. destruct D as [r D]. rewrite D.
  exists r. split; [reflexivity|].
  exact (Decode_escape_strict (length text) text (length (escape text)) r
           (le_n _) (escape_length text) D He).
Qed.

Lemma fixMojibake_changes_iff (text : jsstring) :
  fixMojibake (JStr text) = JStr text <-> double_encoded_shape text = false.
Proof.
  split.
  - intros H. destruct (double_encoded_shape text) eqn:E; [exfalso|reflexivity].
    destruct (fixMojibake_double_encoded text E) as (r & Hr & Hlen).
    rewrite H in Hr. injection Hr as <-. lia.
  - apply fixMojibake_clean.
Qed.

(** C9 (amended).  On a string [fixMojibake] never raises and returns a
    string.  It returns the text itself exactly when the text does not
    have the double-encoded shape: all code units below 256, one of them
    above 127, and the code units read as octets well-formed UTF-8.  So
    ASCII text, text with a code unit outside the single-octet range and
    text whose octets are not well-formed UTF-8 (as most accented Latin-1
    text) come back identical.  Text of that shape is decoded to a shorter
    text whether or not it was correct before: the two octets of an [e]
    with acute accent are repaired, and the correct text of a capital [E]
    with acute accent followed by a no-break space loses both for the one
    character U+0260. *)
Theorem fixMojibake_clean_text :
  (forall text, exists r, fixMojibake (JStr text) = JStr r) /\
  (forall text,
     fixMojibake (JStr text) = JStr text <-> double_encoded_shape text = false) /\
  (forall text,
     double_encoded_shape text = true ->
     exists r, fixMojibake (JStr text) = JStr r /\ (length r < length text)%nat) /\
  (forall text,
     forallb (fun c => c <? 128) text = true ->
     fixMojibake (JStr text) = JStr text) /\
  (forall text,
     existsb (fun c => 256 <=? c) text = true ->
     fixMojibake (JStr text) = JStr text) /\
  (forall text,
     utf8_wf text = false -> fixMojibake (JStr text) = JStr text) /\
  fixMojibake (JStr [99; 97; 102; 233]) = JStr [99; 97; 102; 233] /\
  fixMojibake (JStr [55357; 56837]) = JStr [55357; 56837] /\
  fixMojibake (JStr [195; 169]) = JStr [233] /\
  fixMojibake (JStr [67; 65; 70; 201; 160; 33]) = JStr [67; 65; 70; 608; 33].
Proof.
  split.
  { intros text. rewrite fixMojibake_string.
    destruct (decodeURIComponent (escape text)); eauto. }
  split; [exact fixMojibake_changes_iff|].
  split; [exact fixMojibake_double_encoded|].
  split; [exact fixMojibake_ascii|].
  split; [exact fixMojibake_wide|].
  split; [exact fixMojibake_not_wf|].
  repeat split; vm_compute; reflexivity.
Qed.

(** ** The cleaned line *)

Lemma drop_ws_nil_iff (s : jsstring) : drop_ws s = [] <-> forallb is_ws s = true.
Proof.
  induction s as [|c s IH]; simpl; [tauto|].
  destruct (is_ws c); simpl; [exact IH|]. split; discriminate.
Qed.

Lemma drop_ws_head (s : jsstring) :
  match drop_ws s with
  | c :: _ => is_ws c = false
  | [] => True
  end.
Proof.
  induction s as [|c s IH]; simpl; [exact I|].
  destruct (is_ws c) eqn:E; [exact IH|exact E].
Qed.

Lemma forallb_is_ws_rev (s : jsstring) :
  forallb is_ws (rev s) = forallb is_ws s.
Proof.
  induction s as [|c s IH]; simpl; [reflexivity|].
  rewrite forallb_app, IH. simpl. rewrite andb_true_r. apply andb_comm.
Qed.

Lemma trim_nil_iff (s : jsstring) : trim s = [] <-> forallb is_ws s = true.
Proof.
  unfold trim. split.
  - intros H. apply (f_equal (@rev N)) in H. rewrite rev_involutive in H.
    simpl in H. apply drop_ws_nil_iff in H. rewrite forallb_is_ws_rev in H.
    pose proof (drop_ws_head s) as Hh. apply drop_ws_nil_iff.
    destruct (drop_ws s) as [|c t]; [reflexivity|].
    simpl in H. rewrite Hh in H. discriminate.
  - intros H. apply drop_ws_nil_iff in H. rewrite H. reflexivity.
Qed.

Lemma trim_no_leading_ws (s : jsstring) : drop_ws (trim s) = trim s.
Proof.
  unfold trim.
  pose proof (drop_ws_head s) as Hh.
  destruct (drop_ws s) as [|c t] eqn:E; [reflexivity|].
  assert (G : forall l, exists u, drop_ws (l ++ [c]) = u ++ [c]).
  { induction l as [|x l [u IH]]; simpl.
    - rewrite Hh. exists []. reflexivity.
    - destruct (is_ws x); [eauto|]. exists (x :: l). reflexivity. }
  change (rev (c :: t)) with (rev t ++ [c]).
  destruct (G (rev t)) as [u Hu]. rewrite Hu.
  rewrite rev_app_distr. simpl. rewrite Hh. reflexivity.
Qed.

Lemma cleanText_nil_iff (s : jsstring) : cleanText s = [] <-> s = [].
Proof. destruct s; simpl; split; (reflexivity || discriminate). Qed.

Lemma cleanText_clean (s : jsstring) :
  Forall (fun c => c <> 8239 /\ c <> 160) (cleanText s).
Proof.
  unfold cleanText, replace_all. rewrite map_map.
  induction s as [|c s IH]; simpl; constructor; [|exact IH].
  destruct (N.eqb_spec c 8239).
  - simpl. split; discriminate.
  - destruct (N.eqb_spec c 160); split; first [assumption | discriminate].
Qed.

(** X3. The line that the header patterns are tried on,
    [cleanText(line.trim())], neither starts nor ends with white space,
    holds no narrow or plain no-break space, and is empty (so that the line
    is skipped) exactly when the line is all white space; [cleanText]
    itself keeps the length of its argument. *)
Theorem cleaned_line_shape :
  forall line,
    drop_ws (cleanText (trim line)) = cleanText (trim line) /\
    no_trailing_ws (cleanText (trim line)) /\
    Forall (fun c => c <> 8239 /\ c <> 160) (cleanText (trim line)) /\
    (cleanText (trim line) = [] <-> forallb is_ws line = true) /\
    length (cleanText line) = length line.
Proof.
  intros line. split; [|split; [|split; [|split]]].
  - rewrite drop_ws_cleanText, trim_no_leading_ws. reflexivity.
  - apply cleaned_no_trailing_ws.
  - apply cleanText_clean.
  - rewrite cleanText_nil_iff. apply trim_nil_iff.
  - unfold cleanText, replace_all. rewrite !length_map. reflexivity.
Qed.

(** ** The line loop as a grouping *)

Lemma message_eta (m : Message jsstring) :
  mkMessage (date m) (time m) (sender m) (content m ++ []) = m.
Proof. destruct m. simpl. rewrite app_nil_r. reflexivity. Qed.

Lemma forEach_line_step_group (lines : list jsstring) :
  forall st,
    exists st',
      forEach line_step lines st = Normal st' /\
      push_current st' =
        flush_with st
          (group (filter (fun c => match c with [] => false | _ :: _ => true end)
                    (map (fun line => cleanText (trim line)) lines))).
Proof.
  induction lines as [|line lines IH]; intros st.
  - exists st. split; [reflexivity|]. unfold push_current, flush_with. simpl.
    destruct (st_current st) as [m|]; [|rewrite app_nil_r; reflexivity].
    rewrite message_eta. reflexivity.
  - cbn [forEach map filter].
    destruct (cleanText (trim line)) as [|c l] eqn:Ec.
    + unfold line_step. rewrite Ec. cbn [bind]. apply IH.
    + destruct (extract patterns (c :: l)) as [ex|] eqn:Ex.
      * rewrite <- Ec in Ex.
        destruct (line_step_header st line ex Ex) as (sd & bd & Hs & Hb & ->).
        cbn [bind].
        match goal with
        | |- context [forEach line_step lines ?s1] => destruct (IH s1) as (st' & -> & Hp)
        end.
        exists st'. split; [reflexivity|]. rewrite Hp. rewrite Ec in Ex.
        cbn [group]. rewrite Ex.
        match goal with
        | |- context [group ?x] => destruct (group x) as [msgs lead]
        end.
        unfold flush_with at 1. cbn [st_current st_messages date time sender content
                                       fst snd].
        unfold header_message, trimmed. rewrite Hs, Hb.
        unfold flush_with, push_current. cbn [fst snd].
        destruct (st_current st) as [m|].
        -- rewrite message_eta, <- app_assoc. reflexivity.
        -- reflexivity.
      * rewrite line_step_no_header by (rewrite Ec; congruence).
        cbn [bind]. rewrite Ec.
        destruct (IH (continue_or_drop st (c :: l))) as (st' & -> & Hp).
        exists st'. split; [reflexivity|]. rewrite Hp.
        cbn [group]. rewrite Ex.
        match goal with
        | |- context [group ?x] => destruct (group x) as [msgs lead]
        end.
        unfold flush_with, continue_or_drop. cbn [fst snd].
        destruct (st_current st) as [m|] eqn:Em;
          cbn [st_current st_messages date time sender content];
          rewrite ?Em; [|reflexivity].
        rewrite <- app_assoc. reflexivity.
Qed.

Lemma parse_lines_group (rawText : jsstring) :
  parse_lines rawText =
    Normal (fst (group (cleaned_lines rawText)),
            first_seen (map sender (fst (group (cleaned_lines rawText))))).
Proof.
  destruct (parse_lines rawText) as [[msgs ps]|e] eqn:E.
  - pose proof (parse_lines_participants _ _ _ E) as Hp. subst ps.
    unfold parse_lines in E.
    destruct (forEach_line_step_group (split 10 rawText) (mkState [] [] None))
      as (st' & Hf & Hg).
    rewrite Hf in E. cbn [bind] in E. injection E as E _.
    rewrite Hg in E. unfold flush_with in E. simpl in E.
    unfold cleaned_lines. rewrite E. reflexivity.
  - destruct (parse_lines_normal rawText) as [r Hr]. congruence.
Qed.

Lemma group_length (cls : list jsstring) :
  length (fst (group cls)) = length (filter is_header cls).
Proof.
  induction cls as [|c cls IH]; [reflexivity|].
  cbn [group filter]. unfold is_header at 1.
  destruct (group cls) as [msgs lead]. simpl in IH.
  destruct (extract patterns c); simpl; rewrite IH; reflexivity.
Qed.

(** X4. The accumulate-and-flush loop of [parseChat] computes a grouping of
    the cleaned non-blank lines from the right: every header line opens a
    message whose content is its trimmed body followed by a newline and the
    cleaned text of each line up to the next header, and lines before the
    first header are dropped.  There are exactly as many messages as header
    lines. *)
Theorem line_loop_groups :
  forall rawText,
    parse_lines rawText =
      Normal (fst (group (cleaned_lines rawText)),
              first_seen (map sender (fst (group (cleaned_lines rawText))))) /\
    length (fst (group (cleaned_lines rawText))) =
      length (filter is_header (cleaned_lines rawText)).
Proof.
  intros rawText. split; [apply parse_lines_group|apply group_length].
Qed.

(** ** The content of the messages of a result *)

Lemma group_blocks (cls : list jsstring) :
  Forall2 (fun b m =>
             exists ex, extract patterns (fst b) = Some ex /\
                        m = header_message ex (continuation (snd b)))
          (fst (blocks cls)) (fst (group cls)) /\
  snd (group cls) = continuation (snd (blocks cls)).
Proof.
  induction cls as [|c cls [IH1 IH2]]; [split; [constructor|reflexivity]|].
  cbn [blocks group]. unfold is_header.
  destruct (blocks cls) as [bs lead]. destruct (group cls) as [msgs glead].
  cbn [fst snd] in *. subst glead.
  destruct (extract patterns c) as [ex|] eqn:Ex; cbn [fst snd].
  - split; [|reflexivity]. constructor; [|exact IH1].
    exists ex. split; [exact Ex|reflexivity].
  - split; [exact IH1|reflexivity].
Qed.

Lemma blocks_headers (P : jsstring -> Prop) (cls : list jsstring) :
  Forall P cls -> Forall (fun b => P (fst b)) (fst (blocks cls)).
Proof.
  induction cls as [|c cls IH]; intros H; [constructor|].
  inversion H as [|? ? Hc Hcls]; subst. specialize (IH Hcls).
  cbn [blocks]. destruct (blocks cls) as [bs lead]. cbn [fst] in IH.
  destruct (is_header c); cbn [fst]; [constructor; assumption|exact IH].
Qed.

Lemma cleaned_lines_no_trailing_ws (rawText : jsstring) :
  Forall no_trailing_ws (cleaned_lines rawText).
Proof.
  apply Forall_forall. intros c Hc. unfold cleaned_lines in Hc.
  apply filter_In in Hc as [Hc _]. apply in_map_iff in Hc as (line & <- & _).
  apply cleaned_no_trailing_ws.
Qed.

Lemma Forall2_strengthen {A B} (P : A -> Prop) (R R' : A -> B -> Prop) :
  (forall a b, P a -> R a b -> R' a b) ->
  forall l l', Forall P l -> Forall2 R l l' -> Forall2 R' l l'.
Proof.
  intros H l l' HP HR. induction HR as [|a b l l' Hab HR IH]; [constructor|].
  inversion HP; subst. constructor; auto.
Qed.

(** The message of a header that only the generic pattern matches has a
    content that is not empty. *)
Lemma generic_header_content (h : jsstring) (ex : extracted) (lead : jsstring) :
  no_trailing_ws h ->
  extract patterns h = Some ex ->
  extract date_patterns h = None ->
  content (header_message ex lead) <> [].
Proof.
  intros Hnt Hex Hd. rewrite (extract_generic_only _ Hd) in Hex.
  destruct (regex_match re_generic h) as [m|] eqn:Hg; [|discriminate].
  injection Hex as <-.
  destruct (generic_content_starts h m Hnt Hg) as (c2 & d & Hc & Hws).
  unfold header_message. cbn [content parse generic x_content]. rewrite Hc.
  cbn [trimmed]. intros E. apply app_eq_nil in E as [E _].
  exact (trim_nonempty c2 d Hws E).
Qed.

Lemma continuation_nonempty (conts : list jsstring) :
  conts <> [] -> continuation conts <> [].
Proof. destruct conts; [congruence|discriminate]. Qed.

(** C7 (amended).  The messages of a result of line parsing are, in order,
    those of the header lines of the text, each with the lines that follow
    it up to the next header: a message is made from the extraction of its
    header, and its content is the trimmed body of the header followed by
    its continuation lines.  The content is not empty when only the generic
    pattern matches the header, and when the header has a continuation
    line.  When the [try] block gives no result, these are the messages of
    the result of [parseChat].  (The header of a date-bearing pattern with
    nothing after the sender's colon and no continuation line gives an
    empty content.) *)
Theorem generic_content_nonempty :
  forall rawText,
    exists msgs ps,
      parse_lines rawText = Normal (msgs, ps) /\
      ((forall r, try_json rawText <> Normal (Some r)) ->
       parseChat rawText = Normal (mkResult (map lift_content msgs) ps)) /\
      Forall2 (fun b m =>
                 (exists ex, extract patterns (fst b) = Some ex /\
                             m = header_message ex (continuation (snd b))) /\
                 (extract date_patterns (fst b) = None -> content m <> []) /\
                 (snd b <> [] -> content m <> []))
              (fst (blocks (cleaned_lines rawText))) msgs.
Proof.
  intros rawText.
  exists (fst (group (cleaned_lines rawText))),
         (first_seen (map sender (fst (group (cleaned_lines rawText))))).
  split; [apply parse_lines_group|]. split.
  - intros Hno. unfold parseChat. rewrite parse_lines_group.
    destruct (try_json rawText) as [[r|]|e]; [|reflexivity..].
    exfalso. exact (Hno r eq_refl).
  - refine (Forall2_strengthen (fun b => no_trailing_ws (fst b)) _ _ _ _ _
              (blocks_headers _ _ (cleaned_lines_no_trailing_ws rawText))
              (proj1 (group_blocks (cleaned_lines rawText)))).
    intros b m Hnt (ex & Hex & ->).
    split; [exists ex; split; [exact Hex|reflexivity]|]. split.
    + intros Hd. exact (generic_header_content _ _ _ Hnt Hex Hd).
    + intros Hc. unfold header_message. cbn [content]. intros E.
      apply app_eq_nil in E as [_ E]. exact (continuation_nonempty _ Hc E).
Qed.

(** ** White space around line breaks *)

Lemma split_nonempty (sep : N) (s : jsstring) : split sep s <> [].
Proof.
  destruct s as [|c s]; simpl; [discriminate|].
  destruct (c =? sep); [discriminate|]. destruct (split sep s); discriminate.
Qed.

Lemma split_app (sep : N) (a b : jsstring) :
  split sep (a ++ sep :: b) = split sep a ++ split sep b.
Proof.
  induction a as [|c a IH]; simpl.
  - rewrite N.eqb_refl. reflexivity.
  - destruct (c =? sep); [rewrite IH; reflexivity|].
    rewrite IH. pose proof (split_nonempty sep a) as Hn.
    destruct (split sep a) as [|l ls]; [congruence|]. reflexivity.
Qed.

Lemma split_snoc (sep c : N) (a : jsstring) :
  (c =? sep) = false ->
  exists init lst,
    split sep a = init ++ [lst] /\ split sep (a ++ [c]) = init ++ [lst ++ [c]].
Proof.
  intros Hc. induction a as [|x a (init & lst & H1 & H2)]; simpl.
  - rewrite Hc. exists [], []. split; reflexivity.
  - destruct (x =? sep).
    + exists ([] :: init), lst. rewrite H1, H2. split; reflexivity.
    + rewrite H1, H2. destruct init as [|i0 init]; simpl.
      * exists [], (x :: lst). split; reflexivity.
      * exists ((x :: i0) :: init), lst. split; reflexivity.
Qed.

Lemma trim_snoc_ws (l : jsstring) (c : N) :
  is_ws c = true -> trim (l ++ [c]) = trim l.
Proof.
  intros Hc. unfold trim.
  assert (G : drop_ws (l ++ [c]) = [] /\ drop_ws l = [] \/
              drop_ws (l ++ [c]) = drop_ws l ++ [c]).
  { induction l as [|x l IH]; simpl.
    - rewrite Hc. left. split; reflexivity.
    - destruct (is_ws x); [exact IH|]. right. reflexivity. }
  destruct G as [[-> ->]| ->]; [reflexivity|].
  rewrite rev_app_distr. simpl. rewrite Hc. reflexivity.
Qed.

Lemma trim_cons_ws (l : jsstring) (c : N) :
  is_ws c = true -> trim (c :: l) = trim l.
Proof. intros Hc. unfold trim. simpl. rewrite Hc. reflexivity. Qed.

Lemma cleaned_lines_app (a b : jsstring) :
  cleaned_lines (a ++ 10 :: b) = cleaned_lines a ++ cleaned_lines b.
Proof.
  unfold cleaned_lines. rewrite split_app, map_app, filter_app. reflexivity.
Qed.

Lemma cleaned_lines_snoc_ws (a : jsstring) (c : N) :
  is_ws c = true -> cleaned_lines (a ++ [c]) = cleaned_lines a.
Proof.
  intros Hc. destruct (c =? 10) eqn:E.
  - apply N.eqb_eq in E. subst c. rewrite cleaned_lines_app.
    apply app_nil_r.
  - unfold cleaned_lines.
    destruct (split_snoc 10 c a E) as (init & lst & -> & ->).
    rewrite !map_app. simpl. rewrite trim_snoc_ws by assumption. reflexivity.
Qed.

Lemma cleaned_lines_cons_ws (b : jsstring) (c : N) :
  is_ws c = true -> cleaned_lines (c :: b) = cleaned_lines b.
Proof.
  intros Hc. destruct (c =? 10) eqn:E.
  - apply N.eqb_eq in E. subst c.
    change (10 :: b) with ([] ++ 10 :: b). rewrite cleaned_lines_app. reflexivity.
  - unfold cleaned_lines. simpl. rewrite E.
    pose proof (split_nonempty 10 b) as Hn.
    destruct (split 10 b) as [|l ls]; [congruence|].
    simpl. rewrite trim_cons_ws by assumption. reflexivity.
Qed.

Lemma cleaned_lines_ws_right (ws : jsstring) :
  forallb is_ws ws = true -> forall a, cleaned_lines (a ++ ws) = cleaned_lines a.
Proof.
  induction ws as [|c ws IH]; intros H a; [rewrite app_nil_r; reflexivity|].
  simpl in H. apply andb_true_iff in H as [Hc H].
  change (a ++ c :: ws) with (a ++ [c] ++ ws). rewrite app_assoc.
  rewrite IH by assumption. apply cleaned_lines_snoc_ws. exact Hc.
Qed.

Lemma cleaned_lines_ws_left (ws : jsstring) (b : jsstring) :
  forallb is_ws ws = true -> cleaned_lines (ws ++ b) = cleaned_lines b.
Proof.
  induction ws as [|c ws IH]; intros H; [reflexivity|].
  simpl in H. apply andb_true_iff in H as [Hc H]. simpl.
  rewrite cleaned_lines_cons_ws by assumption. apply IH. exact H.
Qed.

Lemma parse_lines_cleaned (t1 t2 : jsstring) :
  cleaned_lines t1 = cleaned_lines t2 -> parse_lines t1 = parse_lines t2.
Proof. intros H. rewrite !parse_lines_group, H. reflexivity. Qed.

(** X5. Line parsing sees the text only through its cleaned non-blank
    lines.  White space next to a line break changes nothing: a carriage
    return or blanks before it, indentation after it, and any number of
    blank lines, also between the lines of one message. *)
Theorem line_parsing_ignores_blanks :
  forall ws,
    forallb is_ws ws = true ->
    (forall a b, parse_lines (a ++ ws ++ 10 :: b) = parse_lines (a ++ 10 :: b)) /\
    (forall a b, parse_lines (a ++ 10 :: ws ++ b) = parse_lines (a ++ 10 :: b)) /\
    (forall t1 t2, cleaned_lines t1 = cleaned_lines t2 ->
                   parse_lines t1 = parse_lines t2).
Proof.
  intros ws H. split; [|split].
  - intros a b. apply parse_lines_cleaned.
    rewrite app_assoc, !cleaned_lines_app, cleaned_lines_ws_right by assumption.
    reflexivity.
  - intros a b. apply parse_lines_cleaned.
    rewrite !cleaned_lines_app, cleaned_lines_ws_left by assumption. reflexivity.
  - exact parse_lines_cleaned.
Qed.

(** ** The sender of a generic header *)

Lemma generic_tail_sender (line sd r1 : jsstring) (m : captures) :
  generic_tail line sd r1 = Some m -> get_cap 1 m = Some sd.
Proof.
  unfold generic_tail. intros H.
  apply rep_inv in H as (n1 & _ & _ & _ & _ & H).
  apply rep_inv in H as (n2 & _ & _ & _ & _ & H).
  apply Some_inj in H. subst m.
  rewrite !get_set_cap_other by discriminate. apply get_set_cap_same.
Qed.

Lemma drop_ws_forallb (p : N -> bool) (s : jsstring) :
  forallb p s = true -> forallb p (drop_ws s) = true.
Proof.
  induction s as [|c s IH]; simpl; [reflexivity|].
  intros H. apply andb_true_iff in H as [Hc Hs].
  destruct (is_ws c); [auto|]. simpl. rewrite Hc. exact Hs.
Qed.

Lemma forallb_rev (p : N -> bool) (s : jsstring) :
  forallb p (rev s) = forallb p s.
Proof.
  induction s as [|c s IH]; simpl; [reflexivity|].
  rewrite forallb_app, IH. simpl. rewrite andb_true_r. apply andb_comm.
Qed.

Lemma trim_forallb (p : N -> bool) (s : jsstring) :
  forallb p s = true -> forallb p (trim s) = true.
Proof.
  intros H. unfold trim. rewrite forallb_rev. apply drop_ws_forallb.
  rewrite forallb_rev. apply drop_ws_forallb. exact H.
Qed.

Lemma trim_length (s : jsstring) : (length (trim s) <= length s)%nat.
Proof.
  unfold trim. rewrite length_rev.
  pose proof (drop_ws_length (rev (drop_ws s))) as H1.
  pose proof (drop_ws_length s) as H2. rewrite length_rev in H1. lia.
Qed.

Lemma trim_no_trailing_ws (s : jsstring) : no_trailing_ws (trim s).
Proof.
  unfold no_trailing_ws, trim. rewrite rev_involutive. apply drop_ws_idem.
Qed.

Lemma Set_add_In (x : jsstring) (set : list jsstring) : In x (Set_add x set).
Proof.
  unfold Set_add. destruct (existsb (jseqb x) set) eqn:E.
  - apply existsb_exists in E as (y & Hy & Hxy). apply jseqb_eq in Hxy.
    subst y. exact Hy.
  - apply in_or_app. right. left. reflexivity.
Qed.

(** X6. The sender of a message created from a line that only the generic
    pattern matches is the trimmed text before the first colon of the
    cleaned line.  It is not empty, has at most 31 code units, holds no
    colon, neither starts nor ends with white space, and is among the
    participants. *)
Theorem generic_sender_shape :
  forall st line m,
    extract date_patterns (cleanText (trim line)) = None ->
    regex_match re_generic (cleanText (trim line)) = Some m ->
    exists st' msg before rest,
      line_step st line = Normal st' /\ st_current st' = Some msg /\
      cleanText (trim line) = before ++ 58 :: rest /\
      forallb not_colon before = true /\
      sender msg = trim before /\
      sender msg <> [] /\ (length (sender msg) <= 31)%nat /\
      forallb not_colon (sender msg) = true /\
      drop_ws (sender msg) = sender msg /\ no_trailing_ws (sender msg) /\
      In (sender msg) (st_participants st').
Proof.
  intros st line m Hd Hg.
  destruct (line_step_generic st line m Hd Hg) as (sd & bd & H1 & _ & Hstep).
  apply generic_match_inv in Hg as (c & pre & r1 & Hs & Hc & Hp & Hl & Ht).
  apply generic_tail_sender in Ht. rewrite Ht in H1. apply Some_inj in H1.
  subst sd. apply orb_false_iff in Hc as [Hws Hcol].
  assert (Hnc : forallb not_colon (c :: pre) = true).
  { simpl. unfold not_colon at 1. rewrite Hcol. exact Hp. }
  eexists. eexists. exists (c :: pre), r1.
  split; [exact Hstep|]. split; [reflexivity|]. cbn [sender st_participants].
  split; [exact Hs|]. split; [exact Hnc|]. split; [reflexivity|].
  split; [apply trim_nonempty; exact Hws|].
  split; [pose proof (trim_length (c :: pre)); simpl in *; lia|].
  split; [apply trim_forallb; exact Hnc|].
  split; [apply trim_no_leading_ws|].
  split; [apply trim_no_trailing_ws|apply Set_add_In].
Qed.

(** ** Fenced documents *)

Lemma try_json_unfenced (r1 r2 : jsstring) :
  unfenced r1 = unfenced r2 -> try_json r1 = try_json r2.
Proof.
  unfold unfenced, try_json. cbv zeta. intros ->. reflexivity.
Qed.

Lemma trim_id (s : jsstring) :
  drop_ws s = s -> no_trailing_ws s -> trim s = s.
Proof.
  unfold no_trailing_ws, trim. intros -> ->. apply rev_involutive.
Qed.

Lemma drop_ws_app_ws (ws s : jsstring) :
  forallb is_ws ws = true -> drop_ws (ws ++ s) = drop_ws s.
Proof.
  induction ws as [|c ws IH]; simpl; [reflexivity|].
  intros H. apply andb_true_iff in H as [-> H]. auto.
Qed.

Lemma is_ws_not_letter (c : N) :
  is_ws c = true -> ascii_upper c = c /\ c <> 74 /\ c <> 96.
Proof.
  unfold is_ws, ascii_upper, in_range.
  cmp_split; intros Hw; try discriminate Hw; repeat split; lia.
Qed.

Lemma starts_with_app (p s : jsstring) : starts_with p (p ++ s) = true.
Proof.
  induction p as [|c p IH]; simpl; [reflexivity|]. rewrite N.eqb_refl. exact IH.
Qed.

Lemma starts_with_ci_app (p t s : jsstring) :
  map ascii_upper t = map ascii_upper p -> starts_with_ci p (t ++ s) = true.
Proof.
  revert t. induction p as [|c p IH]; intros [|x t] H; simpl in *;
    try discriminate; [reflexivity|].
  injection H as Hx Ht. rewrite Hx, N.eqb_refl. simpl. apply IH. exact Ht.
Qed.

Lemma strip_json_fence_other (x : N) (s : jsstring) :
  ascii_upper x <> 74 -> strip_json_fence (fence ++ x :: s) = fence ++ x :: s.
Proof.
  intros Hx. unfold strip_json_fence.
  change (str "json") with [106; 115; 111; 110].
  cbn [fence app starts_with_ci].
  change (ascii_upper 96) with 96. change (ascii_upper 106) with 74.
  rewrite !N.eqb_refl. cbn [andb].
  destruct (N.eqb_spec 74 (ascii_upper x)); [congruence|reflexivity].
Qed.

Lemma unfenced_in_fence (tag ws1 ws2 d : jsstring) (c : N) :
  tag = [] \/ map ascii_upper tag = str "JSON" ->
  forallb is_ws ws1 = true -> forallb is_ws ws2 = true ->
  c = 123 \/ c = 91 ->
  no_trailing_ws (c :: d) ->
  unfenced (in_fence tag ws1 (c :: d) ws2) = c :: d.
Proof.
  intros Htag H1 H2 Hc Hd. unfold unfenced, in_fence.
  assert (Hcw : is_ws c = false) by (destruct Hc; subst; reflexivity).
  assert (Hc96 : (96 =? c) = false) by (destruct Hc; subst; reflexivity).
  assert (Htrim : trim (fence ++ tag ++ ws1 ++ (c :: d) ++ ws2 ++ fence)
                  = fence ++ tag ++ ws1 ++ (c :: d) ++ ws2 ++ fence).
  { apply trim_id; [reflexivity|]. unfold no_trailing_ws.
    rewrite !app_assoc, rev_app_distr. reflexivity. }
  rewrite Htrim.
  assert (Hj : strip_json_fence (fence ++ tag ++ ws1 ++ (c :: d) ++ ws2 ++ fence) =
               (c :: d) ++ ws2 ++ fence \/
               tag = [] /\
               strip_json_fence (fence ++ tag ++ ws1 ++ (c :: d) ++ ws2 ++ fence) =
               fence ++ ws1 ++ (c :: d) ++ ws2 ++ fence).
  { destruct Htag as [->|Ht].
    - right. split; [reflexivity|]. cbn [app].
      destruct ws1 as [|w ws1]; cbn [app].
      + apply strip_json_fence_other. destruct Hc; subst; discriminate.
      + apply strip_json_fence_other.
        simpl in H1. apply andb_true_iff in H1 as [Hw _].
        apply is_ws_not_letter in Hw as (Hu & H74 & _). congruence.
    - left. unfold strip_json_fence.
      assert (Hl : length tag = 4%nat).
      { apply (f_equal (@length N)) in Ht. rewrite length_map in Ht. exact Ht. }
      assert (Hs : starts_with_ci (fence ++ str "json")
                     (fence ++ tag ++ ws1 ++ (c :: d) ++ ws2 ++ fence) = true).
      { rewrite (app_assoc fence tag). apply starts_with_ci_app.
        rewrite !map_app, Ht. reflexivity. }
      rewrite Hs.
      destruct tag as [|t1 [|t2 [|t3 [|t4 [|t5 tag]]]]]; try discriminate Hl.
      cbn [fence app skipn]. rewrite drop_ws_app_ws by assumption.
      simpl. rewrite Hcw. reflexivity. }
  assert (Hf : strip_fence (strip_json_fence
                 (fence ++ tag ++ ws1 ++ (c :: d) ++ ws2 ++ fence)) =
               (c :: d) ++ ws2 ++ fence).
  { destruct Hj as [->|[-> ->]].
    - unfold strip_fence. cbn [fence app starts_with]. rewrite Hc96. reflexivity.
    - unfold strip_fence. rewrite starts_with_app.
      cbn [fence app skipn]. rewrite drop_ws_app_ws by assumption.
      simpl. rewrite Hcw. reflexivity. }
  rewrite Hf. unfold strip_trailing_fence.
  rewrite !app_assoc, rev_app_distr.
  change (rev fence) with fence. rewrite starts_with_app.
  change (skipn 3 (fence ++ rev ((c :: d) ++ ws2))) with (rev ((c :: d) ++ ws2)).
  rewrite rev_app_distr.
  rewrite drop_ws_app_ws by (rewrite forallb_is_ws_rev; assumption).
  rewrite Hd. apply rev_involutive.
Qed.

Lemma unfenced_bare (d : jsstring) (c : N) :
  c = 123 \/ c = 91 ->
  no_trailing_ws (c :: d) ->
  starts_with fence (rev (c :: d)) = false ->
  unfenced (c :: d) = c :: d.
Proof.
  intros Hc Hd Hf. unfold unfenced.
  assert (Hcw : is_ws c = false) by (destruct Hc; subst; reflexivity).
  rewrite trim_id; [|simpl; rewrite Hcw; reflexivity|exact Hd].
  assert (strip_json_fence (c :: d) = c :: d) as ->
    by (destruct Hc; subst; reflexivity).
  assert (strip_fence (c :: d) = c :: d) as ->
    by (destruct Hc; subst; reflexivity).
  unfold strip_trailing_fence. rewrite Hf. reflexivity.
Qed.

(** X7. A JSON document wrapped in a markdown fence, with or without the
    [json] tag in any letter case and with any white space inside the
    fence, takes the structured-data path exactly as the bare document
    does. *)
Theorem fenced_document :
  forall tag ws1 ws2 d c,
    tag = [] \/ map ascii_upper tag = str "JSON" ->
    forallb is_ws ws1 = true -> forallb is_ws ws2 = true ->
    c = 123 \/ c = 91 ->
    no_trailing_ws (c :: d) ->
    starts_with fence (rev (c :: d)) = false ->
    unfenced (in_fence tag ws1 (c :: d) ws2) = c :: d /\
    try_json (in_fence tag ws1 (c :: d) ws2) = try_json (c :: d).
Proof.
  intros tag ws1 ws2 d c Ht H1 H2 Hc Hd Hf.
  pose proof (unfenced_in_fence tag ws1 ws2 d c Ht H1 H2 Hc Hd) as E.
  split; [exact E|]. apply try_json_unfenced.
  rewrite E, unfenced_bare by assumption. reflexivity.
Qed.

(** ** Sides and processed messages *)

Lemma includes_In (l : list jsstring) (x : jsstring) :
  includes l x = true <-> In x l.
Proof.
  unfold includes. rewrite existsb_exists. split.
  - intros (y & Hy & E). apply jseqb_eq in E. subst. exact Hy.
  - intros H. exists x. split; [exact H|apply jseqb_refl].
Qed.

Lemma process_Some (mp : Mapping) (m : Message json) (p : Processed) :
  process mp m = Some p ->
  message p = m /\ on_a_side mp m = true /\ well_sided mp p.
Proof.
  unfold process, on_a_side, well_sided.
  destruct (jseqb (sender m) (leftOriginal mp)) eqn:El.
  - intros [= <-]. apply jseqb_eq in El. cbn.
    split; [reflexivity|]. split; [reflexivity|]. left. auto.
  - destruct (jseqb (sender m) (rightOriginal mp)) eqn:Er; [|discriminate].
    intros [= <-]. apply jseqb_eq in Er. apply jseqb_neq in El. cbn.
    split; [reflexivity|]. split; [reflexivity|]. right. auto.
Qed.

Lemma process_None (mp : Mapping) (m : Message json) :
  process mp m = None -> on_a_side mp m = false.
Proof.
  unfold process, on_a_side.
  destruct (jseqb (sender m) (leftOriginal mp)); [discriminate|].
  destruct (jseqb (sender m) (rightOriginal mp)); [discriminate|reflexivity].
Qed.

Lemma filter_map_process (mp : Mapping) (msgs : list (Message json)) :
  map message (filter_map (process mp) msgs) = filter (on_a_side mp) msgs /\
  Forall (well_sided mp) (filter_map (process mp) msgs).
Proof.
  induction msgs as [|m msgs [IH1 IH2]]; [split; [reflexivity|constructor]|].
  cbn [filter_map filter].
  destruct (process mp m) as [p|] eqn:Ep.
  - apply process_Some in Ep as (Hm & Hs & Hw). rewrite Hs. cbn [map].
    rewrite IH1, Hm. split; [reflexivity|]. constructor; assumption.
  - apply process_None in Ep. rewrite Ep. split; assumption.
Qed.

Lemma or_else_nonempty (a b : jsstring) : b <> [] -> or_else a b <> [].
Proof. destruct a; simpl; [auto|discriminate]. Qed.

Lemma getProcessedMessages_spec (rawText : jsstring) (mp : Mapping) :
  exists r ps,
    parseChat rawText = Normal r /\
    getProcessedMessages rawText mp = Normal ps /\
    map message ps = filter (on_a_side mp) (messages r) /\
    Forall (well_sided mp) ps.
Proof.
  destruct (parseChat_normal rawText) as [r Hr].
  exists r, (filter_map (process mp) (messages r)).
  split; [exact Hr|]. unfold getProcessedMessages. rewrite Hr.
  split; [reflexivity|]. apply filter_map_process.
Qed.

(** X8. [getProcessedMessages] returns, in their order, exactly the
    messages whose sender is one of the two chosen names, never raises, and
    puts a message on the left whenever its sender is the left name (also
    when both sides name the same participant).  When both names are
    non-empty, as [handleVisualize] requires, no display name is empty. *)
Theorem processed_messages :
  forall rawText mp,
    exists r ps,
      parseChat rawText = Normal r /\
      getProcessedMessages rawText mp = Normal ps /\
      map message ps = filter (on_a_side mp) (messages r) /\
      Forall (well_sided mp) ps /\
      (leftOriginal mp <> [] -> rightOriginal mp <> [] ->
       Forall (fun p => displayName p <> []) ps).
Proof.
  intros rawText mp.
  destruct (getProcessedMessages_spec rawText mp) as (r & ps & H1 & H2 & H3 & H4).
  exists r, ps. repeat (split; [assumption|]).
  intros Hl Hr. eapply Forall_impl; [|exact H4].
  intros p [(_ & _ & ->)|(_ & _ & _ & ->)]; apply or_else_nonempty; assumption.
Qed.

Lemma auto_assign_idem (ps : list jsstring) (mp : Mapping) :
  auto_assign ps (auto_assign ps mp) = auto_assign ps mp.
Proof.
  destruct ((negb (includes ps (leftOriginal mp))
             || negb (includes ps (rightOriginal mp)))
            && Nat.ltb 0 (length ps)) eqn:E.
  - destruct ps as [|p0 [|p1 ps]]; [discriminate E| |].
    + assert (H : auto_assign [p0] mp = mkMapping [] [] p0 p0)
        by (unfold auto_assign; rewrite E; reflexivity).
      rewrite H. unfold auto_assign. cbn [leftOriginal rightOriginal length].
      destruct ((negb (includes [p0] []) || negb (includes [p0] p0)) && Nat.ltb 0 1);
        reflexivity.
    + assert (H : auto_assign (p0 :: p1 :: ps) mp = mkMapping p1 p1 p0 p0)
        by (unfold auto_assign; rewrite E; reflexivity).
      rewrite H. unfold auto_assign. cbn [leftOriginal rightOriginal].
      assert (includes (p0 :: p1 :: ps) p1 = true) as ->
        by (apply includes_In; right; left; reflexivity).
      assert (includes (p0 :: p1 :: ps) p0 = true) as ->
        by (apply includes_In; left; reflexivity).
      reflexivity.
  - assert (H : auto_assign ps mp = mp)
      by (unfold auto_assign; rewrite E; reflexivity).
    rewrite !H. reflexivity.
Qed.

Lemma auto_assign_two (p0 p1 : jsstring) (rest : list jsstring) (mp : Mapping) :
  p0 <> p1 ->
  let mp' := auto_assign (p0 :: p1 :: rest) mp in
  In (leftOriginal mp') (p0 :: p1 :: rest) /\
  In (rightOriginal mp') (p0 :: p1 :: rest) /\
  (mp' = mp \/ mp' = mkMapping p1 p1 p0 p0 /\ leftOriginal mp' <> rightOriginal mp').
Proof.
  intros Hne. cbv zeta. unfold auto_assign.
  destruct (includes (p0 :: p1 :: rest) (leftOriginal mp)) eqn:El;
    destruct (includes (p0 :: p1 :: rest) (rightOriginal mp)) eqn:Er;
    cbn [negb orb andb length Nat.ltb Nat.leb leftOriginal rightOriginal].
  - apply includes_In in El, Er. auto.
  - split; [right; left; reflexivity|]. split; [left; reflexivity|].
    right. split; [reflexivity|congruence].
  - split; [right; left; reflexivity|]. split; [left; reflexivity|].
    right. split; [reflexivity|congruence].
  - split; [right; left; reflexivity|]. split; [left; reflexivity|].
    right. split; [reflexivity|congruence].
Qed.

Lemma auto_assign_one (p : jsstring) (mp : Mapping) :
  let mp' := auto_assign [p] mp in
  rightOriginal mp' = p /\ (mp' = mp \/ mp' = mkMapping [] [] p p).
Proof.
  cbv zeta. unfold auto_assign.
  destruct (includes [p] (leftOriginal mp)) eqn:El;
    destruct (includes [p] (rightOriginal mp)) eqn:Er;
    cbn [negb orb andb length Nat.ltb Nat.leb rightOriginal]; auto.
  apply includes_In in Er. destruct Er as [<-|[]]. auto.
Qed.

(** X9. After the effect on a changed non-empty text, the detected
    participants are those of [parseChat].  With two or more of them both
    sides name participants, and a side that was re-assigned names a
    different participant than the other (first participant right, second
    left, aliases equal to the names).  With one participant the right side
    names it.  With none the sides are left as they were.  Running the
    effect again changes nothing. *)
Theorem auto_assign_sides :
  forall rawText s,
    rawText <> [] ->
    exists r s',
      parseChat rawText = Normal r /\
      on_rawText rawText s = Normal s' /\
      detectedParticipants s' = participants r /\
      (forall p0 p1 rest,
         participants r = p0 :: p1 :: rest ->
         In (leftOriginal (mapping s')) (participants r) /\
         In (rightOriginal (mapping s')) (participants r) /\
         (mapping s' = mapping s \/
          mapping s' = mkMapping p1 p1 p0 p0 /\
          leftOriginal (mapping s') <> rightOriginal (mapping s'))) /\
      (forall p, participants r = [p] ->
         rightOriginal (mapping s') = p /\
         (mapping s' = mapping s \/ mapping s' = mkMapping [] [] p p)) /\
      (participants r = [] -> mapping s' = mapping s) /\
      on_rawText rawText s' = Normal s'.
Proof.
  intros rawText s Hne.
  destruct (parseChat_normal rawText) as [r Hr].
  exists r, (mkChat (participants r) (auto_assign (participants r) (mapping s))).
  assert (Hon : forall s0, on_rawText rawText s0 =
                  Normal (mkChat (participants r)
                            (auto_assign (participants r) (mapping s0)))).
  { intros s0. unfold on_rawText. destruct rawText; [congruence|].
    rewrite Hr. reflexivity. }
  split; [exact Hr|]. split; [apply Hon|]. split; [reflexivity|].
  cbn [mapping].
  pose proof (parseChat_participants _ _ Hr) as Hp.
  pose proof (first_seen_NoDup (map sender (messages r))) as Hnd.
  rewrite <- Hp in Hnd.
  split; [|split; [|split]].
  - intros p0 p1 rest E. rewrite E in *.
    apply auto_assign_two. inversion Hnd as [|? ? Hnot _]; subst.
    intros <-. apply Hnot. left. reflexivity.
  - intros p E. rewrite E. apply auto_assign_one.
  - intros E. rewrite E. reflexivity.
  - rewrite Hon. cbn [mapping]. rewrite auto_assign_idem. reflexivity.
Qed.

Lemma nth_error_skipn_add {A} (k : nat) :
  forall (l : list A) i, nth_error (skipn k l) i = nth_error l (k + i).
Proof.
  induction k as [|k IH]; intros l i; [reflexivity|].
  destruct l as [|a l]; [destruct i; reflexivity|]. simpl. apply IH.
Qed.

Lemma last_item_slice_last {A} (n : nat) (l : list A) :
  (1 <= n)%nat -> last_item (slice_last n l) = last_item l.
Proof.
  intros Hn. unfold last_item, slice_last.
  rewrite nth_error_skipn_add, length_skipn.
  destruct l as [|a l]; [reflexivity|]. f_equal. simpl length. lia.
Qed.

Lemma last_item_In {A} (l : list A) (x : A) : last_item l = Some x -> In x l.
Proof. unfold last_item. apply nth_error_In. Qed.

Lemma last_item_nonempty {A} (l : list A) :
  l <> [] -> exists x, last_item l = Some x.
Proof.
  intros H. unfold last_item.
  destruct (nth_error l (length l - 1)) as [x|] eqn:E; [eauto|].
  apply nth_error_None in E. destruct l; [congruence|simpl in E; lia].
Qed.

(** X10. [handlePredictNext] picks its speaker from the last processed
    message (of the whole text, not only of the last fifty): the right name
    with the right alias when that message is from the left name, also
    when both sides carry the same name; the left name with the left alias
    otherwise, and then the message is from the right name.  With two
    different names the next speaker is never the sender of the last
    message.  When no message is on either side, reading the sender of the
    missing last message raises a [TypeError]. *)
Theorem next_speaker_alternates :
  forall rawText mp,
    exists ps,
      getProcessedMessages rawText mp = Normal ps /\
      (ps = [] -> next_speaker rawText mp = Throw TypeError) /\
      (ps <> [] ->
       exists p,
         last_item ps = Some p /\
         (sender (message p) = leftOriginal mp ->
          next_speaker rawText mp = Normal (rightOriginal mp, rightAlias mp)) /\
         (sender (message p) <> leftOriginal mp ->
          sender (message p) = rightOriginal mp /\
          next_speaker rawText mp = Normal (leftOriginal mp, leftAlias mp)) /\
         (leftOriginal mp <> rightOriginal mp ->
          exists next alias,
            next_speaker rawText mp = Normal (next, alias) /\
            next <> sender (message p))).
Proof.
  intros rawText mp.
  destruct (getProcessedMessages_spec rawText mp) as (r & ps & _ & Hg & _ & Hw).
  exists ps. split; [exact Hg|]. unfold next_speaker. rewrite Hg. cbn [bind].
  rewrite last_item_slice_last by lia. split.
  - intros ->. reflexivity.
  - intros Hne. destruct (last_item_nonempty ps Hne) as [p Hp].
    rewrite Hp. rewrite Forall_forall in Hw.
    specialize (Hw p (last_item_In _ _ Hp)).
    exists p. split; [reflexivity|].
    destruct (jseqb (sender (message p)) (leftOriginal mp)) eqn:El.
    + apply jseqb_eq in El. split; [reflexivity|]. split; [congruence|].
      intros Hd. exists (rightOriginal mp), (rightAlias mp).
      split; [reflexivity|]. congruence.
    + apply jseqb_neq in El. split; [congruence|].
      destruct Hw as [(_ & Hs & _)|(_ & Hs & _ & _)]; [congruence|].
      split; [intros _; split; [exact Hs|reflexivity]|].
      intros Hd. exists (leftOriginal mp), (leftAlias mp).
      split; [reflexivity|]. congruence.
Qed.

(** ** The predicted line and the first header pattern *)


Lemma rep_greedy {R} (p : N -> bool) (a : jsstring) :
  forall (lo : nat) (hi : option nat) (s : jsstring) (k : jsstring -> option R) (r : R),
    forallb p a = true ->
    (lo <= length a)%nat ->
    match hi with Some h => (length a <= h)%nat | None => True end ->
    (hi = Some (length a) \/ match s with [] => True | c :: _ => p c = false end) ->
    k s = Some r ->
    rep p lo hi (a ++ s) k = Some r.
Proof.
  induction a as [|c a IH]; intros lo hi s k r Hp Hlo Hhi Hstop Hk.
  - simpl in Hlo. destruct lo; [|lia]. simpl app.
    destruct s as [|x s]; [exact Hk|]. simpl.
    destruct Hstop as [->|Hx]; [rewrite andb_false_r; exact Hk|].
    rewrite Hx. exact Hk.
  - simpl in Hp. apply andb_true_iff in Hp as [Hc Hp]. simpl app.
    cbn [rep]. rewrite Hc.
    assert (Hroom : room hi = true).
    { destruct hi as [[|h]|]; simpl in *; [lia|reflexivity|reflexivity]. }
    rewrite Hroom. cbn [andb].
    rewrite (IH (pred lo) (dec_hi hi) s k r); [reflexivity|exact Hp| | | |exact Hk].
    + simpl in Hlo. lia.
    + destruct hi as [h|]; simpl in *; [lia|exact I].
    + destruct Hstop as [->|Hx]; [left; reflexivity|right; exact Hx].
Qed.

Lemma rep_greedy_all {R} (p : N -> bool) (a : jsstring) (lo : nat)
    (k : jsstring -> option R) (r : R) :
  forallb p a = true -> (lo <= length a)%nat -> k [] = Some r ->
  rep p lo None a k = Some r.
Proof.
  intros Hp Hlo Hk. rewrite <- (app_nil_r a) at 1.
  apply rep_greedy; auto.
Qed.

Lemma digit_not_ws (c : N) : is_digit c = true -> is_ws c = false.
Proof.
  unfold is_digit, in_range. intros H. apply andb_true_iff in H as [H1 H2].
  apply N.leb_le in H1, H2.
  destruct (is_ws c) eqn:E; [|reflexivity]. exfalso.
  unfold is_ws in E.
  repeat (apply orb_true_iff in E as [E|E]);
    try (apply N.eqb_eq in E; lia);
    try (unfold in_range in E; apply andb_true_iff in E as [E1 E2];
         apply N.leb_le in E1, E2; lia).
Qed.

Lemma lit_same (c : N) : lit c c = true.
Proof. apply N.eqb_refl. Qed.

Ltac all_digits :=
  cbn [forallb];
  repeat match goal with
         | H : is_digit _ = true |- _ => rewrite H
         | H : forallb is_digit _ = true |- _ => rewrite H
         end;
  reflexivity.

Ltac chr_step := cbv beta iota; rewrite lit_same; cbv iota.

Lemma consumed_nil (s : jsstring) : consumed s [] = s.
Proof. unfold consumed. simpl. rewrite Nat.sub_0_r. apply firstn_all. Qed.

Ltac consumed_piece :=
  match goal with
  | |- consumed ?X [] = ?X => apply consumed_nil
  | |- consumed ?X ?Y = ?a =>
      replace X with (a ++ Y)
        by (simpl; rewrite <- ?app_assoc; rewrite ?app_nil_r; reflexivity);
      apply consumed_app
  end.

Lemma android_iso_stamped (y1 y2 y3 y4 m1 m2 d1 d2 h1 n1 n2 c c0 : N)
    (H' w nm' w2 body : jsstring) :
  forallb is_digit [y1; y2; y3; y4; m1; m2; d1; d2; h1; n1; n2] = true ->
  forallb is_digit H' = true -> (length H' <= 1)%nat ->
  cls_ap c = true -> is_ws c = false ->
  forallb is_ws w = true -> is_ws c0 = false ->
  forallb not_colon (c0 :: nm') = true ->
  forallb is_ws w2 = true ->
  match body with [] => True | b :: _ => is_ws b = false end ->
  forallb dot body = true ->
  exists m,
    regex_match re_android_iso
      ([y1; y2; y3; y4; 45; m1; m2; 45; d1; d2; 44; 32] ++ (h1 :: H')
       ++ [58; n1; n2; 32; c; 46; 109; 46; 32; 45; 32] ++ w ++ (c0 :: nm')
       ++ 58 :: w2 ++ body) = Some m /\
    get_cap 1 m = Some [y1; y2; y3; y4; 45; m1; m2; 45; d1; d2] /\
    get_cap 2 m = Some (h1 :: H' ++ [58; n1; n2]) /\
    get_cap 3 m = Some [c; 46; 109; 46] /\
    get_cap 4 m = Some (c0 :: nm') /\
    get_cap 5 m = Some body.
Proof.
  intros Hd HH' HlH Hc Hcw Hw Hc0 Hnm Hw2 Hb Hbody.
  cbn [forallb] in Hd.
  repeat (apply andb_true_iff in Hd as [?Hd Hd]).
  eexists. split.
  - unfold regex_match, re_android_iso, times, between, star, plus, quest.
    cbn [cat rmatch app].
    apply (rep_greedy is_digit [y1; y2; y3; y4]);
      [all_digits|simpl; lia|simpl; lia|left; reflexivity|chr_step].
    apply (rep_greedy is_digit [m1; m2]);
      [all_digits|simpl; lia|simpl; lia|left; reflexivity|chr_step].
    apply (rep_greedy is_digit [d1; d2]);
      [all_digits|simpl; lia|simpl; lia|left; reflexivity|chr_step].
    apply (rep_greedy is_ws [32]);
      [reflexivity|simpl; lia|exact I|right; apply digit_not_ws; assumption|].
    apply (rep_greedy is_digit (h1 :: H'));
      [all_digits|simpl; lia|simpl; lia|right; reflexivity|chr_step].
    apply (rep_greedy is_digit [n1; n2]);
      [all_digits|simpl; lia|simpl; lia|left; reflexivity|].
    apply (rep_greedy is_ws [32]);
      [reflexivity|simpl; lia|exact I|right; assumption|].
    cbv beta iota. rewrite Hc. cbv iota.
    apply (rep_greedy (lit 46) [46]);
      [reflexivity|simpl; lia|simpl; lia|left; reflexivity|].
    cbv beta iota. change (cls_m 109) with true. cbv iota.
    apply (rep_greedy (lit 46) [46]);
      [reflexivity|simpl; lia|simpl; lia|left; reflexivity|].
    apply (rep_greedy is_ws [32]);
      [reflexivity|simpl; lia|exact I|right; reflexivity|chr_step].
    apply (rep_greedy is_ws (32 :: w));
      [simpl; exact Hw|simpl; lia|exact I|right; exact Hc0|].
    apply (rep_greedy not_colon (c0 :: nm'));
      [exact Hnm|simpl; lia|exact I|right; reflexivity|chr_step].
    apply (rep_greedy is_ws w2); [exact Hw2|simpl; lia|exact I|right; exact Hb|].
    apply rep_greedy_all; [exact Hbody|simpl; lia|].
    reflexivity.
  - cbn [set_cap get_cap nth].
    repeat split; f_equal; consumed_piece.
Qed.

Lemma two_digits_below_100 (n : N) : n < 100 -> two_digits n = true.
Proof.
  intros H.
  assert (Hall : forallb two_digits (map N.of_nat (seq 0 100)) = true)
    by (vm_compute; reflexivity).
  rewrite forallb_forall in Hall. apply Hall.
  rewrite <- (N2Nat.id n). apply in_map. apply in_seq. lia.
Qed.

Lemma iso_date_inv (d : jsstring) :
  iso_date d = true ->
  exists y1 y2 y3 y4 m1 m2 d1 d2,
    d = [y1; y2; y3; y4; 45; m1; m2; 45; d1; d2] /\
    forallb is_digit [y1; y2; y3; y4; m1; m2; d1; d2] = true.
Proof.
  unfold iso_date.
  destruct d as [|y1 [|y2 [|y3 [|y4 [|s1 [|m1 [|m2 [|s2 [|d1 [|d2 [|x t]]]]]]]]]]];
    try discriminate.
  intros H. apply andb_true_iff in H as [H H2]. apply andb_true_iff in H as [H H1].
  apply N.eqb_eq in H1, H2. subst s1 s2.
  exists y1, y2, y3, y4, m1, m2, d1, d2. split; [reflexivity|exact H].
Qed.

Lemma cleanText_app (a b : jsstring) :
  cleanText (a ++ b) = cleanText a ++ cleanText b.
Proof. unfold cleanText, replace_all. rewrite !map_app. reflexivity. Qed.

Lemma cleanText_ascii (s : jsstring) :
  forallb (fun c => c <? 128) s = true -> cleanText s = s.
Proof.
  unfold cleanText, replace_all. rewrite map_map.
  induction s as [|c s IH]; simpl; [reflexivity|].
  intros H. apply andb_true_iff in H as [Hc Hs]. rewrite IH by exact Hs.
  apply N.ltb_lt in Hc.
  destruct (N.eqb_spec c 8239); [lia|]. destruct (N.eqb_spec c 160); [lia|].
  reflexivity.
Qed.

Lemma cleanText_forallb (p : N -> bool) (s : jsstring) :
  p 32 = true -> forallb p s = true -> forallb p (cleanText s) = true.
Proof.
  intros H32. unfold cleanText, replace_all. rewrite map_map.
  induction s as [|c s IH]; simpl; [reflexivity|].
  intros H. apply andb_true_iff in H as [Hc Hs]. rewrite IH by exact Hs.
  destruct (c =? 8239); simpl; [rewrite H32; reflexivity|].
  destruct (c =? 160); rewrite ?H32, ?Hc; reflexivity.
Qed.

Lemma forallb_is_ws_cleanText (s : jsstring) :
  forallb is_ws (cleanText s) = forallb is_ws s.
Proof.
  unfold cleanText, replace_all. rewrite map_map.
  induction s as [|c s IH]; simpl; [reflexivity|].
  rewrite is_ws_cleaned, IH. reflexivity.
Qed.

Lemma split_no_sep (sep : N) (s : jsstring) :
  forallb (fun c => negb (c =? sep)) s = true -> split sep s = [s].
Proof.
  induction s as [|c s IH]; simpl; [reflexivity|].
  intros H. apply andb_true_iff in H as [Hc Hs]. apply negb_true_iff in Hc.
  rewrite Hc, IH by exact Hs. reflexivity.
Qed.

Lemma no_trailing_ws_snoc (s : jsstring) (c : N) :
  is_ws c = false -> no_trailing_ws (s ++ [c]).
Proof.
  intros H. unfold no_trailing_ws. rewrite rev_app_distr. simpl.
  rewrite H. reflexivity.
Qed.

Lemma trim_app_ws (w s : jsstring) :
  forallb is_ws w = true -> trim (w ++ s) = trim s.
Proof.
  induction w as [|c w IH]; simpl; [reflexivity|].
  intros H. apply andb_true_iff in H as [Hc Hw].
  rewrite trim_cons_ws by exact Hc. auto.
Qed.

Lemma group_snoc_header (c : jsstring) (ex : extracted) :
  extract patterns c = Some ex ->
  forall cls,
    group (cls ++ [c]) = (fst (group cls) ++ [header_message ex []], snd (group cls)).
Proof.
  intros Hex. induction cls as [|x cls IH].
  - cbn [app group]. rewrite Hex. reflexivity.
  - cbn [app group]. rewrite IH. destruct (group cls) as [msgs lead].
    cbn [fst snd]. destruct (extract patterns x); reflexivity.
Qed.

(** The trimmed line: only the blank after the colon can be lost, when the
    prediction is blank. *)
Lemma trim_stamped (y : N) (X P : jsstring) :
  is_ws y = false -> no_trailing_ws P -> 
  trim ((y :: X) ++ [58; 32] ++ P) =
    (y :: X) ++ 58 :: (match P with [] => [] | _ :: _ => [32] end) ++ P.
Proof.
  intros Hy HP.
  destruct P as [|p P0].
  - replace ((y :: X) ++ [58; 32] ++ []) with (((y :: X) ++ [58]) ++ [32])
      by (rewrite <- app_assoc; reflexivity).
    rewrite trim_snoc_ws by reflexivity.
    apply trim_id.
    + simpl. rewrite Hy. reflexivity.
    + apply no_trailing_ws_snoc. reflexivity.
  - destruct (@exists_last _ (p :: P0)) as (P' & z & E); [discriminate|].
    rewrite E in *. apply no_trailing_ws_last in HP.
    change (58 :: [32] ++ P' ++ [z]) with ([58; 32] ++ P' ++ [z]).
    apply trim_id.
    + simpl. rewrite Hy. reflexivity.
    + rewrite !app_assoc. apply no_trailing_ws_snoc. exact HP.
Qed.

Lemma two_digits_inv (n : N) :
  n < 100 ->
  exists h1 H' n1 n2,
    decimal n = h1 :: H' /\ padStart 2 48 (decimal n) = [n1; n2] /\
    is_digit h1 = true /\ forallb is_digit H' = true /\ (length H' <= 1)%nat /\
    is_digit n1 = true /\ is_digit n2 = true.
Proof.
  intros H. apply two_digits_below_100 in H. unfold two_digits in H.
  destruct (decimal n) as [|h1 H']; [discriminate|].
  destruct (padStart 2 48 (h1 :: H')) as [|n1 [|n2 [|x t]]]; try discriminate.
  apply andb_true_iff in H as [H Hn2]. apply andb_true_iff in H as [H Hn1].
  apply andb_true_iff in H as [H Hl]. apply andb_true_iff in H as [Hh1 HH'].
  apply Nat.leb_le in Hl.
  exists h1, H', n1, n2. auto 10.
Qed.

Lemma ampm_shape (hours : N) :
  exists c, ampm hours = [c; 46; 109; 46] /\ cls_ap c = true /\ is_ws c = false.
Proof.
  unfold ampm. destruct (12 <=? hours); [exists 112|exists 97]; repeat split.
Qed.

Lemma dot_not_lf (s : jsstring) :
  forallb dot s = true -> forallb (fun c => negb (c =? 10)) s = true.
Proof.
  induction s as [|c s IH]; simpl; [reflexivity|].
  intros H. apply andb_true_iff in H as [Hc Hs]. rewrite IH by exact Hs.
  unfold dot, is_lt in Hc. destruct (c =? 10); [discriminate Hc|reflexivity].
Qed.

Lemma digit_ascii (c : N) : is_digit c = true -> (c <? 128) = true.
Proof. intros H. unfold is_digit in H. bool_lia. Qed.

Lemma digit_not_lf (c : N) : is_digit c = true -> negb (c =? 10) = true.
Proof. intros H. unfold is_digit in H. bool_lia. Qed.

Lemma forallb_imp (p q : N -> bool) (s : jsstring) :
  (forall x, p x = true -> q x = true) -> forallb p s = true -> forallb q s = true.
Proof.
  intros Hpq. induction s as [|c s IH]; simpl; [reflexivity|].
  intros H. apply andb_true_iff in H as [Hc Hs].
  rewrite (Hpq c Hc), IH by exact Hs. reflexivity.
Qed.

Lemma predicted_header (dateStr : jsstring) (hours minutes : N)
    (next prediction L : jsstring) :
  iso_date dateStr = true -> hours < 24 -> minutes < 60 ->
  forallb (fun c => not_colon c && negb (c =? 10)) next = true ->
  trim next <> [] ->
  forallb dot (trim prediction) = true ->
  predicted_line dateStr hours minutes next prediction = 10 :: L ->
  exists cl ex,
    cleaned_lines L = [cl] /\ extract patterns cl = Some ex /\
    header_message ex [] =
      mkMessage dateStr
        (decimal hours ++ 58 :: padStart 2 48 (decimal minutes) ++ 32 :: ampm hours)
        (trim (cleanText next)) (cleanText (trim prediction)).
Proof.
  intros Hiso Hh Hm Hnext Hne Hdot HL.
  apply iso_date_inv in Hiso as (y1 & y2 & y3 & y4 & m1 & m2 & d1 & d2 & -> & Hd).
  destruct (two_digits_inv hours ltac:(lia))
    as (h1 & H' & _ & _ & Eh & _ & Hh1 & HH' & HlH & _ & _).
  destruct (two_digits_inv minutes ltac:(lia))
    as (_ & _ & n1 & n2 & _ & Em & _ & _ & _ & Hn1 & Hn2).
  destruct (ampm_shape hours) as (c & Ec & Hc & Hcw).
  unfold predicted_line in HL. rewrite Eh, Em, Ec in *.
  change (str ", ") with [44; 32] in HL. change (str " - ") with [32; 45; 32] in HL.
  change (str ": ") with [58; 32] in HL.
  injection HL as HL.
  cbn [forallb] in Hd. repeat (apply andb_true_iff in Hd as [?Hd Hd]). clear Hd.
  set (P := trim prediction) in *.
  set (stamp := [y1; y2; y3; y4; 45; m1; m2; 45; d1; d2; 44; 32; h1]
                ++ H' ++ [58; n1; n2; 32; c; 46; 109; 46; 32; 45; 32]).
  assert (EL : L = (stamp ++ next) ++ [58; 32] ++ P).
  { subst L stamp. cbn [app]. rewrite <- !app_assoc. reflexivity. }
  clear HL. subst L.
  set (w2 := match P with [] => [] | _ :: _ => [32] end).
  assert (Hst : forall q : N -> bool,
             (forall x, is_digit x = true -> q x = true) ->
             q 45 = true -> q 44 = true -> q 32 = true -> q 58 = true ->
             q c = true -> q 46 = true -> q 109 = true ->
             forallb q stamp = true).
  { intros q Hq q45 q44 q32 q58 qc q46 q109. subst stamp.
    rewrite !forallb_app. cbn [forallb].
    rewrite (forallb_imp is_digit q H' Hq HH').
    rewrite q45, q44, q32, q58, qc, q46, q109.
    rewrite !Hq by assumption. reflexivity. }
  assert (Hlf : forallb (fun x => negb (x =? 10)) ((stamp ++ next) ++ [58; 32] ++ P) = true).
  { rewrite !forallb_app. rewrite Hst; try reflexivity.
    - rewrite (forallb_imp _ (fun x => negb (x =? 10)) next) by
        (try exact Hnext; intros x Hx; apply andb_true_iff in Hx as [_ Hx]; exact Hx).
      rewrite (dot_not_lf P Hdot). reflexivity.
    - apply digit_not_lf.
    - destruct (N.eqb_spec c 10) as [->|]; [discriminate Hcw|reflexivity]. }
  assert (Ht : trim ((stamp ++ next) ++ [58; 32] ++ P) = (stamp ++ next) ++ 58 :: w2 ++ P).
  { apply (trim_stamped y1).
    - apply digit_not_ws. assumption.
    - apply trim_no_trailing_ws. }
  assert (Hw2 : forallb is_ws w2 = true /\ cleanText w2 = w2).
  { subst w2. destruct P; split; reflexivity. }
  destruct Hw2 as [Hw2 Hcw2].
  assert (Hcl : cleanText ((stamp ++ next) ++ 58 :: w2 ++ P) =
                stamp ++ cleanText next ++ 58 :: w2 ++ cleanText P).
  { change (58 :: w2 ++ P) with ([58] ++ w2 ++ P).
    rewrite !cleanText_app, Hcw2, <- app_assoc.
    rewrite (cleanText_ascii stamp); [reflexivity|].
    apply Hst; try reflexivity.
    - apply digit_ascii.
    - unfold cls_ap, one_of in Hc. simpl in Hc.
      repeat (apply orb_true_iff in Hc as [Hc|Hc]); try discriminate;
        apply N.eqb_eq in Hc; subst c; reflexivity. }
  destruct (span is_ws (cleanText next)) as [w nm] eqn:Esp.
  apply span_spec in Esp as (Hn & Hw & Hnm0).
  destruct nm as [|c0 nm'].
  { exfalso. apply Hne. apply trim_nil_iff.
    rewrite <- forallb_is_ws_cleanText, Hn, app_nil_r. exact Hw. }
  assert (Hnc : forallb not_colon (c0 :: nm') = true).
  { assert (Hall : forallb not_colon (cleanText next) = true).
    { apply cleanText_forallb; [reflexivity|].
      apply (forallb_imp (fun c => not_colon c && negb (c =? 10))); [|exact Hnext].
      intros x Hx. apply andb_true_iff in Hx as [Hx _]. exact Hx. }
    rewrite Hn, forallb_app in Hall. apply andb_true_iff in Hall as [_ Hall].
    exact Hall. }
  assert (Hdrop : drop_ws (cleanText P) = cleanText P).
  { subst P. rewrite drop_ws_cleanText, trim_no_leading_ws. reflexivity. }
  assert (Hb : match cleanText P with [] => True | b :: _ => is_ws b = false end).
  { pose proof (drop_ws_head (cleanText P)) as Hh0. rewrite Hdrop in Hh0. exact Hh0. }
  assert (Hbody : forallb dot (cleanText P) = true)
    by (apply cleanText_forallb; [reflexivity|exact Hdot]).
  destruct (android_iso_stamped y1 y2 y3 y4 m1 m2 d1 d2 h1 n1 n2 c c0
              H' w nm' w2 (cleanText P))
    as (m & Hmatch & C1 & C2 & C3 & C4 & C5); try assumption.
  { cbn [forallb]. rewrite Hd0, Hd1, Hd2, Hd3, Hd4, Hd5, Hd6, Hd7, Hh1, Hn1, Hn2.
    reflexivity. }
  assert (Ecl : stamp ++ cleanText next ++ 58 :: w2 ++ cleanText P =
                [y1; y2; y3; y4; 45; m1; m2; 45; d1; d2; 44; 32] ++ (h1 :: H')
                ++ [58; n1; n2; 32; c; 46; 109; 46; 32; 45; 32] ++ w ++ (c0 :: nm')
                ++ 58 :: w2 ++ cleanText P).
  { subst stamp. rewrite Hn. cbn [app]. rewrite <- !app_assoc. reflexivity. }
  exists (stamp ++ cleanText next ++ 58 :: w2 ++ cleanText P), (parse android_iso m).
  split; [|split].
  - unfold cleaned_lines. rewrite split_no_sep by exact Hlf.
    cbn [map]. rewrite Ht, Hcl. subst stamp. reflexivity.
  - rewrite Ecl. cbn [patterns extract android_iso regex_of]. rewrite Hmatch.
    reflexivity.
  - unfold header_message. cbn [android_iso parse x_date x_time x_sender x_content].
    rewrite C1, C2, C3, C4, C5. cbn [tmpl or_default trimmed].
    f_equal.
    + cbn [app]. rewrite <- app_assoc. reflexivity.
    + rewrite Hn, trim_app_ws by exact Hw. reflexivity.
    + rewrite app_nil_r. apply trim_id; [exact Hdrop|].
      subst P. apply cleaned_no_trailing_ws.
Qed.

(** X11. The line that [handlePredictNext] appends to a text is read back
    by the line loop as one new message after the messages of the text: it
    matches the first header pattern, carries the ISO date, the time as
    printed (24-hour clock with [a.m.] or [p.m.]), the speaker's name
    cleaned and trimmed, and the trimmed prediction.  This needs a date
    with a four-digit year, a name that holds no colon and no line feed and
    is not blank, and a prediction without line terminators inside. *)
Theorem predicted_line_parses :
  forall rawText dateStr hours minutes next prediction,
    iso_date dateStr = true -> hours < 24 -> minutes < 60 ->
    forallb (fun c => not_colon c && negb (c =? 10)) next = true ->
    trim next <> [] ->
    forallb dot (trim prediction) = true ->
    parse_lines (rawText ++ predicted_line dateStr hours minutes next prediction) =
      (r <- parse_lines rawText ;;
       Normal (fst r ++
                 [mkMessage dateStr
                    (decimal hours ++ 58 :: padStart 2 48 (decimal minutes)
                       ++ 32 :: ampm hours)
                    (trim (cleanText next)) (cleanText (trim prediction))],
               Set_add (trim (cleanText next)) (snd r))).
Proof.
  intros rawText dateStr hours minutes next prediction Hiso Hh Hm Hnext Hne Hdot.
  destruct (predicted_header dateStr hours minutes next prediction
              (tl (predicted_line dateStr hours minutes next prediction)))
    as (cl & ex & Hcl & Hex & Hmsg); try assumption; [reflexivity|].
  change (predicted_line dateStr hours minutes next prediction)
    with (10 :: tl (predicted_line dateStr hours minutes next prediction)).
  rewrite !parse_lines_group. cbn [bind fst snd].
  rewrite cleaned_lines_app, Hcl, (group_snoc_header cl ex Hex).
  cbn [fst]. rewrite Hmsg, map_app. cbn [map sender].
  rewrite first_seen_snoc. reflexivity.
Qed.

(** ** The predicted message in a document *)

Lemma try_json_read_document (rawText : jsstring) :
  try_json rawText =
    if starts_with [123] (unfenced rawText) || starts_with [91] (unfenced rawText)
    then parsed <- JSON_parse (unfenced rawText) ;; read_document parsed
    else Normal None.
Proof. reflexivity. Qed.

Lemma forEach_app {S A} (f : S -> A -> completion S) (l1 l2 : list A) :
  forall st, forEach f (l1 ++ l2) st = (st1 <- forEach f l1 st ;; forEach f l2 st1).
Proof.
  induction l1 as [|a l1 IH]; intros st; cbn [app forEach bind]; [reflexivity|].
  destruct (f st a) as [st'|e]; cbn [bind]; [apply IH|reflexivity].
Qed.

Lemma lookup_last_set_last (key : jsstring) (v' : json) (ms : list (jsstring * json)) :
  lookup_last key ms <> None -> lookup_last key (set_last key v' ms) = Some v'.
Proof.
  induction ms as [|[k v] ms IH]; cbn [lookup_last set_last]; [congruence|].
  destruct (lookup_last key ms) as [x|] eqn:E.
  - intros _. cbn [lookup_last]. rewrite IH by discriminate. reflexivity.
  - destruct (jseqb k key) eqn:Ek; [|congruence].
    intros _. cbn [lookup_last]. rewrite E, Ek. reflexivity.
Qed.

Lemma read_document_elements (doc : json) (e : json) (es : list json) :
  elements_of doc = Some (e :: es) ->
  read_document doc =
    (st <- forEach json_step (e :: es) ([], []) ;;
     match fst st with
     | _ :: _ => Normal (Some (mkResult (fst st) (snd st)))
     | [] => Normal None
     end).
Proof.
  unfold elements_of, read_document.
  destruct doc as [| | | |es0|ms]; try discriminate.
  - intros [= ->]. reflexivity.
  - cbn [get_prop bind].
    destruct (lookup_last (str "messages") ms) as [[| | | |es0|]|]; try discriminate.
    intros [= ->]. reflexivity.
Qed.

Lemma read_document_inv (doc : json) (r : ParseResult) :
  read_document doc = Normal (Some r) ->
  exists e es, elements_of doc = Some (e :: es).
Proof.
  unfold read_document, elements_of.
  destruct doc as [| | | |es0|ms]; cbn [get_prop bind truthy]; try discriminate.
  - destruct es0 as [|e es]; [discriminate|]. eauto.
  - destruct (lookup_last (str "messages") ms) as [[| |lit|s|es0|ms0]|];
      cbn [truthy]; try discriminate.
    + destruct b; discriminate.
    + destruct (negb (Number_isZero lit)); discriminate.
    + destruct s; discriminate.
    + destruct es0 as [|e es]; [discriminate|]. eauto.
Qed.

Lemma push_message_elements (doc newMsg : json) (es : list json) :
  elements_of doc = Some es ->
  exists doc',
    push_message doc newMsg = Normal (Some doc') /\
    elements_of doc' = Some (es ++ [newMsg]).
Proof.
  unfold elements_of, push_message.
  destruct doc as [| | | |es0|ms]; try discriminate.
  - intros [= ->]. eexists. split; reflexivity.
  - destruct (lookup_last (str "messages") ms) as [[| | | |es0|]|] eqn:E;
      try discriminate.
    intros [= ->]. eexists. split; [reflexivity|].
    cbn beta iota. rewrite lookup_last_set_last by congruence. reflexivity.
Qed.

Lemma json_step_newMsgObj (toLowerCase : jsstring -> jsstring)
    (st : list (Message json) * list jsstring) (next prediction : jsstring) :
  json_step st (newMsgObj toLowerCase next prediction) =
    Normal (match toLowerCase next, trim prediction with
            | c :: rest, _ :: _ =>
                (fst st ++ [mkMessage [] [] (toUpperCase1 c ++ rest)
                              (fixMojibake (JStr (trim prediction)))],
                 Set_add (toUpperCase1 c ++ rest) (snd st))
            | _, _ => st
            end).
Proof.
  unfold json_step, newMsgObj. cbn [get_prop bind].
  assert (Er : forall a b, lookup_last (str "role") [(str "role", a); (str "content", b)]
                           = Some a) by reflexivity.
  assert (Ec : forall a b, lookup_last (str "content") [(str "role", a); (str "content", b)]
                           = Some b) by reflexivity.
  rewrite Er, Ec. cbn [truthy].
  destruct (toLowerCase next) as [|c rest]; [reflexivity|].
  destruct (trim prediction) as [|p ps]; reflexivity.
Qed.

(** X12. When [parseChat] reads the text as a document, so does
    [handlePredictNext]: it never falls back to appending a line, and the
    document it serializes is the parsed one with the new element pushed.
    Read as [parseChat] reads a parsed document, that one gives the
    messages and participants of before, followed, unless the lower-cased
    name or the trimmed prediction is empty, by one message whose sender is
    the lower-cased name with its first unit upper-cased. *)
Theorem predicted_json_message :
  forall (toLowerCase : jsstring -> jsstring) rawText r dateStr hours minutes
         next prediction,
    try_json rawText = Normal (Some r) ->
    exists doc doc',
      JSON_parse (unfenced rawText) = Normal doc /\
      read_document doc = Normal (Some r) /\
      push_message doc (newMsgObj toLowerCase next prediction) = Normal (Some doc') /\
      predict_update toLowerCase rawText dateStr hours minutes next prediction =
        Normal (SetDocument doc') /\
      read_document doc' =
        Normal (Some (with_prediction toLowerCase r next prediction)).
Proof.
  intros toLowerCase rawText r dateStr hours minutes next prediction H.
  rewrite try_json_read_document in H.
  destruct (starts_with [123] (unfenced rawText) || starts_with [91] (unfenced rawText))
    eqn:Es; [|discriminate].
  destruct (JSON_parse (unfenced rawText)) as [doc|] eqn:Ep; cbn [bind] in H;
    [|discriminate].
  destruct (read_document_inv doc r H) as (e & es & Hel).
  destruct (push_message_elements doc (newMsgObj toLowerCase next prediction) _ Hel)
    as (doc' & Hpush & Hel').
  exists doc, doc'. split; [reflexivity|]. split; [exact H|]. split; [exact Hpush|].
  split.
  - unfold predict_update, json_document. cbv zeta. rewrite Es, Ep.
    assert (Ht : truthy (Some doc) = true).
    { unfold elements_of in Hel. destruct doc; try discriminate; reflexivity. }
    rewrite Ht. rewrite Hpush. reflexivity.
  - rewrite (read_document_elements doc e es Hel) in H.
    change ((e :: es) ++ [newMsgObj toLowerCase next prediction])
      with (e :: (es ++ [newMsgObj toLowerCase next prediction])) in Hel'.
    rewrite (read_document_elements doc' _ _ Hel').
    change (e :: es ++ [newMsgObj toLowerCase next prediction])
      with ((e :: es) ++ [newMsgObj toLowerCase next prediction]).
    rewrite forEach_app.
    destruct (forEach json_step (e :: es) ([], [])) as [st|ex]; cbn [bind] in *;
      [|discriminate].
    destruct (fst st) as [|m0 ms0] eqn:Ef; [discriminate|].
    injection H as <-.
    cbn [forEach bind]. rewrite json_step_newMsgObj. cbn [bind].
    unfold with_prediction. cbn [messages participants]. rewrite Ef.
    destruct (toLowerCase next) as [|c rest]; [rewrite Ef; reflexivity|].
    destruct (trim prediction) as [|p ps]; [rewrite Ef; reflexivity|].
    cbn [fst snd app]. reflexivity.
Qed.

(** ** Selections and aliases *)

Lemma select_detected (evs : list Selection) :
  forall s, detectedParticipants (fold_left select evs s) = detectedParticipants s.
Proof.
  induction evs as [|ev evs IH]; intros s; [reflexivity|].
  cbn [fold_left]. rewrite IH. destruct ev; reflexivity.
Qed.

Lemma handleLeftSelect_spec (v : jsstring) (s : ChatState) :
  handleLeftSelect v s =
    mkChat (detectedParticipants s)
      (mkMapping v
         (if custom (detectedParticipants s) (leftAlias (mapping s))
          then leftAlias (mapping s) else v)
         (rightOriginal (mapping s)) (rightAlias (mapping s))).
Proof.
  unfold handleLeftSelect, custom. cbv zeta.
  destruct (_ || _); reflexivity.
Qed.

Lemma handleRightSelect_spec (v : jsstring) (s : ChatState) :
  handleRightSelect v s =
    mkChat (detectedParticipants s)
      (mkMapping (leftOriginal (mapping s)) (leftAlias (mapping s)) v
         (if custom (detectedParticipants s) (rightAlias (mapping s))
          then rightAlias (mapping s) else v)).
Proof.
  unfold handleRightSelect, custom. cbv zeta.
  destruct (_ || _); reflexivity.
Qed.

Lemma select_keeps_custom_left (evs : list Selection) :
  forall s,
    custom (detectedParticipants s) (leftAlias (mapping s)) = true ->
    leftAlias (mapping (fold_left select evs s)) = leftAlias (mapping s).
Proof.
  induction evs as [|ev evs IH]; intros s Hc; [reflexivity|].
  cbn [fold_left].
  assert (E : leftAlias (mapping (select s ev)) = leftAlias (mapping s)).
  { destruct ev as [v|v]; [|reflexivity].
    cbn [select]. rewrite handleLeftSelect_spec, Hc. reflexivity. }
  rewrite IH; [exact E|].
  rewrite E. destruct ev; exact Hc.
Qed.

Lemma select_keeps_custom_right (evs : list Selection) :
  forall s,
    custom (detectedParticipants s) (rightAlias (mapping s)) = true ->
    rightAlias (mapping (fold_left select evs s)) = rightAlias (mapping s).
Proof.
  induction evs as [|ev evs IH]; intros s Hc; [reflexivity|].
  cbn [fold_left].
  assert (E : rightAlias (mapping (select s ev)) = rightAlias (mapping s)).
  { destruct ev as [v|v]; [reflexivity|].
    cbn [select]. rewrite handleRightSelect_spec, Hc. reflexivity. }
  rewrite IH; [exact E|].
  rewrite E. destruct ev; exact Hc.
Qed.

Lemma custom_participant (detected : list jsstring) (v : jsstring) :
  In v detected -> custom detected v = false.
Proof.
  intros H. unfold custom. apply includes_In in H. rewrite H, orb_true_r. reflexivity.
Qed.

Lemma select_follows_left (evs : list Selection) :
  forall s,
    Forall (selects_from (detectedParticipants s)) evs ->
    custom (detectedParticipants s) (leftAlias (mapping s)) = false ->
    existsb is_left evs = true \/ leftAlias (mapping s) = leftOriginal (mapping s) ->
    leftAlias (mapping (fold_left select evs s)) =
      leftOriginal (mapping (fold_left select evs s)).
Proof.
  induction evs as [|ev evs IH]; intros s Hs Hc Hor.
  - destruct Hor as [Hor|Hor]; [discriminate|exact Hor].
  - cbn [fold_left]. inversion Hs as [|? ? Hev Hevs]; subst.
    destruct ev as [v|v].
    + assert (E : select s (SelectLeft v) =
                  mkChat (detectedParticipants s)
                    (mkMapping v v (rightOriginal (mapping s)) (rightAlias (mapping s)))).
      { cbn [select]. rewrite handleLeftSelect_spec, Hc. reflexivity. }
      rewrite E. apply IH; cbn [detectedParticipants mapping leftAlias leftOriginal].
      * exact Hevs.
      * apply custom_participant. exact Hev.
      * right. reflexivity.
    + apply IH; cbn [select handleRightSelect detectedParticipants mapping
                       leftAlias leftOriginal].
      * exact Hevs.
      * exact Hc.
      * destruct Hor as [Hor|Hor]; [left; exact Hor|right; exact Hor].
Qed.

Lemma select_follows_right (evs : list Selection) :
  forall s,
    Forall (selects_from (detectedParticipants s)) evs ->
    custom (detectedParticipants s) (rightAlias (mapping s)) = false ->
    existsb (fun ev => negb (is_left ev)) evs = true \/
      rightAlias (mapping s) = rightOriginal (mapping s) ->
    rightAlias (mapping (fold_left select evs s)) =
      rightOriginal (mapping (fold_left select evs s)).
Proof.
  induction evs as [|ev evs IH]; intros s Hs Hc Hor.
  - destruct Hor as [Hor|Hor]; [discriminate|exact Hor].
  - cbn [fold_left]. inversion Hs as [|? ? Hev Hevs]; subst.
    destruct ev as [v|v].
    + apply IH; cbn [select handleLeftSelect detectedParticipants mapping
                       rightAlias rightOriginal].
      * exact Hevs.
      * exact Hc.
      * destruct Hor as [Hor|Hor]; [left; exact Hor|right; exact Hor].
    + assert (E : select s (SelectRight v) =
                  mkChat (detectedParticipants s)
                    (mkMapping (leftOriginal (mapping s)) (leftAlias (mapping s)) v v)).
      { cbn [select]. rewrite handleRightSelect_spec, Hc. reflexivity. }
      rewrite E. apply IH; cbn [detectedParticipants mapping rightAlias rightOriginal].
      * exact Hevs.
      * apply custom_participant. exact Hev.
      * right. reflexivity.
Qed.

(** X13. Through any sequence of choices in the two select boxes, an alias
    typed by the user (not empty, not a participant's name) is kept as it
    is, while an alias that is empty or a participant's name is replaced:
    once its side has been chosen it equals the chosen name.  The detected
    participants do not change. *)
Theorem selections_and_aliases :
  forall evs s,
    Forall (selects_from (detectedParticipants s)) evs ->
    detectedParticipants (fold_left select evs s) = detectedParticipants s /\
    (custom (detectedParticipants s) (leftAlias (mapping s)) = true ->
     leftAlias (mapping (fold_left select evs s)) = leftAlias (mapping s)) /\
    (custom (detectedParticipants s) (rightAlias (mapping s)) = true ->
     rightAlias (mapping (fold_left select evs s)) = rightAlias (mapping s)) /\
    (custom (detectedParticipants s) (leftAlias (mapping s)) = false ->
     existsb is_left evs = true ->
     leftAlias (mapping (fold_left select evs s)) =
       leftOriginal (mapping (fold_left select evs s))) /\
    (custom (detectedParticipants s) (rightAlias (mapping s)) = false ->
     existsb (fun ev => negb (is_left ev)) evs = true ->
     rightAlias (mapping (fold_left select evs s)) =
       rightOriginal (mapping (fold_left select evs s))).
Proof.
  intros evs s Hs. split; [apply select_detected|].
  split; [apply select_keeps_custom_left|].
  split; [apply select_keeps_custom_right|].
  split.
  - intros Hc He. apply select_follows_left; auto.
  - intros Hc He. apply select_follows_right; auto.
Qed.

(** ** The reply to the analysis request *)


Lemma remove_from_skip (p x : jsstring) :
  forall b, remove_from p (length x) (x ++ b) = remove_from p 0 b.
Proof.
  induction x as [|c x IH]; intros b; [reflexivity|].
  cbn [length app remove_from]. apply IH.
Qed.

Lemma remove_all_prefix (c : N) (p' b : jsstring) :
  remove_all (c :: p') ((c :: p') ++ b) = remove_all (c :: p') b.
Proof.
  unfold remove_all.
  change ((c :: p') ++ b) with (c :: (p' ++ b)).
  cbn [remove_from].
  change (c :: p' ++ b) with ((c :: p') ++ b).
  rewrite starts_with_app.
  replace (length (c :: p') - 1)%nat with (length p') by (simpl; lia).
  apply remove_from_skip.
Qed.

Lemma remove_all_free (c : N) (p' a : jsstring) :
  forallb (fun x => negb (x =? c)) a = true ->
  forall b, remove_all (c :: p') (a ++ b) = a ++ remove_all (c :: p') b.
Proof.
  intros Ha b. unfold remove_all. induction a as [|x a IH]; [reflexivity|].
  cbn [forallb] in Ha. apply andb_true_iff in Ha as [Hx Ha].
  apply negb_true_iff in Hx. rewrite N.eqb_sym in Hx.
  cbn [app remove_from starts_with]. rewrite Hx. cbn [andb].
  rewrite IH by exact Ha. reflexivity.
Qed.

Lemma is_ws_not_backtick (s : jsstring) :
  forallb is_ws s = true -> forallb (fun x => negb (x =? 96)) s = true.
Proof.
  induction s as [|c s IH]; simpl; [reflexivity|].
  intros H. apply andb_true_iff in H as [Hc Hs]. rewrite IH by exact Hs.
  destruct (N.eqb_spec c 96) as [->|]; [discriminate Hc|reflexivity].
Qed.

Lemma trim_app_ws_right (s w : jsstring) :
  forallb is_ws w = true -> trim (s ++ w) = trim s.
Proof.
  revert s. induction w as [|c w IH]; intros s H; [rewrite app_nil_r; reflexivity|].
  simpl in H. apply andb_true_iff in H as [Hc Hw].
  change (s ++ c :: w) with (s ++ [c] ++ w). rewrite app_assoc, IH by exact Hw.
  apply trim_snoc_ws. exact Hc.
Qed.

Lemma trim_head (x : N) (s : jsstring) :
  is_ws x = false -> exists t, trim (x :: s) = x :: t.
Proof.
  intros Hx. unfold trim. simpl drop_ws at 2. rewrite Hx.
  assert (G : forall l, exists u, drop_ws (l ++ [x]) = u ++ [x]).
  { induction l as [|y l [u IH]]; simpl.
    - rewrite Hx. exists []. reflexivity.
    - destruct (is_ws y); [eauto|]. exists (y :: l). reflexivity. }
  change (rev (x :: s)) with (rev s ++ [x]).
  destruct (G (rev s)) as [u Hu]. rewrite Hu, rev_app_distr. simpl. eauto.
Qed.

(** No match of the tagged fence starts at a fence that is followed by
    something else than [j]. *)
Lemma remove_tagged_at_fence (x : N) (rest : jsstring) :
  (x =? 106) = false -> (x =? 96) = false ->
  remove_all (fence ++ str "json") (fence ++ x :: rest) =
    fence ++ remove_all (fence ++ str "json") (x :: rest).
Proof.
  intros Hj Hb. unfold remove_all, fence.
  change (str "json") with [106; 115; 111; 110].
  cbn [app remove_from starts_with].
  rewrite !N.eqb_refl. rewrite (N.eqb_sym 106 x), Hj, (N.eqb_sym 96 x), Hb.
  cbn [andb]. reflexivity.
Qed.

Lemma JSON_parse_letter_J (t : jsstring) : JSON_parse (74 :: t) = Throw SyntaxError.
Proof.
  unfold JSON_parse. cbn [parse_value].
  change (skip_jws (74 :: t)) with (74 :: t). cbv beta iota.
  change (74 =? 123) with false. change (74 =? 91) with false.
  change (74 =? 34) with false. cbv iota.
  change (starts_with (str "true") (74 :: t)) with false.
  change (starts_with (str "false") (74 :: t)) with false.
  change (starts_with (str "null") (74 :: t)) with false. cbv iota.
  assert (E : parse_number (74 :: t) = None) by reflexivity.
  rewrite E. reflexivity.
Qed.

Lemma no_brace_j (c : N) : c = 123 \/ c = 91 -> (c =? 106) = false /\ (c =? 96) = false.
Proof. intros [->| ->]; split; reflexivity. Qed.

Lemma ws_not_j (c : N) : is_ws c = true -> (c =? 106) = false /\ (c =? 96) = false.
Proof.
  intros H. split.
  - destruct (N.eqb_spec c 106) as [->|]; [discriminate H|reflexivity].
  - destruct (N.eqb_spec c 96) as [->|]; [discriminate H|reflexivity].
Qed.

(** X14. [handleAnalyzeChat] reads a reply that is a document inside a
    fence (bare, or tagged [json] in lower case) as the document itself,
    like a reply that is the document alone with white space around it:
    the text handed to [JSON.parse] is the trimmed document.  The tag is
    compared with case, unlike in [parseChat]: a reply tagged [JSON] is not
    parsed and is stored as the summary of the fallback object.  The
    document is taken without backticks. *)
Theorem fenced_reply :
  forall tag ws1 ws2 c d,
    tag = [] \/ tag = str "json" ->
    forallb is_ws ws1 = true -> forallb is_ws ws2 = true ->
    c = 123 \/ c = 91 ->
    forallb (fun x => negb (x =? 96)) d = true ->
    analysis_json_string (in_fence tag ws1 (c :: d) ws2) = trim (c :: d) /\
    analysis_json_string (ws1 ++ (c :: d) ++ ws2) = trim (c :: d) /\
    analysis_data (in_fence (str "JSON") ws1 (c :: d) ws2) =
      analysis_fallback (in_fence (str "JSON") ws1 (c :: d) ws2).
Proof.
  intros tag ws1 ws2 c d Htag Hw1 Hw2 Hc Hd.
  assert (Hbody : forallb (fun x => negb (x =? 96)) (ws1 ++ (c :: d) ++ ws2) = true).
  { rewrite !forallb_app. cbn [forallb].
    rewrite (is_ws_not_backtick ws1 Hw1), (is_ws_not_backtick ws2 Hw2), Hd.
    destruct (no_brace_j c Hc) as [_ ->]. reflexivity. }
  assert (Htrim : trim (ws1 ++ (c :: d) ++ ws2) = trim (c :: d)).
  { rewrite trim_app_ws by exact Hw1. apply trim_app_ws_right. exact Hw2. }
  assert (Hhead : exists x rest, ws1 ++ (c :: d) ++ ws2 = x :: rest /\
                                 (x =? 106) = false /\ (x =? 96) = false).
  { destruct ws1 as [|x ws1'].
    - exists c, (d ++ ws2). split; [reflexivity|]. apply no_brace_j. exact Hc.
    - exists x, (ws1' ++ (c :: d) ++ ws2). split; [reflexivity|].
      simpl in Hw1. apply andb_true_iff in Hw1 as [Hx _]. apply ws_not_j. exact Hx. }
  assert (Hr1 : forall b, remove_all (fence ++ str "json") ((ws1 ++ (c :: d) ++ ws2) ++ b) =
                          (ws1 ++ (c :: d) ++ ws2) ++ remove_all (fence ++ str "json") b).
  { intros b. apply (remove_all_free 96). exact Hbody. }
  assert (Hr2 : forall b, remove_all fence ((ws1 ++ (c :: d) ++ ws2) ++ b) =
                          (ws1 ++ (c :: d) ++ ws2) ++ remove_all fence b).
  { intros b. apply (remove_all_free 96). exact Hbody. }
  split; [|split].
  - unfold analysis_json_string, in_fence.
    replace (fence ++ tag ++ ws1 ++ (c :: d) ++ ws2 ++ fence)
      with ((fence ++ tag) ++ (ws1 ++ (c :: d) ++ ws2) ++ fence)
      by (rewrite <- !app_assoc; reflexivity).
    destruct Htag as [-> | ->].
    + rewrite app_nil_r.
      destruct Hhead as (x & rest & E & Hj & Hb). rewrite E in *.
      change ((x :: rest) ++ fence) with (x :: (rest ++ fence)).
      rewrite remove_tagged_at_fence by assumption.
      change (x :: rest ++ fence) with ((x :: rest) ++ fence).
      rewrite Hr1.
      change (remove_all (fence ++ str "json") fence) with fence.
      rewrite (remove_all_prefix 96 [96; 96]). rewrite Hr2.
      change (remove_all fence fence) with (@nil N).
      rewrite app_nil_r. exact Htrim.
    + rewrite (remove_all_prefix 96 ([96; 96] ++ str "json")), Hr1.
      change (remove_all (fence ++ str "json") fence) with fence.
      rewrite Hr2. change (remove_all fence fence) with (@nil N).
      rewrite app_nil_r. exact Htrim.
  - unfold analysis_json_string.
    rewrite <- (app_nil_r (ws1 ++ (c :: d) ++ ws2)).
    rewrite Hr1. change (remove_all (fence ++ str "json") []) with (@nil N).
    rewrite Hr2. change (remove_all fence []) with (@nil N).
    rewrite !app_nil_r. exact Htrim.
  - unfold analysis_data, analysis_json_string, in_fence.
    change (str "JSON") with [74; 83; 79; 78].
    change (fence ++ [74; 83; 79; 78] ++ ws1 ++ (c :: d) ++ ws2 ++ fence)
      with (fence ++ 74 :: ([83; 79; 78] ++ ws1 ++ (c :: d) ++ ws2 ++ fence)).
    rewrite remove_tagged_at_fence by reflexivity.
    replace (74 :: [83; 79; 78] ++ ws1 ++ (c :: d) ++ ws2 ++ fence)
      with (([74; 83; 79; 78] ++ ws1 ++ (c :: d) ++ ws2) ++ fence)
      by (do 3 (cbn [app]; rewrite <- ?app_assoc); reflexivity).
    assert (Hfree : forallb (fun x => negb (x =? 96))
                      ([74; 83; 79; 78] ++ ws1 ++ (c :: d) ++ ws2) = true)
      by (rewrite forallb_app, Hbody; reflexivity).
    assert (Hf1 : forall b,
               remove_all (fence ++ str "json")
                 (([74; 83; 79; 78] ++ ws1 ++ (c :: d) ++ ws2) ++ b) =
               ([74; 83; 79; 78] ++ ws1 ++ (c :: d) ++ ws2)
                 ++ remove_all (fence ++ str "json") b)
      by (intros b; apply (remove_all_free 96); exact Hfree).
    assert (Hf2 : forall b,
               remove_all fence (([74; 83; 79; 78] ++ ws1 ++ (c :: d) ++ ws2) ++ b) =
               ([74; 83; 79; 78] ++ ws1 ++ (c :: d) ++ ws2) ++ remove_all fence b)
      by (intros b; apply (remove_all_free 96); exact Hfree).
    rewrite Hf1.
    change (remove_all (fence ++ str "json") fence) with fence.
    rewrite (remove_all_prefix 96 [96; 96]).
    rewrite Hf2.
    change (remove_all fence fence) with (@nil N). rewrite app_nil_r.
    destruct (trim_head 74 ([83; 79; 78] ++ ws1 ++ (c :: d) ++ ws2)) as [t Ht];
      [reflexivity|].
    change ([74; 83; 79; 78] ++ ws1 ++ (c :: d) ++ ws2)
      with (74 :: [83; 79; 78] ++ ws1 ++ (c :: d) ++ ws2).
    rewrite Ht, JSON_parse_letter_J. reflexivity.
Qed.

(** ** Prediction after the assignment of the sides *)

Lemma first_seen_In (l : list jsstring) (x : jsstring) :
  In x (first_seen l) -> In x l.
Proof.
  induction l as [|a l IH]; simpl; [tauto|].
  intros [H|H]; [left; exact H|].
  apply filter_In in H as [H _]. right. apply IH. exact H.
Qed.

Lemma auto_assign_right_valid (ps : list jsstring) (mp : Mapping) :
  ps <> [] -> In (rightOriginal (auto_assign ps mp)) ps.
Proof.
  intros Hne. unfold auto_assign.
  destruct (includes ps (rightOriginal mp)) eqn:Er.
  - destruct (includes ps (leftOriginal mp)); cbn [negb orb andb].
    + apply includes_In. exact Er.
    + destruct ps as [|p0 [|p1 ps]]; [congruence| |]; cbn [length Nat.ltb Nat.leb];
        cbn [rightOriginal]; left; reflexivity.
  - rewrite orb_true_r.
    destruct ps as [|p0 [|p1 ps]]; [congruence| |]; cbn [andb length Nat.ltb Nat.leb];
      cbn [rightOriginal]; left; reflexivity.
Qed.

Lemma next_speaker_defined (rawText : jsstring) (mp : Mapping) (ps : list Processed) :
  getProcessedMessages rawText mp = Normal ps ->
  (ps = [] -> next_speaker rawText mp = Throw TypeError) /\
  (ps <> [] -> exists next alias, next_speaker rawText mp = Normal (next, alias)).
Proof.
  intros Hg. unfold next_speaker. rewrite Hg. cbn [bind].
  rewrite last_item_slice_last by lia. split.
  - intros ->. reflexivity.
  - intros Hne. destruct (last_item_nonempty ps Hne) as [p ->].
    destruct (jseqb (sender (message p)) (leftOriginal mp)); eauto.
Qed.

(** X15. After the effect has run on a text, [handlePredictNext] finds a
    last message and a next speaker exactly when some participant was
    detected; with none it raises the [TypeError] of reading the sender of
    a missing message. *)
Theorem prediction_after_auto_assign :
  forall rawText s s',
    rawText <> [] ->
    on_rawText rawText s = Normal s' ->
    (detectedParticipants s' = [] <->
     next_speaker rawText (mapping s') = Throw TypeError) /\
    (detectedParticipants s' <> [] ->
     exists next alias, next_speaker rawText (mapping s') = Normal (next, alias)).
Proof.
  intros rawText s s' Hne Hon.
  destruct (parseChat_normal rawText) as [r Hr].
  assert (Es : s' = mkChat (participants r) (auto_assign (participants r) (mapping s))).
  { unfold on_rawText in Hon. destruct rawText; [congruence|].
    rewrite Hr in Hon. cbn [bind] in Hon. congruence. }
  subst s'. cbn [detectedParticipants mapping].
  set (mp := auto_assign (participants r) (mapping s)).
  destruct (getProcessedMessages_spec rawText mp) as (r' & ps & Hr' & Hg & Hmap & _).
  rewrite Hr in Hr'. injection Hr' as <-.
  destruct (next_speaker_defined rawText mp ps Hg) as [Hnil Hsome].
  pose proof (parseChat_participants _ _ Hr) as Hp.
  assert (Hps : participants r <> [] -> ps <> []).
  { intros Hn Eps. subst ps. cbn [map] in Hmap.
    pose proof (auto_assign_right_valid (participants r) (mapping s) Hn) as Hin.
    fold mp in Hin. rewrite Hp in Hin. apply first_seen_In in Hin.
    apply in_map_iff in Hin as (m & Hm & Hin).
    assert (Hf : In m (filter (on_a_side mp) (messages r))).
    { apply filter_In. split; [exact Hin|]. unfold on_a_side.
      rewrite Hm, jseqb_refl. apply orb_true_r. }
    rewrite <- Hmap in Hf. exact Hf. }
  split; [split|].
  - intros E. apply Hnil. rewrite Hp in E.
    destruct (messages r) as [|m ms] eqn:Em; [|discriminate E].
    cbn [filter] in Hmap. destruct ps; [reflexivity|discriminate Hmap].
  - intros Ht. destruct (participants r) as [|p0 rest] eqn:E; [reflexivity|].
    destruct (Hsome (Hps ltac:(discriminate))) as (next & alias & Hn).
    rewrite Hn in Ht. discriminate Ht.
  - intros Hn. apply Hsome. apply Hps. exact Hn.
Qed.
End Host.

(** * Instances on concrete inputs

    The statements below are closed: they evaluate the definitions on
    explicit inputs, with the host parameters [plain_isZero],
    [plain_toString] and [plain_upper]. *)

(** C1, at a line that is no header, with and without an accumulating
    message. *)
Lemma parseChat_never_raises_witness :
  let m := mkMessage (str "Unknown") [] (str "Alex") (str "hi") in
  line_step (mkState [] [] None) (str "{not valid json") = Normal (mkState [] [] None) /\
  line_step (mkState [] [str "Alex"] (Some m)) (str "{not valid json") =
    Normal (mkState [] [str "Alex"]
              (Some (mkMessage (str "Unknown") [] (str "Alex")
                       (str "hi" ++ 10 :: str "{not valid json")))).
Proof.
  split.
  - apply (proj1 (proj2 (proj2 (parseChat_never_raises plain_isZero plain_toString
                                  plain_upper)))
             (mkState [] [] None) (str "{not valid json")).
    + vm_compute. discriminate.
    + vm_compute. reflexivity.
  - apply (proj1 (proj2 (proj2 (parseChat_never_raises plain_isZero plain_toString
                                  plain_upper)))
             (mkState [] [str "Alex"]
                (Some (mkMessage (str "Unknown") [] (str "Alex") (str "hi"))))
             (str "{not valid json")).
    + vm_compute. discriminate.
    + vm_compute. reflexivity.
Defined.

(** C2, at the line of the example. *)
Lemma android_iso_precedence_witness :
  exists m,
    regex_match (regex_of android_iso) (str "2025-06-12, 11:20 a.m. - Sam: hello") = Some m /\
    extract patterns (str "2025-06-12, 11:20 a.m. - Sam: hello") = Some (parse android_iso m).
Proof.
  eexists. split.
  - vm_compute. reflexivity.
  - apply (proj1 (android_iso_precedence plain_isZero plain_toString plain_upper)).
    vm_compute. reflexivity.
Defined.

(** C6, at the input of four header lines. *)
Lemma participants_first_seen_witness :
  let input := str "A: one" ++ 10 :: str "B: two" ++ 10 :: str "A: three"
                 ++ 10 :: str "C: four" in
  let msg s t := mkMessage (str "Unknown") [] (str s) (JStr (str t)) in
  let r := mkResult [msg "A"%string "one"%string; msg "B"%string "two"%string;
                     msg "A"%string "three"%string; msg "C"%string "four"%string]
                    [str "A"; str "B"; str "C"] in
  parseChat plain_isZero plain_toString plain_upper input = Normal r /\
  participants r = [str "A"; str "B"; str "C"].
Proof.
  assert (H : parseChat plain_isZero plain_toString plain_upper
                (str "A: one" ++ 10 :: str "B: two" ++ 10 :: str "A: three"
                   ++ 10 :: str "C: four") =
              Normal (mkResult
                        [mkMessage (str "Unknown") [] (str "A") (JStr (str "one"));
                         mkMessage (str "Unknown") [] (str "B") (JStr (str "two"));
                         mkMessage (str "Unknown") [] (str "A") (JStr (str "three"));
                         mkMessage (str "Unknown") [] (str "C") (JStr (str "four"))]
                        [str "A"; str "B"; str "C"]))
    by (vm_compute; reflexivity).
  split; [exact H|].
  apply (proj1 (proj2 (participants_first_seen plain_isZero plain_toString plain_upper))
           _ _ (str "A") (str "B") (str "C") H); [reflexivity|discriminate..].
Defined.

(** C4: a line that [android_iso] matches although more than 31 code units
    precede its first colon (30 spaces separate the date from the time). *)
Lemma padded_header_counterexample :
  let pre := str "2025-06-12," ++ repeat 32 30 ++ str "11" in
  let post := str "20 a.m. - Sam: hello" in
  forallb not_colon pre = true /\ length pre = 43%nat /\
  regex_match re_generic (pre ++ 58 :: post) = None /\
  parseChat plain_isZero plain_toString plain_upper (pre ++ 58 :: post) =
    Normal (mkResult
              [mkMessage (str "2025-06-12") (str "11:20 a.m.") (str "Sam")
                         (JStr (str "hello"))]
              [str "Sam"]).
Proof. repeat split; vm_compute; reflexivity. Qed.

(** C4 (amended), at the long sentence. *)
Lemma generic_cap_witness :
  let pre := str "This is a long sentence that happens to contain a colon" in
  let post := str " and continues past thirty one characters" in
  forallb not_colon pre = true /\ (31 < length pre)%nat /\
  regex_match re_generic (pre ++ 58 :: post) = None.
Proof.
  assert (H1 : forallb not_colon
                 (str "This is a long sentence that happens to contain a colon") = true)
    by (vm_compute; reflexivity).
  assert (H2 : (31 < length
                 (str "This is a long sentence that happens to contain a colon"))%nat)
    by (vm_compute; lia).
  split; [exact H1|]. split; [exact H2|].
  exact (proj1 (generic_cap plain_isZero plain_toString plain_upper) _ _ H1 H2).
Defined.

(** C5, at the second line of the example. *)
Lemma continuation_merge_witness :
  let m := mkMessage (str "Unknown") [] (str "Alex") (str "first line") in
  let st := mkState [] [str "Alex"] (Some m) in
  line_step (mkState [] [] None) (str "Alex: first line") = Normal st /\
  line_step st (str "second line") =
    Normal (mkState [] [str "Alex"]
              (Some (mkMessage (str "Unknown") [] (str "Alex")
                       (str "first line" ++ 10 :: str "second line")))).
Proof.
  split; [vm_compute; reflexivity|].
  apply (proj1 (proj2 (continuation_merge plain_isZero plain_toString plain_upper))
           (mkState [] [str "Alex"]
              (Some (mkMessage (str "Unknown") [] (str "Alex") (str "first line"))))
           (str "second line")
           (mkMessage (str "Unknown") [] (str "Alex") (str "first line"))).
  - reflexivity.
  - vm_compute. discriminate.
  - vm_compute. reflexivity.
Defined.

(** C7: a date-bearing header with nothing after the colon creates a
    message whose content is empty. *)
Lemma empty_content_counterexample :
  regex_match (regex_of android_iso) (str "2025-06-12, 11:20 a.m. - Sam:") =
    Some [Some (str "2025-06-12, 11:20 a.m. - Sam:"); Some (str "2025-06-12");
          Some (str "11:20"); Some (str "a.m."); Some (str "Sam"); Some []] /\
  parseChat plain_isZero plain_toString plain_upper (str "2025-06-12, 11:20 a.m. - Sam:") =
    Normal (mkResult
              [mkMessage (str "2025-06-12") (str "11:20 a.m.") (str "Sam") (JStr [])]
              [str "Sam"]).
Proof. split; vm_compute; reflexivity. Qed.

(** C7 (amended), at a generic header followed by a date-bearing header
    with an empty body and one continuation line. *)
Lemma generic_content_nonempty_witness :
  let raw := str "Alex: hi" ++ 10 :: str "2025-06-12, 11:20 a.m. - Sam:"
               ++ 10 :: str "more" in
  let m1 := mkMessage (str "Unknown") [] (str "Alex") (str "hi") in
  let m2 := mkMessage (str "2025-06-12") (str "11:20 a.m.") (str "Sam")
              (10 :: str "more") in
  parse_lines raw = Normal ([m1; m2], [str "Alex"; str "Sam"]) /\
  parseChat plain_isZero plain_toString plain_upper raw =
    Normal (mkResult (map lift_content [m1; m2]) [str "Alex"; str "Sam"]) /\
  content m1 <> [] /\ content m2 <> [].
Proof.
  cbv zeta.
  destruct (generic_content_nonempty plain_isZero plain_toString plain_upper
              (str "Alex: hi" ++ 10 :: str "2025-06-12, 11:20 a.m. - Sam:"
                 ++ 10 :: str "more"))
    as (msgs & ps & Hp & Hr & HF).
  assert (E : parse_lines (str "Alex: hi" ++ 10 :: str "2025-06-12, 11:20 a.m. - Sam:"
                             ++ 10 :: str "more") =
              Normal ([mkMessage (str "Unknown") [] (str "Alex") (str "hi");
                       mkMessage (str "2025-06-12") (str "11:20 a.m.") (str "Sam")
                         (10 :: str "more")],
                      [str "Alex"; str "Sam"]))
    by (vm_compute; reflexivity).
  rewrite E in Hp. injection Hp as <- <-.
  split; [reflexivity|]. split.
  - apply Hr. intros r. vm_compute. discriminate.
  - assert (B : fst (blocks (cleaned_lines
                       (str "Alex: hi" ++ 10 :: str "2025-06-12, 11:20 a.m. - Sam:"
                          ++ 10 :: str "more"))) =
                [(str "Alex: hi", []);
                 (str "2025-06-12, 11:20 a.m. - Sam:", [str "more"])])
      by (vm_compute; reflexivity).
    rewrite B in HF.
    inversion HF as [|b1 x1 bs1 xs1 (_ & Hg & _) HF1]; subst.
    inversion HF1 as [|b2 x2 bs2 xs2 (_ & _ & Hc) _]; subst.
    split.
    + apply Hg. vm_compute. reflexivity.
    + apply Hc. discriminate.
Defined.



(** C9: a correct text, [CAF], a capital [E] with acute accent, a no-break
    space and an exclamation mark, is not returned as it is: the accented
    letter and the space are read as the two octets of U+0260. *)
Lemma fixMojibake_correct_text_counterexample :
  double_encoded_shape [67; 65; 70; 201; 160; 33] = true /\
  escape [67; 65; 70; 201; 160; 33] = str "CAF%C9%A0%21" /\
  fixMojibake plain_toString (JStr [67; 65; 70; 201; 160; 33]) =
    JStr [67; 65; 70; 608; 33].
Proof. repeat split; vm_compute; reflexivity. Qed.

(** C9 (amended), at an accented text with an emoji, an ASCII text, a text
    with a wide code unit and a Latin-1 text, which come back as they are,
    and at a text of the double-encoded shape, which does not. *)
Lemma fixMojibake_clean_text_witness :
  fixMojibake plain_toString (JStr [104; 233; 32; 55357; 56837]) =
    JStr [104; 233; 32; 55357; 56837] /\
  fixMojibake plain_toString (JStr (str "hello, world")) = JStr (str "hello, world") /\
  fixMojibake plain_toString (JStr [104; 8364]) = JStr [104; 8364] /\
  fixMojibake plain_toString (JStr [233; 116; 233]) = JStr [233; 116; 233] /\
  (exists r, fixMojibake plain_toString (JStr [67; 65; 70; 201; 160; 33]) = JStr r /\
             (length r < 6)%nat).
Proof.
  pose proof (fixMojibake_clean_text plain_toString)
    as (_ & Hiff & Hde & Hascii & Hwide & Hwf & _).
  split; [|split; [|split; [|split]]].
  - apply Hiff. vm_compute. reflexivity.
  - apply Hascii. vm_compute. reflexivity.
  - apply Hwide. vm_compute. reflexivity.
  - apply Hwf. vm_compute. reflexivity.
  - apply (Hde [67; 65; 70; 201; 160; 33]). vm_compute. reflexivity.
Defined.

(** C10: an element that has both fields yields no message when its role
    is the empty string, and a [null] element makes the loop throw, so that
    the fast path is abandoned and its messages are lost. *)
Lemma json_elements_counterexample :
  let e := JObj [(str "role", JStr []); (str "content", JStr (str "hi"))] in
  has_key (str "role") [(str "role", JStr []); (str "content", JStr (str "hi"))] = true /\
  has_key (str "content") [(str "role", JStr []); (str "content", JStr (str "hi"))] = true /\
  json_step plain_isZero plain_toString plain_upper ([], []) e = Normal ([], []) /\
  parseChat plain_isZero plain_toString plain_upper
    (jstr "[{'role':'','content':'hi'},{'role':'a','content':'b'}]") =
    Normal (mkResult [mkMessage [] [] (str "A") (JStr (str "b"))] [str "A"]) /\
  json_step plain_isZero plain_toString plain_upper ([], []) JNull = Throw TypeError /\
  parseChat plain_isZero plain_toString plain_upper
    (jstr "[{'role':'a','content':'b'},null]") = Normal (mkResult [] []).
Proof. repeat split; vm_compute; reflexivity. Qed.

(** C10 (amended), at an element with both fields, an element without a
    role, and an array of both. *)
Lemma json_elements_witness :
  let ms := [(str "role", JStr (str "user")); (str "content", JStr (str "hi"))] in
  let msg := mkMessage [] [] (str "User") (JStr (str "hi")) in
  json_step plain_isZero plain_toString plain_upper ([], []) (JObj ms) =
    Normal ([msg], [str "User"]) /\
  json_step plain_isZero plain_toString plain_upper ([], [])
    (JObj [(str "content", JStr (str "hi"))]) = Normal ([], []) /\
  exists ps,
    forEach (json_step plain_isZero plain_toString plain_upper)
      [JObj [(str "content", JStr (str "hi"))]; JObj ms] ([], []) =
      Normal ([msg], ps).
Proof.
  split; [|split].
  - apply (proj1 (json_elements plain_isZero plain_toString plain_upper) ([], [])
             [(str "role", JStr (str "user")); (str "content", JStr (str "hi"))]
             117 (str "ser") (JStr (str "hi"))); reflexivity.
  - apply (proj1 (proj2 (json_elements plain_isZero plain_toString plain_upper))).
    + discriminate.
    + left. reflexivity.
  - apply (proj2 (proj2 (json_elements plain_isZero plain_toString plain_upper))
             [JObj [(str "content", JStr (str "hi"))];
              JObj [(str "role", JStr (str "user")); (str "content", JStr (str "hi"))]]
             ([], [])).
    reflexivity.
Defined.

(** X1, at the three octets of the euro sign and the four octets of an
    emoji. *)
Lemma fixMojibake_repairs_witness :
  fixMojibake plain_toString (JStr [226; 130; 172; 32; 240; 159; 152; 133]) =
    JStr [8364; 32; 55357; 56837].
Proof.
  apply (fixMojibake_repairs plain_toString [8364; 32; 128517]).
  vm_compute. reflexivity.
Defined.

(** X5, at a carriage return before the line break and at a blank line
    inside a message. *)
Lemma line_parsing_ignores_blanks_witness :
  parse_lines (str "Alex: one" ++ [13] ++ 10 :: str "two") =
    parse_lines (str "Alex: one" ++ 10 :: str "two") /\
  parse_lines (str "Alex: one" ++ 10 :: [10; 32] ++ str "two") =
    parse_lines (str "Alex: one" ++ 10 :: str "two").
Proof.
  split.
  - apply (proj1 (line_parsing_ignores_blanks [13] eq_refl)).
  - apply (proj1 (proj2 (line_parsing_ignores_blanks [10; 32] eq_refl))).
Defined.

(** X6, at a line with blanks around the sender. *)
Lemma generic_sender_shape_witness :
  exists st' msg before rest,
    line_step (mkState [] [] None) (str "  Alex : hi") = Normal st' /\
    st_current st' = Some msg /\
    cleanText (trim (str "  Alex : hi")) = before ++ 58 :: rest /\
    forallb not_colon before = true /\
    sender msg = trim before /\
    sender msg <> [] /\ (length (sender msg) <= 31)%nat /\
    forallb not_colon (sender msg) = true /\
    drop_ws (sender msg) = sender msg /\ no_trailing_ws (sender msg) /\
    In (sender msg) (st_participants st').
Proof.
  eapply (generic_sender_shape (mkState [] [] None) (str "  Alex : hi")).
  - vm_compute. reflexivity.
  - vm_compute. reflexivity.
Defined.

(** X7, at a fenced array of one element. *)
Lemma fenced_document_witness :
  let doc := jstr "[{'role':'user','content':'hi'}]" in
  unfenced (in_fence (str "Json") [10] doc [32; 10]) = doc /\
  try_json plain_isZero plain_toString plain_upper
    (in_fence (str "Json") [10] doc [32; 10]) =
  try_json plain_isZero plain_toString plain_upper doc.
Proof.
  apply (fenced_document plain_isZero plain_toString plain_upper
           (str "Json") [10] [32; 10]
           (List.tl (jstr "[{'role':'user','content':'hi'}]")) 91).
  - right. reflexivity.
  - reflexivity.
  - reflexivity.
  - right. reflexivity.
  - vm_compute. reflexivity.
  - vm_compute. reflexivity.
Defined.

(** X9, at a text with two participants and no side chosen yet. *)
Lemma auto_assign_sides_witness :
  let raw := str "A: one" ++ 10 :: str "B: two" in
  let s' := mkChat [str "A"; str "B"] (mkMapping (str "B") (str "B") (str "A") (str "A")) in
  on_rawText plain_isZero plain_toString plain_upper raw
    (mkChat [] (mkMapping [] [] [] [])) = Normal s' /\
  on_rawText plain_isZero plain_toString plain_upper raw s' = Normal s'.
Proof.
  destruct (auto_assign_sides plain_isZero plain_toString plain_upper
              (str "A: one" ++ 10 :: str "B: two")
              (mkChat [] (mkMapping [] [] [] [])))
    as (r & s' & Hr & Hon & _ & _ & _ & _ & Hid).
  - discriminate.
  - assert (E : on_rawText plain_isZero plain_toString plain_upper
                  (str "A: one" ++ 10 :: str "B: two")
                  (mkChat [] (mkMapping [] [] [] [])) =
                Normal (mkChat [str "A"; str "B"]
                          (mkMapping (str "B") (str "B") (str "A") (str "A"))))
      by (vm_compute; reflexivity).
    rewrite E in Hon. injection Hon as <-. split; [exact E|exact Hid].
Defined.

(** X11, at fourteen hours five on a text of one message. *)
Lemma predicted_line_parses_witness :
  parse_lines (str "A: hi" ++
               predicted_line (str "2025-06-12") 14 5 (str "B") (str " ok ")) =
    Normal ([mkMessage (str "Unknown") [] (str "A") (str "hi");
             mkMessage (str "2025-06-12") (str "14:05 p.m.") (str "B") (str "ok")],
            [str "A"; str "B"]).
Proof.
  rewrite (predicted_line_parses (str "A: hi") (str "2025-06-12") 14 5 (str "B")
             (str " ok ")).
  - vm_compute. reflexivity.
  - reflexivity.
  - reflexivity.
  - reflexivity.
  - reflexivity.
  - vm_compute. discriminate.
  - reflexivity.
Defined.

(** X12, at a document of one message, with ASCII lower-casing. *)
Lemma predicted_json_message_witness :
  let raw := jstr "[{'role':'user','content':'hi'}]" in
  let new := JObj [(str "role", JStr (str "bob")); (str "content", JStr (str "ok"))] in
  predict_update plain_isZero plain_lower raw (str "2025-06-12") 14 5
    (str "Bob") (str " ok ") =
    Normal (SetDocument
              (JArr [JObj [(str "role", JStr (str "user"));
                           (str "content", JStr (str "hi"))]; new])) /\
  with_prediction plain_toString plain_upper plain_lower
    (mkResult [mkMessage [] [] (str "User") (JStr (str "hi"))] [str "User"])
    (str "Bob") (str " ok ") =
    mkResult [mkMessage [] [] (str "User") (JStr (str "hi"));
              mkMessage [] [] (str "Bob") (JStr (str "ok"))]
             [str "User"; str "Bob"].
Proof.
  destruct (predicted_json_message plain_isZero plain_toString plain_upper plain_lower
              (jstr "[{'role':'user','content':'hi'}]")
              (mkResult [mkMessage [] [] (str "User") (JStr (str "hi"))] [str "User"])
              (str "2025-06-12") 14 5 (str "Bob") (str " ok "))
    as (doc & doc' & Hp & _ & Hpush & Hu & _).
  - vm_compute. reflexivity.
  - split; [|vm_compute; reflexivity].
    rewrite Hu. f_equal. f_equal.
    assert (E : doc = JArr [JObj [(str "role", JStr (str "user"));
                                  (str "content", JStr (str "hi"))]]).
    { assert (Hp' : JSON_parse (unfenced (jstr "[{'role':'user','content':'hi'}]")) =
                    Normal (JArr [JObj [(str "role", JStr (str "user"));
                                        (str "content", JStr (str "hi"))]]))
        by (vm_compute; reflexivity).
      rewrite Hp' in Hp. injection Hp as <-. reflexivity. }
    subst doc. vm_compute in Hpush. injection Hpush as <-. vm_compute. reflexivity.
Defined.

(** X13, with a typed alias on the left and a participant's name on the
    right. *)
Lemma selections_and_aliases_witness :
  let s := mkChat [str "A"; str "B"] (mkMapping (str "A") (str "Me") (str "B") (str "B")) in
  let evs := [SelectLeft (str "B"); SelectRight (str "A")] in
  leftAlias (mapping (fold_left select evs s)) = str "Me" /\
  rightAlias (mapping (fold_left select evs s)) =
    rightOriginal (mapping (fold_left select evs s)).
Proof.
  destruct (selections_and_aliases
              [SelectLeft (str "B"); SelectRight (str "A")]
              (mkChat [str "A"; str "B"]
                 (mkMapping (str "A") (str "Me") (str "B") (str "B"))))
    as (_ & Hl & _ & _ & Hr).
  - constructor; [right; left; reflexivity|].
    constructor; [left; reflexivity|constructor].
  - split; [apply Hl; reflexivity|apply Hr; reflexivity].
Defined.

(** X14, at a small object in a tagged fence. *)
Lemma fenced_reply_witness :
  analysis_json_string (in_fence (str "json") [10] (123 :: jstr "'a':1}") [10]) =
    trim (123 :: jstr "'a':1}") /\
  analysis_json_string ([10] ++ (123 :: jstr "'a':1}") ++ [10]) =
    trim (123 :: jstr "'a':1}") /\
  analysis_data (in_fence (str "JSON") [10] (123 :: jstr "'a':1}") [10]) =
    analysis_fallback (in_fence (str "JSON") [10] (123 :: jstr "'a':1}") [10]).
Proof.
  apply (fenced_reply (str "json") [10] [10] 123 (jstr "'a':1}")).
  - right. reflexivity.
  - reflexivity.
  - reflexivity.
  - left. reflexivity.
  - reflexivity.
Defined.

(** X15, at a text with two participants and at a text without messages. *)
Lemma prediction_after_auto_assign_witness :
  next_speaker plain_isZero plain_toString plain_upper
    (str "A: one" ++ 10 :: str "B: two")
    (mkMapping (str "B") (str "B") (str "A") (str "A")) = Normal (str "A", str "A") /\
  next_speaker plain_isZero plain_toString plain_upper (str "hello")
    (mkMapping [] [] [] []) = Throw TypeError.
Proof.
  split.
  - destruct (prediction_after_auto_assign plain_isZero plain_toString plain_upper
                (str "A: one" ++ 10 :: str "B: two")
                (mkChat [] (mkMapping [] [] [] []))
                (mkChat [str "A"; str "B"]
                   (mkMapping (str "B") (str "B") (str "A") (str "A"))))
      as [_ H].
    + discriminate.
    + vm_compute. reflexivity.
    + destruct (H ltac:(discriminate)) as (next & alias & Hn).
      cbn [mapping] in Hn. rewrite Hn.
      assert (E : next_speaker plain_isZero plain_toString plain_upper
                    (str "A: one" ++ 10 :: str "B: two")
                    (mkMapping (str "B") (str "B") (str "A") (str "A")) =
                  Normal (str "A", str "A")) by (vm_compute; reflexivity).
      rewrite E in Hn. symmetry. exact Hn.
  - apply (prediction_after_auto_assign plain_isZero plain_toString plain_upper
             (str "hello") (mkChat [] (mkMapping [] [] [] []))
             (mkChat [] (mkMapping [] [] [] []))).
    + discriminate.
    + vm_compute. reflexivity.
    + reflexivity.
Defined.

(** X10, with the same name on both sides: the right alias is the next
    one. *)
Lemma next_speaker_alternates_witness :
  next_speaker plain_isZero plain_toString plain_upper (str "A: one")
    (mkMapping (str "A") (str "x") (str "A") (str "y")) = Normal (str "A", str "y").
Proof.
  destruct (next_speaker_alternates plain_isZero plain_toString plain_upper
              (str "A: one") (mkMapping (str "A") (str "x") (str "A") (str "y")))
    as (ps & Hg & _ & H).
  assert (E : getProcessedMessages plain_isZero plain_toString plain_upper
                (str "A: one") (mkMapping (str "A") (str "x") (str "A") (str "y")) =
              Normal [mkProcessed
                        (mkMessage (str "Unknown") [] (str "A") (JStr (str "one")))
                        Left (str "x")])
    by (vm_compute; reflexivity).
  rewrite E in Hg. injection Hg as <-.
  destruct (H ltac:(discriminate)) as (p & Hp & Hl & _ & _).
  vm_compute in Hp. injection Hp as <-. apply Hl. reflexivity.
Defined.
